(** * StegoX: the secure payload pipeline, embedded in Rocq

    A shallow embedding of the Python sources

      - [stego_engine.py]  (bit codec, LSB embedding in image pixels),
      - [audio_stego.py]   (LSB embedding in PCM samples),
      - [encryptor.py]     (AES-CBC with a SHA-256 derived key, base64 transport),
      - [voice_auth.py]    (transcription, normalisation, Jaccard similarity),
      - [utils.py]         (capacity estimates),

    followed by the properties of the pipeline.

    Conventions.  A Python [str] is the list of its code points, [bytes] a
    list of integers in [0, 256), both over [Z].  A string of the characters
    '0' and '1' (what [text_to_binary] returns and what is read back from the
    least significant bits) is a list of booleans.  Python exceptions are an
    explicit [result] monad; the file system and the standard output are an
    explicit [world]; NumPy arrays live in a store of mutable arrays. *)

From Stdlib Require Import ZArith QArith Lia List Ascii String Btauto.
From stdpp Require Import base tactics option list gmap strings pretty.

Local Open Scope Z_scope.

(* ================================================================== *)
(** * Part I.  The Python run time: exceptions, strings, bytes          *)
(* ================================================================== *)

Module Py.

(** A [str] is a sequence of code points, [bytes] a sequence of octets. *)
Definition str := list Z.
Definition bytes := list Z.

(** A string literal of the source, for its ASCII part. *)
Definition lit (s : string) : str :=
  map (fun a : ascii => Z.of_N (N_of_ascii a)) (list_ascii_of_string s).

(** [str(n)] for an [int]. *)
Definition str_of_int (n : Z) : str := lit (pretty n).

(** The exception classes that occur; every one derives from [Exception],
    so [except Exception] catches all of them. *)
Inductive exn_class :=
  | Exception | ValueError | TypeError | IndexError | UnicodeEncodeError
  | UnicodeDecodeError | OSError | BinasciiError | KeyError
  | OverflowError | WaveError | StructError.

Record exn := MkExn { exn_cls : exn_class; exn_msg : str }.

Inductive result (A : Type) :=
  | Ok (a : A)
  | Raise (e : exn).
Arguments Ok {A} a.
Arguments Raise {A} e.

#[global] Instance result_ret : MRet result := fun _ a => Ok a.
#[global] Instance result_bind : MBind result := fun _ _ f m =>
  match m with Ok a => f a | Raise e => Raise e end.
#[global] Instance result_fmap : FMap result := fun _ _ f m =>
  match m with Ok a => Ok (f a) | Raise e => Raise e end.

(** [try: body  except C as e: handler e]: only exceptions of class [C]
    are handled. *)
Definition try_except {A} (body : result A) (C : exn_class -> bool)
    (handler : exn -> result A) : result A :=
  match body with
  | Ok a => Ok a
  | Raise e => if C (exn_cls e) then handler e else Raise e
  end.

Definition is_UnicodeDecodeError (c : exn_class) : bool :=
  match c with UnicodeDecodeError => true | _ => false end.
(** [except Exception]. *)
Definition is_Exception (c : exn_class) : bool := true.

Definition returns {A} (m : result A) : Prop := exists a, m = Ok a.

(** ** Code points and octets *)

Definition is_byte (b : Z) : Prop := 0 <= b < 256.
Definition is_surrogate (c : Z) : bool := (0xD800 <=? c) && (c <=? 0xDFFF).
(** A Unicode scalar value: a code point that is not a surrogate. *)
Definition is_scalar (c : Z) : Prop :=
  0 <= c <= 0x10FFFF /\ is_surrogate c = false.
(** The strings that have a UTF-8 encoding. *)
Definition valid_str (s : str) : Prop := Forall is_scalar s.

(** ** [str.encode('utf-8')] *)

Definition utf8_encode_char (c : Z) : result bytes :=
  if c <? 0x80 then Ok [c]
  else if c <? 0x800 then Ok [0xC0 + c / 64; 0x80 + c mod 64]
  else if c <? 0x10000 then
    if is_surrogate c
    then Raise (MkExn UnicodeEncodeError (lit "surrogates not allowed"))
    else Ok [0xE0 + c / 4096; 0x80 + (c / 64) mod 64; 0x80 + c mod 64]
  else Ok [0xF0 + c / 262144; 0x80 + (c / 4096) mod 64;
           0x80 + (c / 64) mod 64; 0x80 + c mod 64].

Fixpoint str_encode_utf8 (s : str) : result bytes :=
  match s with
  | [] => Ok []
  | c :: s' =>
      b ← utf8_encode_char c;
      bs ← str_encode_utf8 s';
      mret (b ++ bs)
  end.

(** ** [bytes.decode('utf-8', errors=...)]

    The decoder of CPython: an ill-formed sequence is an error whose range
    is the maximal prefix of a well-formed sequence (one, two or three
    octets, or everything that is left when the input ends inside a
    sequence).  [errors='strict'] raises [UnicodeDecodeError];
    [errors='ignore'] drops the octets of the range and goes on. *)

Inductive errors_mode := Strict | Ignore.

Definition is_cont (b : Z) : bool := (0x80 <=? b) && (b <? 0xC0).

Definition decode_error (mode : errors_mode) (reason : string)
    (resume : result str) : result str :=
  match mode with
  | Strict => Raise (MkExn UnicodeDecodeError (lit reason))
  | Ignore => resume
  end.

(** The second octet is acceptable after the lead octet [b0]. *)
Definition second_ok (b0 b1 : Z) : bool :=
  is_cont b1 &&
  negb ((b0 =? 0xE0) && (b1 <? 0xA0)) && negb ((b0 =? 0xED) && (0xA0 <=? b1)) &&
  negb ((b0 =? 0xF0) && (b1 <? 0x90)) && negb ((b0 =? 0xF4) && (0x90 <=? b1)).

(** One step of the decoder; [continue] decodes what is left. *)
Definition utf8_decode_step (continue : bytes -> result str)
    (mode : errors_mode) (bs : bytes) : result str :=
  let err := decode_error mode in
  match bs with
  | [] => Ok []
  | b0 :: r0 =>
    if b0 <? 0x80 then s ← continue r0; mret (b0 :: s)
    else if (b0 <? 0xC2) || (0xF5 <=? b0) then
      err "invalid start byte" (continue r0)
    else if b0 <? 0xE0 then
      match r0 with
      | [] => err "unexpected end of data" (Ok [])
      | b1 :: r1 =>
        if is_cont b1
        then s ← continue r1;
             mret ((b0 - 0xC0) * 64 + (b1 - 0x80) :: s)
        else err "invalid continuation byte" (continue r0)
      end
    else if b0 <? 0xF0 then
      match r0 with
      | [] => err "unexpected end of data" (Ok [])
      | b1 :: r1 =>
        if negb (second_ok b0 b1)
        then err "invalid continuation byte" (continue r0)
        else match r1 with
        | [] => err "unexpected end of data" (Ok [])
        | b2 :: r2 =>
          if is_cont b2
          then s ← continue r2;
               mret ((b0 - 0xE0) * 4096 + (b1 - 0x80) * 64 + (b2 - 0x80) :: s)
          else err "invalid continuation byte" (continue r1)
        end
      end
    else
      match r0 with
      | [] => err "unexpected end of data" (Ok [])
      | b1 :: r1 =>
        if negb (second_ok b0 b1)
        then err "invalid continuation byte" (continue r0)
        else match r1 with
        | [] => err "unexpected end of data" (Ok [])
        | b2 :: r2 =>
          if negb (is_cont b2)
          then err "invalid continuation byte" (continue r1)
          else match r2 with
          | [] => err "unexpected end of data" (Ok [])
          | b3 :: r3 =>
            if is_cont b3
            then s ← continue r3;
                 mret ((b0 - 0xF0) * 262144 + (b1 - 0x80) * 4096
                       + (b2 - 0x80) * 64 + (b3 - 0x80) :: s)
            else err "invalid continuation byte" (continue r2)
          end
        end
      end
  end.

Fixpoint bytes_decode_utf8 (mode : errors_mode) (bs : bytes) {struct bs}
    : result str :=
  utf8_decode_step (bytes_decode_utf8 mode) mode bs.

(** ** [format(byte, '08b')] and [int(bits, 2)] *)

Definition bits := list bool.

Definition bit_of_Z (b : Z) : bool := Z.odd b.
Definition Z_of_bit (b : bool) : Z := if b then 1 else 0.

(** The eight binary digits of an octet, most significant first. *)
Definition format_08b (byte : Z) : bits :=
  map (fun k => Z.testbit byte k) [7; 6; 5; 4; 3; 2; 1; 0].

(** [int(s, 2)] for a string of binary digits. *)
Definition int_base2 (s : bits) : Z :=
  fold_left (fun acc b => 2 * acc + Z_of_bit b) s 0.

(** [s.find(sub)]: the lowest index where [sub] occurs in [s]. *)
Fixpoint starts_with (sub s : bits) : bool :=
  match sub, s with
  | [], _ => true
  | _ :: _, [] => false
  | x :: sub', y :: s' => Bool.eqb x y && starts_with sub' s'
  end.

Fixpoint find_from (sub s : bits) (i : Z) : option Z :=
  if starts_with sub s then Some i
  else match s with
       | [] => None
       | _ :: s' => find_from sub s' (i + 1)
       end.

(** Python returns [-1] when there is no occurrence. *)
Definition str_find (s sub : bits) : Z :=
  match find_from sub s 0 with Some i => i | None => -1 end.

(** [range(start, stop, step)] for a positive step. *)
Definition range_step (start stop step : Z) : list Z :=
  map (fun k => start + Z.of_nat k * step)
      (seq 0 (Z.to_nat ((stop - start + step - 1) / step))).

(** The slice [s[i:j]] for [0 <= i <= j]. *)
Definition slice {A} (s : list A) (i j : Z) : list A :=
  take (Z.to_nat (j - i)) (drop (Z.to_nat i) s).

End Py.
Import Py.

(** Texts of the interpreter that the model takes as they come: [repr(s)]
    of a string, with which the message of an [OSError] names the path
    (which characters it shows as they are is a matter of Unicode), and
    the message of the [struct.error] for a list of values that one of
    the fields of a header cannot hold, which differs between the
    versions of Python. *)
Class PyText := {
  repr : str -> str;
  struct_error_text : list Z -> str;
}.

(** How NumPy types a Python [int] that meets a NumPy scalar in an
    operation.  NumPy 1.x looks at the value of the [int]: next to an
    [int16], [0xFFFE] makes the operation one of a wider integer type, in
    which it fits.  NumPy 2 (NEP 50) converts the [int] to the type of the
    scalar, and raises [OverflowError] when it does not fit.  The sources
    do not say which NumPy they run on. *)
Inductive promotion := ValueBased | Weak.

Class NumPy := { numpy_promotion : promotion }.

(* ================================================================== *)
(** * Part II.  NumPy arrays, image and wave files, the world           *)
(* ================================================================== *)

Module Np.

Inductive dtype := uint8 | int16.

(** Storing a NumPy integer of a wider type in an array converts it to the
    element type by wrap-around (the C cast of item assignment). *)
Definition cast (t : dtype) (v : Z) : Z :=
  match t with
  | uint8 => v mod 256
  | int16 => (v + 32768) mod 65536 - 32768
  end.

Definition in_dtype (t : dtype) (v : Z) : Prop :=
  match t with
  | uint8 => 0 <= v < 256
  | int16 => -32768 <= v < 32768
  end.

(** A one-dimensional array object. *)
Record array := MkArray { a_dtype : dtype; a_data : list Z }.

(** The store of array objects: a reference is an index into it.  Two
    references are aliases exactly when they are equal. *)
Definition ref := nat.
Definition store := list array.

(** Computations on the store that may raise. *)
Definition np (A : Type) : Type := store -> result (A * store).

#[global] Instance np_ret : MRet np := fun _ a h => Ok (a, h).
#[global] Instance np_bind : MBind np := fun _ _ f m h =>
  match m h with Ok (a, h') => f a h' | Raise e => Raise e end.

Definition np_raise {A} (e : exn) : np A := fun _ => Raise e.

(** [np.array(values, dtype=t)], [np.zeros(n, dtype=t)]: a new object. *)
Definition np_new (t : dtype) (values : list Z) : np ref :=
  fun h => Ok (length h, h ++ [MkArray t (map (cast t) values)]).
Definition np_zeros (n : Z) (t : dtype) : np ref :=
  np_new t (replicate (Z.to_nat n) 0).

Definition np_read (r : ref) : np array := fun h =>
  match h !! r with
  | Some a => Ok (a, h)
  | None => Raise (MkExn Exception (lit "dangling array reference"))
  end.

(** [a.copy()]: a new object with the same elements. *)
Definition np_copy (r : ref) : np ref :=
  a ← np_read r; np_new (a_dtype a) (a_data a).

(** [len(a)]. *)
Definition np_len (r : ref) : np Z :=
  a ← np_read r; mret (Z.of_nat (length (a_data a))).

(** [a[i]] for [0 <= i]. *)
Definition np_get (r : ref) (i : Z) : np Z :=
  a ← np_read r;
  match a_data a !! Z.to_nat i with
  | Some v => mret v
  | None => np_raise (MkExn IndexError (lit "index out of bounds"))
  end.

(** [a[i] = v]: the object is updated in place. *)
Definition np_write (r : ref) (a : array) : np unit :=
  fun h => Ok (tt, <[r := a]> h).

Definition np_set (r : ref) (i : Z) (v : Z) : np unit :=
  a ← np_read r;
  if decide (Z.to_nat i < length (a_data a))%nat
  then np_write r (MkArray (a_dtype a)
                     (<[Z.to_nat i := cast (a_dtype a) v]> (a_data a)))
  else np_raise (MkExn IndexError (lit "index out of bounds")).

(** [x & k] for an [int16] scalar [x] and a Python [int] [k] that is not
    negative.  With the value-based promotion the result is an integer of
    a type that holds [k], and no bit of [k] is lost; with the weak one,
    [k] must be an [int16] itself. *)
Definition int16_and_int `{!NumPy} (x k : Z) : np Z :=
  match numpy_promotion with
  | ValueBased => mret (Z.land x k)
  | Weak =>
      if (-32768 <=? k) && (k <? 32768) then mret (Z.land x k)
      else np_raise (MkExn OverflowError
             (lit "Python integer " ++ str_of_int k
              ++ lit " out of bounds for int16"))
  end.

(** [for i in range(n): body i]. *)
Fixpoint for_each (l : list Z) (body : Z -> np unit) : np unit :=
  match l with
  | [] => mret tt
  | i :: l' => _ ← body i; for_each l' body
  end.

Definition range (n : Z) : list Z := map Z.of_nat (seq 0 (Z.to_nat n)).

Definition for_range (n : Z) (body : Z -> np unit) : np unit :=
  for_each (range n) body.

(** Run a computation in a store of its own and keep its value. *)
Definition np_eval {A} (m : np A) : result A :=
  match m [] with Ok (a, _) => Ok a | Raise e => Raise e end.

End Np.
Import Np.

Module World.

(** ** Files *)

(** A decoded image: its mode, its size and its samples, row by row, the
    bands of a pixel next to each other. *)
Record pil_image := MkImage {
  im_mode : str; im_width : Z; im_height : Z; im_px : list Z }.

(** [len(img.getbands())]. *)
Definition getbands (mode : str) : Z :=
  if decide (mode = lit "RGB") then 3
  else if decide (mode = lit "RGBA") then 4
  else if decide (mode ∈ [lit "LA"; lit "PA"; lit "La"]) then 2
  else if decide (mode ∈ [lit "YCbCr"; lit "LAB"; lit "HSV"]) then 3
  else if decide (mode ∈ [lit "CMYK"; lit "RGBX"; lit "RGBa"]) then 4
  else 1.

Definition wf_image (im : pil_image) : Prop :=
  0 <= im_width im /\ 0 <= im_height im /\
  Z.of_nat (length (im_px im))
    = im_height im * im_width im * getbands (im_mode im) /\
  Forall is_byte (im_px im).

(** The parameters and the frames of a PCM wave file. *)
Record wave_params := MkParams {
  nchannels : Z; sampwidth : Z; framerate : Z; nframes : Z }.
Record wave_file := MkWave { wv_params : wave_params; wv_frames : bytes }.

Inductive file :=
  | ImageFile (im : pil_image)
  | WaveFile (wv : wave_file)
  | OtherFile (content : bytes).

(** ** The world: files by path, the paths that cannot be written (the
    permission is denied), and what has been printed. *)
Record world := MkWorld {
  fs : gmap str file;
  read_only : str -> bool;
  stdout : list str }.

(** Computations in the world; an exception leaves the world as it was
    when it was raised. *)
Definition io (A : Type) : Type := world -> result A * world.

#[global] Instance io_ret : MRet io := fun _ a w => (Ok a, w).
#[global] Instance io_bind : MBind io := fun _ _ f m w =>
  match m w with (Ok a, w') => f a w' | (Raise e, w') => (Raise e, w') end.

Definition io_raise {A} (e : exn) : io A := fun w => (Raise e, w).
(** A computation that does not touch the world. *)
Definition io_lift {A} (m : result A) : io A := fun w => (m, w).

(** [try: body  except Exception as e: handler e]. *)
Definition io_try {A} (body : io A) (handler : exn -> io A) : io A :=
  fun w =>
    match body w with
    | (Ok a, w') => (Ok a, w')
    | (Raise e, w') => handler e w'
    end.

(** [print(line)]. *)
Definition print (line : str) : io unit := fun w =>
  (Ok tt, MkWorld (fs w) (read_only w) (stdout w ++ [line])).

Section WithTexts.
Context `{!PyText}.

(** The messages of the [FileNotFoundError] and of the [PermissionError]
    for [path]; both classes derive from [OSError]. *)
Definition no_such_file (path : str) : exn :=
  MkExn OSError (lit "[Errno 2] No such file or directory: " ++ repr path).

Definition permission_denied (path : str) : exn :=
  MkExn OSError (lit "[Errno 13] Permission denied: " ++ repr path).

(** [open(path, 'wb')] followed by writing the whole of a file and
    closing it: refused on a read-only path. *)
Definition write_file (path : str) (f : file) : io unit := fun w =>
  if read_only w path
  then (Raise (permission_denied path), w)
  else (Ok tt, MkWorld (<[path := f]> (fs w)) (read_only w) (stdout w)).

(** [Image.open(path)]; the error for a file that is no image is the
    [UnidentifiedImageError] of Pillow, an [OSError]. *)
Definition Image_open (path : str) : io pil_image := fun w =>
  match fs w !! path with
  | Some (ImageFile im) => (Ok im, w)
  | Some _ =>
      (Raise (MkExn OSError (lit "cannot identify image file " ++ repr path)),
       w)
  | None => (Raise (no_such_file path), w)
  end.

(** [wave.open(path, 'rb')] with [readframes(-1)] and [getparams()]. *)
Definition wave_open_read (path : str) : io wave_file := fun w =>
  match fs w !! path with
  | Some (WaveFile wv) => (Ok wv, w)
  | Some _ =>
      (Raise (MkExn WaveError (lit "file does not start with RIFF id")), w)
  | None => (Raise (no_such_file path), w)
  end.

(** The values that [wave] packs into the header of a file of [n] octets
    of data, in the order of the fields: the length of the form, the
    channels, the frame rate, the octets per second, the octets per frame,
    the bits per sample and the length of the data.  The length of the data
    is first computed from the frames that [setparams] was given, when it
    was given any. *)
Definition wave_header (params : wave_params) (n : Z) : list Z :=
  let framesize := nchannels params * sampwidth params in
  let frames := if nframes params =? 0 then n / framesize
                else nframes params in
  let datalength := frames * framesize in
  [36 + datalength; nchannels params; framerate params;
   nchannels params * framerate params * sampwidth params;
   framesize; sampwidth params * 8; datalength].

(** The header can be packed ([struct.pack('<L4s4sLHHLLHH4s', ...)] and
    [struct.pack('<L', ...)]): 32 bits for the lengths, the frame rate and
    the octets per second, 16 bits for the others; and the length of the
    data written fits as well. *)
Definition wave_header_ok (params : wave_params) (n : Z) : bool :=
  match wave_header params n with
  | [form; channels; rate; per_second; per_frame; per_sample; datalength] =>
      (0 <=? datalength) && (form <=? 4294967295) && (channels <=? 65535)
      && (0 <=? rate) && (rate <=? 4294967295)
      && (0 <=? per_second) && (per_second <=? 4294967295)
      && (0 <=? per_frame) && (per_frame <=? 65535)
      && (0 <=? per_sample) && (per_sample <=? 65535)
      && (36 + n <=? 4294967295)
  | _ => false
  end.

(** [with wave.open(path, 'wb') as f: f.setparams(params);
    f.writeframes(data)].  Opening creates the file, empty, or empties the
    one there is.  [setparams] raises on the first parameter that it
    refuses; leaving the [with] block then closes the file, and [close]
    raises in its turn, for the first parameter that has not been set: this
    is the exception that leaves the block, and the file stays empty.
    [writeframes] writes [RIFF] and raises [struct.error] when a field of
    the header cannot hold its value; [close] then does the same once
    more.  Otherwise the file is written, and the number of frames in its
    header is the one of the data written.  (A negative number of frames,
    which no file gives, and data of four gigabytes are counted with the
    headers that cannot be packed.) *)
Definition wave_write (path : str) (params : wave_params) (data : bytes)
    : io unit :=
  _ ← write_file path (OtherFile []);
  if nchannels params <? 1
  then io_raise (MkExn WaveError (lit "# channels not specified"))
  else if (sampwidth params <? 1) || (4 <? sampwidth params)
  then io_raise (MkExn WaveError (lit "sample width not specified"))
  else if framerate params <=? 0
  then io_raise (MkExn WaveError (lit "sampling rate not specified"))
  else if negb (wave_header_ok params (Z.of_nat (length data)))
  then
    _ ← write_file path (OtherFile (lit "RIFFRIFF"));
    io_raise (MkExn StructError
                (struct_error_text
                   (wave_header params (Z.of_nat (length data)))))
  else
    write_file path (WaveFile (MkWave
      (MkParams (nchannels params) (sampwidth params) (framerate params)
         (Z.of_nat (length data) / (nchannels params * sampwidth params)))
      data)).

End WithTexts.

(** An n-dimensional array as NumPy hands it over: shape and elements in
    row-major order. *)
Record ndarray := MkNd { nd_shape : list Z; nd_flat : list Z }.

(** [np.array(img)]. *)
Definition np_array_of_image (im : pil_image) : ndarray :=
  let b := getbands (im_mode im) in
  MkNd (if b =? 1 then [im_height im; im_width im]
        else [im_height im; im_width im; b])
       (im_px im).

(** [flat.reshape(shape)]. *)
Definition reshape (flat : list Z) (shape : list Z) : result ndarray :=
  if Z.of_nat (length flat) =? fold_right Z.mul 1 shape
  then Ok (MkNd shape flat)
  else Raise (MkExn ValueError (lit "cannot reshape array")).

(** [Image.fromarray(a.astype(np.uint8))]. *)
Definition Image_fromarray (a : ndarray) : result pil_image :=
  let px := map (cast uint8) (nd_flat a) in
  match nd_shape a with
  | [h; w] => Ok (MkImage (lit "L") w h px)
  | [h; w; c] =>
      if c =? 3 then Ok (MkImage (lit "RGB") w h px)
      else if c =? 4 then Ok (MkImage (lit "RGBA") w h px)
      else Raise (MkExn TypeError (lit "Cannot handle this data type"))
  | _ => Raise (MkExn TypeError (lit "Cannot handle this data type"))
  end.

(** [np.frombuffer(frames, dtype=np.int16)]: pairs of octets, low octet
    first, read as signed 16-bit integers. *)
Fixpoint np_frombuffer_int16 (frames : bytes) : result (list Z) :=
  match frames with
  | [] => Ok []
  | [_] => Raise (MkExn ValueError
             (lit "buffer size must be a multiple of element size"))
  | lo :: hi :: rest =>
      l ← np_frombuffer_int16 rest;
      mret (cast int16 (lo + 256 * hi) :: l)
  end.

(** [a.tobytes()] for an [int16] array. *)
Definition tobytes_int16 (a : list Z) : bytes :=
  flat_map (fun v => [v mod 256; (v / 256) mod 256]) a.

End World.
Import World.

(** The external libraries whose results the sources only pass on: the
    colour conversion of Pillow and the formatting of floating point
    numbers in the progress messages. *)
Class Pillow := {
  (** [img.convert(mode)] *)
  Image_convert : pil_image -> str -> result pil_image;
  Image_convert_ok : forall im mode im',
    wf_image im -> Image_convert im mode = Ok im' ->
    wf_image im' /\ im_mode im' = mode /\
    im_width im' = im_width im /\ im_height im' = im_height im;
}.

Class FloatFormat := {
  (** [f"{(a/b)*100:.2f}"] *)
  percent_2f : Z -> Z -> str;
  (** [f"{a/b:.2f}"] *)
  ratio_2f : Z -> Z -> str;
  (** [f"{a/b:.1f}"] *)
  ratio_1f : Z -> Z -> str;
  (** [f"{a/(b/c):.0f}"] *)
  ratio_of_ratio_0f : Z -> Z -> Z -> str;
}.

(* ================================================================== *)
(** * Part III.  [stego_engine.py] and [audio_stego.py]                 *)
(* ================================================================== *)

Module Codec.

(** [END_MARKER = '1010101010101010'] (the same constant in both files). *)
Definition END_MARKER : bits :=
  [true; false; true; false; true; false; true; false;
   true; false; true; false; true; false; true; false].

(** [text_to_binary]: the UTF-8 octets of the text, eight digits each. *)
Definition text_to_binary (text : str) : result bits :=
  utf8_bytes ← str_encode_utf8 text;
  mret (concat (map format_08b utf8_bytes)).

(** The loop of [binary_to_text]: one integer for every complete group of
    eight digits, at the offsets [0, 8, 16, ...]. *)
Definition binary_groups (binary : bits) : list Z :=
  flat_map
    (fun i =>
       let byte := slice binary i (i + 8) in
       if (length byte =? 8)%nat then [int_base2 byte] else [])
    (range_step 0 (Z.of_nat (length binary)) 8).

(** [bytes(chars)]: every integer must be an octet. *)
Definition bytes_of_ints (chars : list Z) : result bytes :=
  if forallb (fun v => (0 <=? v) && (v <? 256)) chars then Ok chars
  else Raise (MkExn ValueError (lit "bytes must be in range(0, 256)")).

(** [binary_to_text]: strict decoding first, lossy decoding when that
    raises [UnicodeDecodeError]. *)
Definition binary_to_text (binary : bits) : result str :=
  let chars := binary_groups binary in
  try_except
    (b ← bytes_of_ints chars; bytes_decode_utf8 Strict b)
    is_UnicodeDecodeError
    (fun _ => b ← bytes_of_ints chars; bytes_decode_utf8 Ignore b).

(** The digit ['0'] or ['1'] that [str(bit)] gives for an extracted bit. *)
Definition digit_of_bit (v : Z) : bool := v =? 1.

End Codec.
Import Codec.

Module StegoEngine.

(** [fast_embed_pixels]: a copy of [flat_pixels] whose first
    [min(len(binary_data), len(flat_pixels))] elements carry the bits. *)
Definition fast_embed_pixels (binary_data flat_pixels : ref) : np ref :=
  result ← np_copy flat_pixels;
  n_bits ← np_len binary_data;
  n_pix ← np_len flat_pixels;
  _ ← for_range (Z.min n_bits n_pix) (fun i =>
        x ← np_get result i;
        b ← np_get binary_data i;
        np_set result i (Z.lor (Z.land x 254) b));
  mret result.

(** [fast_extract_bits]: the least significant bit of each of the first
    [min(num_bits, len(flat_pixels))] elements. *)
Definition fast_extract_bits (flat_pixels : ref) (num_bits : Z) : np ref :=
  n_pix ← np_len flat_pixels;
  result ← np_zeros (Z.min num_bits n_pix) uint8;
  n ← np_len result;
  _ ← for_range n (fun i =>
        x ← np_get flat_pixels i;
        np_set result i (Z.land x 1));
  mret result.

(** What a capacity query returns: the dictionary of the report, or a
    dictionary with the single key ['error']. *)
Inductive report (A : Type) :=
  | Report (a : A)
  | ErrorReport (error : str).
Arguments Report {A} a.
Arguments ErrorReport {A} error.

Section WithLibraries.
Context `{!PyText, !Pillow, !FloatFormat}.

(** The image as the functions see it: opened, converted to RGB unless it
    is RGB or RGBA, and turned into an array. *)
Definition load_image_array (image_path : str) : io ndarray :=
  img ← Image_open image_path;
  img ← (if decide (im_mode img ∈ [lit "RGB"; lit "RGBA"])
         then mret img
         else io_lift (Image_convert img (lit "RGB")));
  mret (np_array_of_image img).

(** [height, width = img_array.shape[:2]]. *)
Definition shape_hw (shape : list Z) : result (Z * Z) :=
  match take 2 shape with
  | [h; w] => Ok (h, w)
  | _ => Raise (MkExn ValueError (lit "not enough values to unpack"))
  end.

(** [img_array.shape[2] if len(img_array.shape) > 2 else 1]. *)
Definition shape_channels (shape : list Z) : Z :=
  match shape with
  | _ :: _ :: c :: _ => c
  | _ => 1
  end.

Definition too_large_message (max_capacity message_length : Z) : str :=
  lit "Message too large. Max capacity: " ++ str_of_int max_capacity
  ++ lit " bits, Message: " ++ str_of_int message_length ++ lit " bits".

(** The [try] block of [hide_message_in_image]. *)
Definition hide_message_in_image_body
    (image_path encrypted_message output_path : str) : io bool :=
  img_array ← load_image_array image_path;
  '(height, width) ← io_lift (shape_hw (nd_shape img_array));
  let channels := shape_channels (nd_shape img_array) in
  binary_message ← io_lift (b ← text_to_binary encrypted_message;
                            mret (b ++ END_MARKER));
  let message_length := Z.of_nat (length binary_message) in
  let max_capacity := height * width * channels in
  if message_length >? max_capacity
  then io_raise (MkExn ValueError
                   (too_large_message max_capacity message_length))
  else
    flat_img ← io_lift (np_eval (
      flat_img ← np_new uint8 (nd_flat img_array);
      binary_array ← np_new uint8 (map Z_of_bit binary_message);
      flat_img ← fast_embed_pixels binary_array flat_img;
      a ← np_read flat_img;
      mret (a_data a)));
    stego_array ← io_lift (reshape flat_img (nd_shape img_array));
    stego_img ← io_lift (Image_fromarray stego_array);
    _ ← write_file output_path (ImageFile stego_img);
    _ ← print ([0x2705] ++ lit " Message hidden successfully! Capacity used: "
               ++ str_of_int message_length ++ lit "/"
               ++ str_of_int max_capacity ++ lit " bits ("
               ++ percent_2f message_length max_capacity ++ lit "%)");
    mret true.

(** [hide_message_in_image]: every exception of the body is caught,
    reported on the standard output and turned into [False]. *)
Definition hide_message_in_image
    (image_path encrypted_message output_path : str) : io bool :=
  io_try (hide_message_in_image_body image_path encrypted_message output_path)
    (fun e =>
       _ ← print ([0x274C] ++ lit " Error hiding message: " ++ exn_msg e);
       mret false).

(** The [try] block of [extract_message_from_image]. *)
Definition extract_message_from_image_body (image_path : str) : io str :=
  img_array ← load_image_array image_path;
  let flat_img := nd_flat img_array in
  let max_bits := Z.of_nat (length flat_img) in
  binary_bits_array ← io_lift (np_eval (
    flat_img ← np_new uint8 flat_img;
    r ← fast_extract_bits flat_img max_bits;
    a ← np_read r;
    mret (a_data a)));
  let binary_string := map digit_of_bit binary_bits_array in
  let end_marker_pos := str_find binary_string END_MARKER in
  if end_marker_pos =? -1
  then io_raise (MkExn ValueError
         (lit "End marker not found. This may not be a valid stego image."))
  else
    let message_binary := slice binary_string 0 end_marker_pos in
    extracted_message ← io_lift (binary_to_text message_binary);
    _ ← print ([0x2705] ++ lit " Message extracted successfully! Length: "
               ++ str_of_int (Z.of_nat (length extracted_message))
               ++ lit " characters");
    mret extracted_message.

(** [extract_message_from_image]: an exception is reported and raised
    again. *)
Definition extract_message_from_image (image_path : str) : io str :=
  io_try (extract_message_from_image_body image_path)
    (fun e =>
       _ ← print ([0x274C] ++ lit " Error extracting message: " ++ exn_msg e);
       io_raise e).

(** The dictionary that [get_image_capacity] returns. *)
Record image_capacity := MkImageCapacity {
  ic_dimensions : str;
  ic_channels : Z;
  ic_total_pixels : Z;
  ic_max_bits : Z;
  ic_max_characters : Z;
  ic_recommended_message_length : Z }.

Definition get_image_capacity_body (image_path : str) : io image_capacity :=
  img_array ← load_image_array image_path;
  '(height, width) ← io_lift (shape_hw (nd_shape img_array));
  let channels := shape_channels (nd_shape img_array) in
  let total_pixels := height * width * channels in
  let max_chars := total_pixels / 8 in
  mret {| ic_dimensions := str_of_int width ++ lit "x" ++ str_of_int height;
          ic_channels := channels;
          ic_total_pixels := total_pixels;
          ic_max_bits := total_pixels;
          ic_max_characters := max_chars;
          ic_recommended_message_length := max_chars - 50 |}.

Definition get_image_capacity (image_path : str) : io (report image_capacity) :=
  io_try (c ← get_image_capacity_body image_path; mret (Report c))
    (fun e => mret (ErrorReport (exn_msg e))).

End WithLibraries.
End StegoEngine.

Module AudioStego.
Import StegoEngine.

Section WithNumPy.
Context `{!NumPy}.

(** The embedding loop of [hide_message_in_audio]: [stego_data] is updated
    in place.  [stego_data[i]] is an [int16] scalar and [0xFFFE] a Python
    [int] that is no [int16]: with the value-based promotion of NumPy 1.x,
    [stego_data[i] & 0xFFFE] is computed in a wider integer type and the
    result is cast back to [int16] by the assignment; with the promotion of
    NumPy 2 it raises [OverflowError]. *)
Definition embed_loop (stego_data : ref) (binary_message : bits) : np unit :=
  let message_length := Z.of_nat (length binary_message) in
  for_range message_length (fun i =>
    n ← np_len stego_data;
    if i <? n then
      x ← np_get stego_data i;
      masked ← int16_and_int x 0xFFFE;
      match binary_message !! Z.to_nat i with
      | Some b => np_set stego_data i (Z.lor masked (Z_of_bit b))
      | None => np_raise (MkExn IndexError (lit "string index out of range"))
      end
    else mret tt).

(** [stego_data = audio_data.copy()] followed by the loop: the lines that
    embed the message in the samples. *)
Definition embed_samples (audio_data : ref) (binary_message : bits) : np ref :=
  stego_data ← np_copy audio_data;
  _ ← embed_loop stego_data binary_message;
  mret stego_data.

End WithNumPy.

Section WithLibraries.
Context `{!PyText, !NumPy, !FloatFormat}.

(** The [try] block of [hide_message_in_audio]. *)
Definition hide_message_in_audio_body
    (audio_path encrypted_message output_path : str) : io bool :=
  audio ← wave_open_read audio_path;
  let frames := wv_frames audio in
  let params := wv_params audio in
  audio_data ← io_lift (np_frombuffer_int16 frames);
  binary_message ← io_lift (b ← text_to_binary encrypted_message;
                            mret (b ++ END_MARKER));
  let message_length := Z.of_nat (length binary_message) in
  let max_capacity := Z.of_nat (length audio_data) in
  if message_length >? max_capacity
  then io_raise (MkExn ValueError
                   (too_large_message max_capacity message_length))
  else
    stego_data ← io_lift (np_eval (
      audio_data ← np_new int16 audio_data;
      stego_data ← embed_samples audio_data binary_message;
      a ← np_read stego_data;
      mret (a_data a)));
    _ ← wave_write output_path params (tobytes_int16 stego_data);
    _ ← print ([0x2705] ++ lit " Message hidden in audio! Capacity used: "
               ++ str_of_int message_length ++ lit "/"
               ++ str_of_int max_capacity ++ lit " bits ("
               ++ percent_2f message_length max_capacity ++ lit "%)");
    mret true.

Definition hide_message_in_audio
    (audio_path encrypted_message output_path : str) : io bool :=
  io_try (hide_message_in_audio_body audio_path encrypted_message output_path)
    (fun e =>
       _ ← print ([0x274C] ++ lit " Error hiding message in audio: "
                  ++ exn_msg e);
       mret false).

(** The [try] block of [extract_message_from_audio]. *)
Definition extract_message_from_audio_body (audio_path : str) : io str :=
  audio ← wave_open_read audio_path;
  audio_data ← io_lift (np_frombuffer_int16 (wv_frames audio));
  let binary_bits := map (fun sample => digit_of_bit (Z.land sample 1))
                         audio_data in
  let binary_string := binary_bits in
  let end_marker_pos := str_find binary_string END_MARKER in
  if end_marker_pos =? -1
  then io_raise (MkExn ValueError
    (lit "End marker not found. This may not be a valid stego audio file."))
  else
    let message_binary := slice binary_string 0 end_marker_pos in
    extracted_message ← io_lift (binary_to_text message_binary);
    _ ← print ([0x2705] ++ lit " Message extracted from audio! Length: "
               ++ str_of_int (Z.of_nat (length extracted_message))
               ++ lit " characters");
    mret extracted_message.

Definition extract_message_from_audio (audio_path : str) : io str :=
  io_try (extract_message_from_audio_body audio_path)
    (fun e =>
       _ ← print ([0x274C] ++ lit " Error extracting message from audio: "
                  ++ exn_msg e);
       io_raise e).

(** The dictionary that [get_audio_capacity] returns. *)
Record audio_capacity := MkAudioCapacity {
  ac_duration : str;
  ac_sample_rate : Z;
  ac_channels : Z;
  ac_total_samples : Z;
  ac_max_bits : Z;
  ac_max_characters : Z;
  ac_recommended_message_length : Z }.

Definition get_audio_capacity_body (audio_path : str) : io audio_capacity :=
  audio ← wave_open_read audio_path;
  let params := wv_params audio in
  audio_data ← io_lift (np_frombuffer_int16 (wv_frames audio));
  let total_samples := Z.of_nat (length audio_data) in
  let max_chars := total_samples / 8 in
  if framerate params =? 0
  then io_raise (MkExn Exception (lit "division by zero"))
  else
    mret {| ac_duration := ratio_2f total_samples (framerate params)
                           ++ lit " seconds";
            ac_sample_rate := framerate params;
            ac_channels := nchannels params;
            ac_total_samples := total_samples;
            ac_max_bits := total_samples;
            ac_max_characters := max_chars;
            ac_recommended_message_length := max_chars - 50 |}.

Definition get_audio_capacity (audio_path : str) : io (report audio_capacity) :=
  io_try (c ← get_audio_capacity_body audio_path; mret (Report c))
    (fun e => mret (ErrorReport (exn_msg e))).

End WithLibraries.
End AudioStego.
Import StegoEngine AudioStego.

(* ================================================================== *)
(** * Part IV.  [utils.py]: capacity estimates                          *)
(* ================================================================== *)

(** The size in bytes of a stored file, which the operating system reports
    and the model of the files does not fix. *)
Class FileSizes := { file_size : file -> Z }.

Module Utils.

(** [s.endswith(suffix)]. *)
Definition endswith (s suffix : str) : bool :=
  bool_decide (drop (length s - length suffix) s = suffix).

(** The dictionary of the WAV branch of [estimate_capacity_audio]. *)
Record wav_estimate := MkWavEstimate {
  we_duration : str;
  we_sample_rate : Z;
  we_channels : Z;
  we_total_samples : Z;
  we_usable_bytes : Z;
  we_usable_chars : Z;
  we_bitrate_capacity : str;
  we_efficiency_rating : str }.

(** The dictionary of its other branch. *)
Record mp3_estimate := MkMp3Estimate {
  me_format : str;
  me_file_size : str;
  me_estimated_capacity : str;
  me_note : str;
  me_efficiency_rating : str }.

Inductive audio_estimate :=
  | WavEstimate (e : wav_estimate)
  | Mp3Estimate (e : mp3_estimate)
  | EstimateError (error : str).

(** [f"{n:,}"] for [0 <= n]: the decimal digits in groups of three. *)
Definition thousands (n : Z) : str :=
  let digits := str_of_int n in
  let lead := (length digits `mod` 3)%nat in
  let groups := map (fun k => take 3 (drop (lead + 3 * k) digits))
                    (seq 0 (length digits / 3)) in
  let all := if (lead =? 0)%nat then groups else take lead digits :: groups in
  match all with
  | [] => []
  | g :: gs => g ++ flat_map (fun g => lit "," ++ g) gs
  end.

Section WithLibraries.
Context `{!PyText, !FloatFormat, !FileSizes}.

(** [os.path.getsize(path)]. *)
Definition getsize (path : str) : io Z := fun w =>
  match fs w !! path with
  | Some f => (Ok (file_size f), w)
  | None => (Raise (no_such_file path), w)
  end.

Definition estimate_capacity_audio_body (audio_path : str) : io audio_estimate :=
  if endswith audio_path (lit ".wav") then
    audio ← wave_open_read audio_path;
    let frames := nframes (wv_params audio) in
    let sample_rate := framerate (wv_params audio) in
    let channels := nchannels (wv_params audio) in
    if (sample_rate =? 0) || (frames =? 0)
    then io_raise (MkExn Exception (lit "division by zero"))
    else
      let total_bits := frames * channels in
      let usable_bits := total_bits - 50 in
      let usable_bytes := usable_bits / 8 in
      mret (WavEstimate {|
        we_duration := ratio_2f frames sample_rate ++ lit " seconds";
        we_sample_rate := sample_rate;
        we_channels := channels;
        we_total_samples := frames;
        we_usable_bytes := usable_bytes;
        we_usable_chars := usable_bytes;
        we_bitrate_capacity :=
          ratio_of_ratio_0f usable_bytes frames sample_rate
          ++ lit " bytes/second";
        we_efficiency_rating :=
          if usable_bytes >? 50000 then lit "High"
          else if usable_bytes >? 5000 then lit "Medium" else lit "Low" |})
  else
    file_size ← getsize audio_path;
    let estimated_samples := file_size * 8 in
    let usable_bytes := estimated_samples / 8 in
    mret (Mp3Estimate {|
      me_format := lit "MP3 (estimated)";
      me_file_size := ratio_1f file_size 1024 ++ lit " KB";
      me_estimated_capacity := thousands usable_bytes ++ lit " bytes";
      me_note := lit "Convert to WAV for actual steganography";
      me_efficiency_rating := lit "Estimated" |}).

Definition estimate_capacity_audio (audio_path : str) : io audio_estimate :=
  io_try (estimate_capacity_audio_body audio_path)
    (fun e => mret (EstimateError (lit "Cannot analyze audio: " ++ exn_msg e))).

End WithLibraries.
End Utils.
Import Utils.

(* ================================================================== *)
(** * Part V.  [encryptor.py]                                           *)
(* ================================================================== *)

(** The primitives of hashlib and PyCryptodome that [encryptor.py] calls:
    SHA-256, and AES on one block of sixteen octets under a key of
    thirty-two.  Decrypting a block undoes encrypting it. *)
Definition is_block (b : bytes) : Prop := length b = 16%nat /\ Forall is_byte b.
Definition is_key (k : bytes) : Prop := length k = 32%nat /\ Forall is_byte k.

Class Crypto := {
  sha256 : bytes -> bytes;
  aes_encrypt_block : bytes -> bytes -> bytes;
  aes_decrypt_block : bytes -> bytes -> bytes;
  sha256_digest : forall m, is_key (sha256 m);
  aes_encrypt_block_block : forall k b,
    is_key k -> is_block b -> is_block (aes_encrypt_block k b);
  aes_decrypt_encrypt : forall k b,
    is_key k -> is_block b ->
    aes_decrypt_block k (aes_encrypt_block k b) = b;
}.

Module Base64.

(** The character of a six-bit value, and back. *)
Definition b64_char (i : Z) : Z :=
  if i <? 26 then 65 + i
  else if i <? 52 then 71 + i
  else if i <? 62 then i - 4
  else if i =? 62 then 43
  else 47.

Definition b64_index (ch : Z) : option Z :=
  if (65 <=? ch) && (ch <=? 90) then Some (ch - 65)
  else if (97 <=? ch) && (ch <=? 122) then Some (ch - 71)
  else if (48 <=? ch) && (ch <=? 57) then Some (ch + 4)
  else if ch =? 43 then Some 62
  else if ch =? 47 then Some 63
  else None.

(** The padding character ['=']. *)
Definition PAD : Z := 61.

(** [base64.b64encode]: three octets become four characters; a rest of one
    or two octets is padded. *)
Fixpoint b64encode (data : bytes) : bytes :=
  match data with
  | [] => []
  | [a] => [b64_char (a / 4); b64_char ((a mod 4) * 16); PAD; PAD]
  | [a; b] =>
      [b64_char (a / 4); b64_char ((a mod 4) * 16 + b / 16);
       b64_char ((b mod 16) * 4); PAD]
  | a :: b :: c :: rest =>
      [b64_char (a / 4); b64_char ((a mod 4) * 16 + b / 16);
       b64_char ((b mod 16) * 4 + c / 64); b64_char (c mod 64)]
      ++ b64encode rest
  end.

(** [base64.b64decode] without validation ([binascii.a2b_base64]): the
    characters outside the alphabet are skipped; [quad_pos] counts the
    characters of the current group of four, [leftchar] holds the bits not
    yet written, [pads] the padding characters seen in a row. *)
Fixpoint a2b_base64 (ascii_data : bytes) (quad_pos leftchar pads : Z)
    (bin_data : bytes) : result bytes :=
  match ascii_data with
  | [] =>
      if quad_pos =? 0 then Ok bin_data
      else if quad_pos =? 1 then
        Raise (MkExn BinasciiError (lit
          "Invalid base64-encoded string: number of data characters cannot be 1 more than a multiple of 4"))
      else Raise (MkExn BinasciiError (lit "Incorrect padding"))
  | this_ch :: rest =>
      if this_ch =? PAD then
        if (2 <=? quad_pos) && (4 <=? quad_pos + (pads + 1)) then Ok bin_data
        else a2b_base64 rest quad_pos leftchar
               (if 2 <=? quad_pos then pads + 1 else pads) bin_data
      else
        match b64_index this_ch with
        | None => a2b_base64 rest quad_pos leftchar pads bin_data
        | Some v =>
            if quad_pos =? 0 then a2b_base64 rest 1 v 0 bin_data
            else if quad_pos =? 1 then
              a2b_base64 rest 2 (v mod 16) 0
                (bin_data ++ [(leftchar * 4 + v / 16) mod 256])
            else if quad_pos =? 2 then
              a2b_base64 rest 3 (v mod 4) 0
                (bin_data ++ [(leftchar * 16 + v / 4) mod 256])
            else
              a2b_base64 rest 0 0 0
                (bin_data ++ [(leftchar * 64 + v) mod 256])
        end
  end.

Definition b64decode (s : bytes) : result bytes := a2b_base64 s 0 0 0 [].

End Base64.
Import Base64.

Module Encryptor.

(** [Crypto.Util.Padding.pad(data, 16)]: PKCS#7. *)
Definition pad (data : bytes) : bytes :=
  let padding_len := (16 - length data mod 16)%nat in
  data ++ replicate padding_len (Z.of_nat padding_len).

(** [Crypto.Util.Padding.unpad(padded, 16)]. *)
Definition unpad (padded_data : bytes) : result bytes :=
  let pdata_len := length padded_data in
  if (pdata_len =? 0)%nat then
    Raise (MkExn ValueError (lit "Zero-length input cannot be unpadded"))
  else if negb (pdata_len mod 16 =? 0)%nat then
    Raise (MkExn ValueError (lit "Input data is not padded"))
  else
    let padding_len := Z.to_nat (List.last padded_data 0) in
    if (List.last padded_data 0 <? 1) || (16 `min` pdata_len <? padding_len)%nat
    then Raise (MkExn ValueError (lit "Padding is incorrect."))
    else if negb (bool_decide
                    (drop (pdata_len - padding_len) padded_data
                     = replicate padding_len (Z.of_nat padding_len)))
    then Raise (MkExn ValueError (lit "PKCS#7 padding is incorrect."))
    else Ok (take (pdata_len - padding_len) padded_data).

(** [a ^ b] on octet strings. *)
Definition xor_bytes (a b : bytes) : bytes := zip_with Z.lxor a b.

Section WithCrypto.
Context `{!Crypto}.

(** [derive_key]. *)
Definition derive_key (password : str) : result bytes :=
  b ← str_encode_utf8 password;
  mret (sha256 b).

(** [AES.new(key, AES.MODE_CBC, iv)]: the lengths are checked. *)
Definition AES_new_CBC (key iv : bytes) : result (bytes * bytes) :=
  if negb (bool_decide (length key ∈ [16; 24; 32]%nat)) then
    Raise (MkExn ValueError (lit "Incorrect AES key length"))
  else if negb (length iv =? 16)%nat then
    Raise (MkExn ValueError
             (lit "Incorrect IV length (it must be 16 bytes long)"))
  else Ok (key, iv).

(** Cipher block chaining over [n] blocks. *)
Fixpoint cbc_encrypt_blocks (n : nat) (key prev data : bytes) : bytes :=
  match n with
  | O => []
  | S n' =>
      let c := aes_encrypt_block key (xor_bytes (take 16 data) prev) in
      c ++ cbc_encrypt_blocks n' key c (drop 16 data)
  end.

Fixpoint cbc_decrypt_blocks (n : nat) (key prev data : bytes) : bytes :=
  match n with
  | O => []
  | S n' =>
      let c := take 16 data in
      xor_bytes (aes_decrypt_block key c) prev
      ++ cbc_decrypt_blocks n' key c (drop 16 data)
  end.

(** [cipher.encrypt(data)] and [cipher.decrypt(data)]. *)
Definition cbc_encrypt (cipher : bytes * bytes) (data : bytes) : result bytes :=
  if negb (length data mod 16 =? 0)%nat then
    Raise (MkExn ValueError
      (lit "Data must be padded to 16 byte boundary in CBC mode"))
  else Ok (cbc_encrypt_blocks (length data / 16) cipher.1 cipher.2 data).

Definition cbc_decrypt (cipher : bytes * bytes) (data : bytes) : result bytes :=
  if negb (length data mod 16 =? 0)%nat then
    Raise (MkExn ValueError
      (lit "Data must be padded to 16 byte boundary in CBC mode"))
  else Ok (cbc_decrypt_blocks (length data / 16) cipher.1 cipher.2 data).

(** [encrypt_message]; [iv] is what [get_random_bytes(16)] draws. *)
Definition encrypt_message (message password : str) (iv : bytes) : result str :=
  try_except
    (key ← derive_key password;
     cipher ← AES_new_CBC key iv;
     message_bytes ← str_encode_utf8 message;
     let padded_message := pad message_bytes in
     encrypted_data ← cbc_encrypt cipher padded_message;
     let encrypted_with_iv := iv ++ encrypted_data in
     bytes_decode_utf8 Strict (b64encode encrypted_with_iv))
    is_Exception
    (fun e => Raise (MkExn Exception (lit "Encryption failed: " ++ exn_msg e))).

(** [decrypt_message]. *)
Definition decrypt_message (encrypted_message password : str) : result str :=
  try_except
    (key ← derive_key password;
     encoded ← str_encode_utf8 encrypted_message;
     encrypted_with_iv ← b64decode encoded;
     let iv := take 16 encrypted_with_iv in
     let encrypted_data := drop 16 encrypted_with_iv in
     cipher ← AES_new_CBC key iv;
     decrypted_padded ← cbc_decrypt cipher encrypted_data;
     decrypted_message ← unpad decrypted_padded;
     bytes_decode_utf8 Strict decrypted_message)
    is_Exception
    (fun e => Raise (MkExn Exception (lit "Decryption failed: " ++ exn_msg e))).

End WithCrypto.
End Encryptor.
Import Encryptor.

(* ================================================================== *)
(** * Part VI.  The chains of [stegox_app.py], without the voice gate    *)
(* ================================================================== *)

Module Pipeline.
Section WithLibraries.
Context `{!PyText, !NumPy, !Pillow, !FloatFormat, !Crypto}.

(** Hide: encrypt, then embed; an exception of the encryption propagates. *)
Definition hide_in_image (cover_path message password : str) (iv : bytes)
    (output_path : str) : io bool :=
  encrypted_message ← io_lift (encrypt_message message password iv);
  hide_message_in_image cover_path encrypted_message output_path.

Definition hide_in_audio (cover_path message password : str) (iv : bytes)
    (output_path : str) : io bool :=
  encrypted_message ← io_lift (encrypt_message message password iv);
  hide_message_in_audio cover_path encrypted_message output_path.



End WithLibraries.
End Pipeline.
Import Pipeline.

(* ================================================================== *)
(** * Part VII.  [voice_auth.py]                                        *)
(* ================================================================== *)

(** What the sources take from Unicode: [str.lower], the white space of
    [str.strip], [str.split] and the pattern [\s], and the word characters
    of the pattern [\w].  The space character is white space. *)
Class Unicode := {
  str_lower : str -> str;
  isspace : Z -> bool;
  isword : Z -> bool;
  isspace_space : isspace 32 = true;
}.

(** The dictionary that [model.transcribe] returns.  A key that may be
    missing is an option; a segment is its ["avg_logprob"], when it has
    one.  A Python [float] is modelled by the rational number it stands
    for. *)
Record whisper_result := MkWhisperResult {
  wr_text : option str;
  wr_language : option str;
  wr_segments : option (list (option Q)) }.

(** [whisper.load_model(size)] and [model.transcribe(path, language=...)].
    A loaded model is an object, hence true in a condition. *)
Class Whisper := {
  whisper_model : Type;
  whisper_load_model : str -> io whisper_model;
  model_transcribe : whisper_model -> str -> str -> io whisper_result;
}.

(** [AudioSegment.from_file], [set_channels], [set_frame_rate] and
    [export(name, format=...)] of pydub, and
    [tempfile.NamedTemporaryFile(delete=False, suffix=...)], which returns
    the name of the file it created. *)
Class Pydub := {
  audio_segment : Type;
  AudioSegment_from_file : str -> io audio_segment;
  set_channels : audio_segment -> Z -> result audio_segment;
  set_frame_rate : audio_segment -> Z -> result audio_segment;
  NamedTemporaryFile : str -> io str;
  AudioSegment_export : audio_segment -> str -> str -> io unit;
}.

(** [f"{x:.2f}"] and [f"{x}"] for a float. *)
Class FloatText := { float_2f : Q -> str; float_str : Q -> str }.

Module VoiceAuth.

(** [os.path.exists(path)] and [os.unlink(path)]. *)
Definition os_path_exists (path : str) : io bool := fun w =>
  (Ok (bool_decide (is_Some (fs w !! path))), w).

Definition os_unlink `{!PyText} (path : str) : io unit := fun w =>
  match fs w !! path with
  | None => (Raise (no_such_file path), w)
  | Some _ =>
      if read_only w path
      then (Raise (permission_denied path), w)
      else (Ok tt, MkWorld (delete path (fs w)) (read_only w) (stdout w))
  end.

(** The dictionary that [transcribe_audio] returns; the key ['error'] is
    present only in the one of the [except] clause. *)
Record transcript := MkTranscript {
  tr_text : str;
  tr_normalized_text : str;
  tr_language : str;
  tr_confidence : Q;
  tr_success : bool;
  tr_error : option str }.

(** The two dictionaries that [verify_passphrase] returns: a key that a
    dictionary does not have is [None]. *)
Record verification := MkVerification {
  v_verified : bool;
  v_similarity : option Q;
  v_confidence : Q;
  v_transcribed_text : str;
  v_transcribed_normalized : option str;
  v_expected_text : str;
  v_expected_normalized : option str;
  v_threshold : option Q;
  v_language : option str;
  v_error : option str }.

(** The default of the parameter [similarity_threshold]. *)
Definition default_similarity_threshold : Q := 8 # 10.

(** [sum(confidences) / len(confidences)]. *)
Definition mean (confidences : list Q) : Q :=
  (fold_left Qplus confidences 0 / inject_Z (Z.of_nat (length confidences)))%Q.

Section WithLibraries.
Context `{!PyText, !Unicode, !Whisper, !Pydub, !FloatText}.

(** [s.lstrip()], [s.rstrip()] and [s.strip()]. *)
Fixpoint lstrip (s : str) : str :=
  match s with
  | [] => []
  | c :: s' => if isspace c then lstrip s' else s
  end.

Definition rstrip (s : str) : str := rev (lstrip (rev s)).

Definition strip (s : str) : str := lstrip (rstrip s).

(** [re.sub(r'[^\w\s]', '', text)]. *)
Definition sub_not_word_not_space (text : str) : str :=
  List.filter (fun c => isword c || isspace c) text.

(** [re.sub(r'\s+', ' ', text)]: [in_run] says that the character before
    was white space. *)
Fixpoint sub_spaces_from (in_run : bool) (text : str) : str :=
  match text with
  | [] => []
  | c :: rest =>
      if isspace c
      then if in_run then sub_spaces_from true rest
           else 32 :: sub_spaces_from true rest
      else c :: sub_spaces_from false rest
  end.

Definition sub_spaces (text : str) : str := sub_spaces_from false text.

(** [s.split()]: the maximal runs of characters that are not white space;
    [word] holds the characters of the current run, last first. *)
Fixpoint split_from (s : str) (word : str) : list str :=
  match s with
  | [] => match word with [] => [] | _ => [rev word] end
  | c :: rest =>
      if isspace c
      then match word with
           | [] => split_from rest []
           | _ => rev word :: split_from rest []
           end
      else split_from rest (c :: word)
  end.

Definition split (s : str) : list str := split_from s [].

(** The object: [self.model_size] and [self.model]. *)
Record VoiceAuthenticator := MkVoiceAuthenticator {
  model_size : str;
  model : option whisper_model }.

(** [_load_model]: returns the object with its [model] set. *)
Definition _load_model (self : VoiceAuthenticator) : io VoiceAuthenticator :=
  io_try
    (_ ← print ([0x1F504] ++ lit " Loading Whisper model ("
                ++ model_size self ++ lit ")...");
     m ← whisper_load_model (model_size self);
     _ ← print ([0x2705] ++ lit " Whisper model loaded successfully!");
     mret (MkVoiceAuthenticator (model_size self) (Some m)))
    (fun e =>
       _ ← print ([0x274C] ++ lit " Failed to load Whisper model: " ++ exn_msg e);
       io_raise e).

(** [VoiceAuthenticator(model_size)]. *)
Definition __init__ (model_size : str) : io VoiceAuthenticator :=
  _load_model (MkVoiceAuthenticator model_size None).

(** [normalize_text]. *)
Definition normalize_text (text : str) : str :=
  let text := strip (str_lower text) in
  let text := sub_not_word_not_space text in
  let text := sub_spaces text in
  strip text.

(** [convert_audio_to_wav]. *)
Definition convert_audio_to_wav (audio_path : str) : io str :=
  io_try
    (audio ← AudioSegment_from_file audio_path;
     audio ← io_lift (a ← set_channels audio 1; set_frame_rate a 16000);
     temp_wav ← NamedTemporaryFile (lit ".wav");
     _ ← AudioSegment_export audio temp_wav (lit "wav");
     mret temp_wav)
    (fun e => io_raise (MkExn Exception
                          (lit "Audio conversion failed: " ++ exn_msg e))).

(** The [try] block of [transcribe_audio] from the line that prints
    "Transcribing audio" on. *)
Definition transcribe_path (m : whisper_model) (process_path : str)
    : io transcript :=
  _ ← print ([0x1F3A4] ++ lit " Transcribing audio...");
  res ← model_transcribe m process_path (lit "en");
  text ← io_lift (match wr_text res with
                  | Some t => Ok t
                  | None => Raise (MkExn KeyError (lit "'text'"))
                  end);
  let transcribed_text := strip text in
  let detected_language := default (lit "unknown") (wr_language res) in
  let avg_confidence :=
    match wr_segments res with
    | Some ((_ :: _) as segments) =>
        let confidences := map (default 0%Q) segments in
        match confidences with [] => 0%Q | _ => mean confidences end
    | _ => 0%Q
    end in
  _ ← print ([0x2705] ++ lit " Transcription completed: '"
              ++ transcribed_text ++ lit "'");
  mret (MkTranscript transcribed_text (normalize_text transcribed_text)
          detected_language avg_confidence true None).

(** [transcribe_audio]: the guard, then [try], [except Exception] and
    [finally]; [temp_wav_path] is the local variable of that name. *)
Definition transcribe_audio (self : VoiceAuthenticator) (audio_path : str)
    : io transcript :=
  match model self with
  | None => io_raise (MkExn Exception (lit "Whisper model not loaded"))
  | Some m => fun w =>
      let '(temp_wav_path, (outcome, w)) :=
        if negb (endswith (str_lower audio_path) (lit ".wav")) then
          match convert_audio_to_wav audio_path w with
          | (Ok temp, w) => (Some temp, transcribe_path m temp w)
          | (Raise e, w) => (None, (Raise e, w))
          end
        else (None, transcribe_path m audio_path w) in
      let '(returned, w) :=
        match outcome with
        | Ok t => (Ok t, w)
        | Raise e =>
            (_ ← print ([0x274C] ++ lit " Transcription failed: " ++ exn_msg e);
             mret (MkTranscript [] [] (lit "unknown") 0%Q false
                     (Some (exn_msg e)))) w
        end in
      let '(_, w) :=
        match temp_wav_path with
        | Some p =>
            (present ← os_path_exists p;
             if negb (bool_decide (p = [])) && present
             then io_try (os_unlink p) (fun _ => mret tt)
             else mret tt) w
        | None => (Ok tt, w)
        end in
      (returned, w)
  end.

(** [_calculate_similarity]. *)
Definition _calculate_similarity (text1 text2 : str) : Q :=
  if bool_decide (text1 = []) || bool_decide (text2 = []) then 0%Q
  else if bool_decide (text1 = text2) then 1%Q
  else
    let words1 : gset str := list_to_set (split text1) in
    let words2 : gset str := list_to_set (split text2) in
    if bool_decide (words1 = ∅) || bool_decide (words2 = ∅) then 0%Q
    else
      let intersection := size (words1 ∩ words2) in
      let union := size (words1 ∪ words2) in
      if (0 <? union)%nat
      then (inject_Z (Z.of_nat intersection) / inject_Z (Z.of_nat union))%Q
      else 0%Q.

(** [verify_passphrase]. *)
Definition verify_passphrase (self : VoiceAuthenticator)
    (audio_path expected_passphrase : str) (similarity_threshold : Q)
    : io verification :=
  transcription_result ← transcribe_audio self audio_path;
  if negb (tr_success transcription_result) then
    mret (MkVerification false None 0%Q [] None expected_passphrase None None
            None
            (Some (default (lit "Transcription failed")
                     (tr_error transcription_result))))
  else
    let transcribed_normalized := tr_normalized_text transcription_result in
    let expected_normalized := normalize_text expected_passphrase in
    let similarity :=
      _calculate_similarity transcribed_normalized expected_normalized in
    let verified := Qle_bool similarity_threshold similarity in
    _ ← (if verified
         then print ([0x2705] ++ lit " Voice authentication successful! Similarity: "
                     ++ float_2f similarity)
         else print ([0x274C] ++ lit " Voice authentication failed. Similarity: "
                     ++ float_2f similarity ++ lit " (threshold: "
                     ++ float_str similarity_threshold ++ lit ")"));
    mret (MkVerification verified (Some similarity)
            (tr_confidence transcription_result)
            (tr_text transcription_result)
            (Some transcribed_normalized)
            expected_passphrase
            (Some expected_normalized)
            (Some similarity_threshold)
            (Some (tr_language transcription_result))
            None).

End WithLibraries.
End VoiceAuth.
Import VoiceAuth.

(* ================================================================== *)
(** * Part VII'.  The other functions of [encryptor.py] and [utils.py]   *)
(* ================================================================== *)

(** [str.isupper], [str.islower] and [str.isdigit] on one character. *)
Class UnicodeCase := {
  isupper : Z -> bool;
  islower : Z -> bool;
  isdigit : Z -> bool;
}.

(** [f"{x:.0f}"] for a float. *)
Class FloatRound := { float_0f : Q -> str }.

Module Hex.

(** The lower-case hexadecimal digit of a value below sixteen. *)
Definition hex_digit (d : Z) : Z := if d <? 10 then 48 + d else 87 + d.

(** [b.hex()]: two digits for every octet. *)
Definition bytes_hex (b : bytes) : str :=
  flat_map (fun x => [hex_digit (x / 16); hex_digit (x mod 16)]) b.

(** The slice [s[:j]] for any [j]: a negative [j] counts from the end. *)
Definition slice_to {A} (s : list A) (j : Z) : list A :=
  if j <? 0 then take (Z.to_nat (Z.of_nat (length s) + j)) s
  else take (Z.to_nat j) s.

End Hex.
Import Hex.

Module EncryptorHelpers.
Section WithLibraries.
Context `{!Unicode, !Crypto}.

(** [hashlib.sha256(data).hexdigest()]. *)
Definition sha256_hexdigest (data : bytes) : str := bytes_hex (sha256 data).

(** [generate_random_key]; [urandom] is what [os.urandom(16)] returns. *)
Definition generate_random_key (urandom : bytes) : str :=
  slice_to (bytes_hex urandom) 16.

(** The dictionary [extensions] of [semantic_filename]. *)
Definition extensions : gmap str str :=
  {[ lit "image" := lit ".png";
     lit "audio" := lit ".wav";
     lit "video" := lit ".mp4" ]}.

(** [semantic_filename]. *)
Definition semantic_filename (message media_type : str) : result str :=
  utf8_bytes ← str_encode_utf8 message;
  let hash_value := sha256_hexdigest utf8_bytes in
  let ext := default (lit ".png") (extensions !! str_lower media_type) in
  mret (lit "stego_" ++ slice_to hash_value 10 ++ ext).

(** [get_message_preview]. *)
Definition get_message_preview (message : str) (max_length : Z) : str :=
  if Z.of_nat (length message) <=? max_length then message
  else slice_to message max_length ++ lit "...".

End WithLibraries.
End EncryptorHelpers.
Import EncryptorHelpers.

Module UtilsMetrics.

(** The dictionary that [estimate_capacity_image] returns; its
    ["usage_examples"] is a dictionary from ["100_chars"] and the like to a
    percentage. *)
Record image_estimate := MkImageEstimate {
  ie_dimensions : str;
  ie_channels : Z;
  ie_total_pixels : Z;
  ie_total_bits : Z;
  ie_usable_bytes : Z;
  ie_usable_chars : Z;
  ie_usage_examples : gmap str str;
  ie_efficiency_rating : str }.

(** The dictionary of [estimate_capacity_video]. *)
Record video_estimate := MkVideoEstimate {
  ve_format : str;
  ve_file_size : str;
  ve_estimated_frames : Z;
  ve_estimated_capacity : str;
  ve_note : str;
  ve_efficiency_rating : str }.

(** The dictionary of [verify_message_integrity]. *)
Record integrity := MkIntegrity {
  in_is_valid : bool;
  in_original_hash : str;
  in_extracted_hash : str;
  in_hash_match : bool;
  in_integrity_score : Z;
  in_status : str }.

(** The dictionary of [get_security_metrics]. *)
Record security_metrics := MkSecurityMetrics {
  sm_message_entropy : str;
  sm_password_strength : str;
  sm_security_score : str;
  sm_security_rating : str;
  sm_recommendations : list str }.

(** [get_security_recommendations]. *)
Definition get_security_recommendations (password_strength : Z)
    (message_entropy : Q) : list str :=
  let recommendations := [] in
  let recommendations :=
    if password_strength <? 75
    then recommendations ++
         [[0x1F511] ++ lit " Use a stronger password with mixed case, numbers, and symbols"]
    else recommendations in
  let recommendations :=
    if negb (Qle_bool (3 # 10) message_entropy)
    then recommendations ++
         [[0x1F4DD] ++ lit " Consider using a more varied message with different characters"]
    else recommendations in
  match recommendations with
  | [] => [[0x2705] ++ lit " Excellent security configuration!"]
  | _ => recommendations
  end.

(** The four tests of [get_security_metrics] on the password, twenty-five
    points each. *)
Definition password_strength_of `{!UnicodeCase} (password : str) : Z :=
  let password_strength := 0 in
  let password_strength :=
    if 8 <=? Z.of_nat (length password)
    then password_strength + 25 else password_strength in
  let password_strength :=
    if existsb isupper password
    then password_strength + 25 else password_strength in
  let password_strength :=
    if existsb islower password
    then password_strength + 25 else password_strength in
  let password_strength :=
    if existsb isdigit password
    then password_strength + 25 else password_strength in
  password_strength.

(** [len(set(message.lower())) / len(message) if message else 0]. *)
Definition message_entropy_of `{!Unicode} (message : str) : Q :=
  match message with
  | [] => 0%Q
  | _ =>
      let distinct : gset Z := list_to_set (str_lower message) in
      (inject_Z (Z.of_nat (size distinct))
       / inject_Z (Z.of_nat (length message)))%Q
  end.

Section WithLibraries.
Context `{!PyText, !FloatFormat, !FileSizes, !Crypto, !Unicode, !UnicodeCase,
          !FloatText, !FloatRound}.

(** One round of the loop of [estimate_capacity_image]: the division is
    reached only for a length that fits. *)
Definition usage_example (total_bits usable_chars : Z)
    (usage_examples : gmap str str) (length : Z) : result (gmap str str) :=
  if length <=? usable_chars then
    if total_bits =? 0
    then Raise (MkExn Exception (lit "division by zero"))
    else Ok (<[ str_of_int length ++ lit "_chars" :=
                percent_2f (length * 8) total_bits ++ lit "%" ]>
             usage_examples)
  else Ok usage_examples.

(** [estimate_capacity_image]; [image.size] is the width and the height,
    [image.getbands()] the bands of the mode. *)
Definition estimate_capacity_image (image : pil_image) : result image_estimate :=
  let width := im_width image in
  let height := im_height image in
  let channels := getbands (im_mode image) in
  let total_bits := width * height * channels in
  let usable_bits := total_bits - 50 in
  let usable_bytes := usable_bits / 8 in
  let usable_chars := usable_bytes in
  usage_examples ←
    foldl (fun acc length =>
             usage_examples ← acc;
             usage_example total_bits usable_chars usage_examples length)
          (Ok ∅) [100; 500; 1000; 5000];
  mret {| ie_dimensions := str_of_int width ++ lit "x" ++ str_of_int height;
          ie_channels := channels;
          ie_total_pixels := width * height;
          ie_total_bits := total_bits;
          ie_usable_bytes := usable_bytes;
          ie_usable_chars := usable_chars;
          ie_usage_examples := usage_examples;
          ie_efficiency_rating :=
            if usable_chars >? 10000 then lit "High"
            else if usable_chars >? 1000 then lit "Medium" else lit "Low" |}.

(** [estimate_capacity_video]; dividing twice by 1024 is dividing by
    1048576. *)
Definition estimate_capacity_video (video_path : str)
    : io (report video_estimate) :=
  io_try
    (file_size ← getsize video_path;
     let estimated_frames := file_size / 10000 in
     let estimated_capacity := estimated_frames * 1000 in
     mret (Report {|
       ve_format := lit "MP4/AVI (simulated)";
       ve_file_size := ratio_1f file_size 1048576 ++ lit " MB";
       ve_estimated_frames := estimated_frames;
       ve_estimated_capacity := thousands estimated_capacity ++ lit " bytes";
       ve_note := lit "Video steganography uses frame-based approach";
       ve_efficiency_rating := lit "High (Simulated)" |}))
    (fun e => mret (ErrorReport (lit "Cannot analyze video: " ++ exn_msg e))).

(** [calculate_message_hash]. *)
Definition calculate_message_hash (message : str) : result str :=
  utf8_bytes ← str_encode_utf8 message;
  mret (sha256_hexdigest utf8_bytes).

(** [verify_message_integrity]. *)
Definition verify_message_integrity (original extracted : str)
    : result integrity :=
  original_hash ← calculate_message_hash original;
  extracted_hash ← calculate_message_hash extracted;
  let is_valid := bool_decide (original_hash = extracted_hash) in
  mret {| in_is_valid := is_valid;
          in_original_hash := original_hash;
          in_extracted_hash := extracted_hash;
          in_hash_match := is_valid;
          in_integrity_score := if is_valid then 100 else 0;
          in_status := if is_valid then [0x2705] ++ lit " VERIFIED"
                       else [0x274C] ++ lit " CORRUPTED" |}.

(** [get_security_metrics]. *)
Definition get_security_metrics (message password : str) : security_metrics :=
  let message_entropy := message_entropy_of message in
  let password_strength := password_strength_of password in
  let security_score :=
    ((inject_Z password_strength + message_entropy * 100) / 2)%Q in
  let security_rating :=
    if Qle_bool 80 security_score then [0x1F6E1; 0xFE0F] ++ lit " EXCELLENT"
    else if Qle_bool 60 security_score then [0x1F512] ++ lit " GOOD"
    else if Qle_bool 40 security_score then [0x26A0; 0xFE0F] ++ lit " MODERATE"
    else [0x1F6A8] ++ lit " WEAK" in
  {| sm_message_entropy := float_2f message_entropy;
     sm_password_strength := str_of_int password_strength ++ lit "%";
     sm_security_score := float_0f security_score ++ lit "%";
     sm_security_rating := security_rating;
     sm_recommendations :=
       get_security_recommendations password_strength message_entropy |}.

(** [format_bytes]. *)
Definition format_bytes (bytes_val : Z) : str :=
  if bytes_val <? 1024 then str_of_int bytes_val ++ lit " bytes"
  else if bytes_val <? 1024 * 1024
  then ratio_1f bytes_val 1024 ++ lit " KB"
  else ratio_1f bytes_val 1048576 ++ lit " MB".

End WithLibraries.
End UtilsMetrics.
Import UtilsMetrics.

(* ================================================================== *)
(** * Part VIII.  Instances of the external libraries                   *)
(* ================================================================== *)

(** Concrete libraries to run the embedding on: the conversion of a
    greyscale image to RGB, decimal formatting of exact quotients, a toy
    cipher, and scripted stand-ins for Whisper and pydub. *)
Module Instances.

(** [img.convert('RGB')] for an image of mode ['L']: the grey value is
    repeated in the three bands.  Other conversions are not provided. *)
Definition convert_L_to_RGB (im : pil_image) (mode : str) : result pil_image :=
  if decide (im_mode im = lit "L" /\ mode = lit "RGB")
  then Ok (MkImage (lit "RGB") (im_width im) (im_height im)
             (flat_map (fun v => [v; v; v]) (im_px im)))
  else Raise (MkExn ValueError (lit "conversion not supported")).


(** [a / b] to [d] decimals, rounded half up, for [0 <= a] and [0 < b]. *)
Definition decimal_quotient (d : nat) (a b : Z) : str :=
  let scaled := (2 * a * 10 ^ Z.of_nat d + b) / (2 * b) in
  let int_part := scaled / 10 ^ Z.of_nat d in
  let frac := scaled mod 10 ^ Z.of_nat d in
  if (d =? 0)%nat then str_of_int int_part
  else str_of_int int_part ++ lit "."
       ++ drop 1 (str_of_int (10 ^ Z.of_nat d + frac)).

Definition exact_format : FloatFormat :=
  {| percent_2f a b := decimal_quotient 2 (100 * a) b;
     ratio_2f a b := decimal_quotient 2 a b;
     ratio_1f a b := decimal_quotient 1 a b;
     ratio_of_ratio_0f a b c := decimal_quotient 0 (a * c) b |}.

(** [repr] as it is for a path of printable ASCII characters other than
    the quotes and the backslash: the path between single quotes; and one
    text for every [struct.error]. *)
Definition plain_text : PyText :=
  {| repr s := lit "'" ++ s ++ lit "'";
     struct_error_text _ := lit "argument out of range" |}.

(** The two promotions. *)
Definition numpy_1 : NumPy := {| numpy_promotion := ValueBased |}.

(** Files whose size is not modelled count as empty. *)
Definition raw_sizes : FileSizes :=
  {| file_size f := match f with
                    | OtherFile content => Z.of_nat (length content)
                    | _ => 0
                    end |}.


(** A stand-in for the primitives, to run the pipeline on: a digest of
    thirty-two octets for SHA-256 and, for AES, the block shifted octet by
    octet by the first sixteen octets of the key. *)
Definition toy_digest (m : bytes) : bytes :=
  let h := fold_left (fun acc b => (acc * 33 + b) mod 256) m 7 in
  map (fun i => (h + 31 * Z.of_nat i) mod 256) (seq 0 32).

Definition shift_block (key block : bytes) : bytes :=
  zip_with (fun x k => (x + k) mod 256) block (take 16 key).

Definition unshift_block (key block : bytes) : bytes :=
  zip_with (fun x k => (x - k) mod 256) block (take 16 key).



(** Unicode on the ASCII range: the letters A to Z have a lower case, the
    white space is the one of [str.isspace] below 128, and the word
    characters are the letters, the digits and the underscore. *)
Definition ascii_lower (s : str) : str :=
  map (fun c => if (65 <=? c) && (c <=? 90) then c + 32 else c) s.

Definition ascii_isspace (c : Z) : bool :=
  (9 <=? c) && (c <=? 13) || (28 <=? c) && (c <=? 32).

Definition ascii_isword (c : Z) : bool :=
  (48 <=? c) && (c <=? 57) || (65 <=? c) && (c <=? 90)
  || (97 <=? c) && (c <=? 122) || (c =? 95).

Definition ascii_unicode : Unicode :=
  {| str_lower := ascii_lower;
     isspace := ascii_isspace;
     isword := ascii_isword;
     isspace_space := eq_refl |}.

(** A model that hears the same five words in every wave file, in two
    segments, and fails on anything else. *)
Definition heard : whisper_result :=
  MkWhisperResult (Some (lit " Open, Sesame! Let me in.")) (Some (lit "en"))
    (Some [Some (-1 # 4)%Q; Some (-3 # 4)%Q]).

Definition whisper_script : Whisper :=
  {| whisper_model := unit;
     whisper_load_model _ := mret tt;
     model_transcribe _ path _ := fun w =>
       match fs w !! path with
       | Some (WaveFile _) => (Ok heard, w)
       | _ => (Raise (MkExn Exception (lit "Failed to load audio")), w)
       end |}.

(** A pydub that reads wave files only and writes its export to one
    temporary file. *)
Definition pydub_script : Pydub :=
  {| audio_segment := wave_file;
     AudioSegment_from_file := @wave_open_read plain_text;
     set_channels a _ := Ok a;
     set_frame_rate a _ := Ok a;
     NamedTemporaryFile suffix :=
       (_ ← @write_file plain_text (lit "/tmp/tmp0" ++ suffix) (OtherFile []);
        mret (lit "/tmp/tmp0" ++ suffix));
     AudioSegment_export a name _ := @write_file plain_text name (WaveFile a) |}.

Definition float_text_exact : FloatText :=
  {| float_2f q := decimal_quotient 2 (Qnum q) (Z.pos (Qden q));
     float_str q := decimal_quotient 1 (Qnum q) (Z.pos (Qden q)) |}.

End Instances.
Import Instances.

(* ================================================================== *)
(** * Part IX.  The vocabulary of the properties                        *)
(* ================================================================== *)

Module Spec.

(** [y] is [x] with its least significant bit replaced by [b]: bit 0 of [y]
    is [b] and every other bit of [y] is the one of [x]. *)
Definition lsb_replaced (x : Z) (b : bool) (y : Z) : Prop :=
  Z.testbit y 0 = b /\ forall k, 0 < k -> Z.testbit y k = Z.testbit x k.

(** The frame of an embedding: [R] has the length of [S]; where the message
    has a bit, the element of [R] is the one of [S] with its least
    significant bit replaced by it; beyond the message, [R] is [S]. *)
Definition embedding_frame (S : list Z) (message : bits) (R : list Z)
    : Prop :=
  length R = length S /\
  (forall i x b, S !! i = Some x -> message !! i = Some b ->
     exists y, R !! i = Some y /\ lsb_replaced x b y) /\
  (forall j, (length message <= j)%nat -> R !! j = S !! j).


(** The string of the least significant bits of a sequence of samples. *)
Definition lsbs (samples : list Z) : bits :=
  map (fun x => Z.testbit x 0) samples.

(** [sub] occurs in [s] at index [i]. *)
Definition occurs_at (sub s : bits) (i : nat) : Prop :=
  exists pre post, s = pre ++ sub ++ post /\ length pre = i.

(** [i] is the index of the first occurrence of [sub] in [s]. *)
Definition first_occurrence (sub s : bits) (i : nat) : Prop :=
  occurs_at sub s i /\ forall j, (j < i)%nat -> ~ occurs_at sub s j.

Definition no_occurrence (sub s : bits) : Prop :=
  forall i, ~ occurs_at sub s i.

(** The file at [path] opens as the image [im]: it holds a well-formed
    image, which is [im] itself when its mode is RGB or RGBA and its
    conversion to RGB otherwise. *)
Definition image_carrier `{!Pillow} (w : world) (path : str)
    (im : pil_image) : Prop :=
  exists im0, fs w !! path = Some (ImageFile im0) /\ wf_image im0 /\
    if decide (im_mode im0 ∈ [lit "RGB"; lit "RGBA"])
    then im = im0
    else Image_convert im0 (lit "RGB") = Ok im.

(** The parameters that [setparams] accepts. *)
Definition valid_wave_params (p : wave_params) : Prop :=
  1 <= nchannels p /\ 1 <= sampwidth p <= 4 /\ 0 < framerate p.

(** The writer of [wave] accepts [params] for [n] octets of data:
    [setparams] accepts them and the header can be packed. *)
Definition writer_accepts (params : wave_params) (n : Z) : Prop :=
  valid_wave_params params /\ wave_header_ok params n = true.

(** The header of a wave file of the parameters [params] can be packed
    for the sixteen-bit [samples], two octets each. *)
Definition header_fits (params : wave_params) (samples : list Z) : Prop :=
  wave_header_ok params (2 * Z.of_nat (length samples)) = true.

(** The file at [path] is a PCM wave file with the 16-bit [samples]. *)
Definition audio_carrier (w : world) (path : str) (params : wave_params)
    (samples : list Z) : Prop :=
  exists wv, fs w !! path = Some (WaveFile wv) /\ wv_params wv = params /\
    valid_wave_params params /\
    np_frombuffer_int16 (wv_frames wv) = Ok samples.

(** The digits of a message as they are embedded: eight per UTF-8 octet,
    then the end marker. *)
Definition framed (utf8_bytes : bytes) : bits :=
  concat (map format_08b utf8_bytes) ++ END_MARKER.

(** Their number: eight per octet and sixteen for the marker. *)
Definition framed_length (utf8_bytes : bytes) : Z :=
  8 * Z.of_nat (length utf8_bytes) + 16.

(** The world after the line [line] has been printed. *)
Definition printed (w : world) (line : str) : world :=
  MkWorld (fs w) (read_only w) (stdout w ++ [line]).

(** The world after [f] has been stored at [path]. *)
Definition stored (w : world) (path : str) (f : file) : world :=
  MkWorld (<[path := f]> (fs w)) (read_only w) (stdout w).


(** The set of the words of a text, and the Jaccard index of two sets:
    the size of the intersection by the size of the union. *)
Definition tokens `{!Unicode} (text : str) : gset str :=
  list_to_set (split text).

Definition jaccard (A B : gset str) : Q :=
  (inject_Z (Z.of_nat (size (A ∩ B))) / inject_Z (Z.of_nat (size (A ∪ B))))%Q.

(** The transcript of a failure with the reason [reason]. *)
Definition failure_transcript (reason : str) : transcript :=
  MkTranscript [] [] (lit "unknown") 0%Q false (Some reason).

(** The mean of the log-probabilities of the segments of a result, a
    segment without one counting as 0; 0 without segments. *)
Definition mean_confidence (res : whisper_result) : Q :=
  match wr_segments res with
  | Some (seg :: segs) => mean (map (default 0%Q) (seg :: segs))
  | _ => 0%Q
  end.

(** The transcript of the result [res] whose text is [text]. *)
Definition success_transcript `{!Unicode} (res : whisper_result) (text : str)
    : transcript :=
  MkTranscript (strip text) (normalize_text (strip text))
    (default (lit "unknown") (wr_language res)) (mean_confidence res) true None.

Section Transcription.
Context `{!PyText, !Unicode, !Whisper, !Pydub}.

(** The model is called on [process_path] in the world [w_p]: on the path
    given when it ends in [.wav], on the converted file otherwise, after
    the line that announces the transcription. *)
Definition model_called (audio_path : str) (w : world) (process_path : str)
    (w_p : world) : Prop :=
  let line := [0x1F3A4] ++ lit " Transcribing audio..." in
  (endswith (str_lower audio_path) (lit ".wav") = true /\
   process_path = audio_path /\ w_p = printed w line) \/
  (endswith (str_lower audio_path) (lit ".wav") = false /\
   exists w_c, convert_audio_to_wav audio_path w = (Ok process_path, w_c) /\
     w_p = printed w_c line).

(** What [transcribe_audio] returns on [audio_path] in [w], by what
    happened: the conversion raised, the model raised, its result had no
    text, or it had one. *)
Inductive transcription_outcome (m : whisper_model) (audio_path : str)
    (w : world) : transcript -> Prop :=
  | conversion_error e w_e :
      endswith (str_lower audio_path) (lit ".wav") = false ->
      convert_audio_to_wav audio_path w = (Raise e, w_e) ->
      transcription_outcome m audio_path w (failure_transcript (exn_msg e))
  | model_error process_path w_p e w_e :
      model_called audio_path w process_path w_p ->
      model_transcribe m process_path (lit "en") w_p = (Raise e, w_e) ->
      transcription_outcome m audio_path w (failure_transcript (exn_msg e))
  | text_missing process_path w_p res w_r :
      model_called audio_path w process_path w_p ->
      model_transcribe m process_path (lit "en") w_p = (Ok res, w_r) ->
      wr_text res = None ->
      transcription_outcome m audio_path w (failure_transcript (lit "'text'"))
  | transcribed process_path w_p res w_r text :
      model_called audio_path w process_path w_p ->
      model_transcribe m process_path (lit "en") w_p = (Ok res, w_r) ->
      wr_text res = Some text ->
      transcription_outcome m audio_path w (success_transcript res text).

End Transcription.


(** The lines that the public hide functions print for an exception. *)
Definition image_error_line (e : exn) : str :=
  [0x274C] ++ lit " Error hiding message: " ++ exn_msg e.

Definition audio_error_line (e : exn) : str :=
  [0x274C] ++ lit " Error hiding message in audio: " ++ exn_msg e.

(** The steps that only read leave the world as it is. *)
Definition reads_only {A} (m : io A) : Prop :=
  forall w r w', m w = (r, w') -> w' = w.

(** [A] is [S] with the least significant bit of each of its first [k]
    elements replaced by the bit of the message at the same index, as far
    as the message goes. *)
Definition embedded (S : list Z) (message : bits) (k : nat) (A : list Z)
    : Prop :=
  length A = length S /\
  (forall i x b, (i < k)%nat -> S !! i = Some x -> message !! i = Some b ->
     A !! i = Some (2 * (x / 2) + Z_of_bit b)) /\
  (forall i, (k <= i)%nat -> A !! i = S !! i).

(** The octets that [encrypt_message] encodes in base64: the IV, then the
    blocks. *)
Definition encrypted_with_iv `{!Crypto} (message_bytes password_bytes iv : bytes)
    : bytes :=
  iv ++ cbc_encrypt_blocks (length (pad message_bytes) / 16)
          (sha256 password_bytes) iv (pad message_bytes).

(** The six-bit values, and the ASCII characters. *)
Definition is_sextet (i : Z) : Prop := 0 <= i < 64.

Definition is_ascii (c : Z) : Prop := 0 <= c < 128.

End Spec.
Import Spec.

(* ================================================================== *)
(** * Part X.  Finite checks and sample data                            *)
(* ================================================================== *)

Module Samples.

(** The integers [start, start + 1, ..., start + n - 1], counted up. *)
Fixpoint count_up (start : Z) (n : nat) : list Z :=
  match n with
  | O => []
  | S k => start :: count_up (start + 1) k
  end.

(** The checks that are run on every octet, and on every 16-bit value:
    what the embedding assigns is the element with bit 0 replaced; the
    exclusive or of two octets is an octet. *)
Definition pixel_embed_check (x : Z) : bool :=
  forallb (fun b => cast uint8 (Z.lor (Z.land x 254) (Z_of_bit b))
                    =? 2 * (x / 2) + Z_of_bit b) [true; false].

Definition sample_embed_check (x : Z) : bool :=
  forallb (fun b => Z.lor (Z.land x 0xFFFE) (Z_of_bit b)
                    =? 2 * (x / 2) + Z_of_bit b) [true; false].

Definition lxor_check (x : Z) : bool :=
  forallb (fun y => (0 <=? Z.lxor x y) && (Z.lxor x y <? 256))
          (count_up 0 (Z.to_nat 256)).

(** An RGB image of eight pixels: its low bits spell the letter A and the
    end marker. *)
Definition stego_A : pil_image :=
  MkImage (lit "RGB") 8 1
    (map (fun b => 254 + Z_of_bit b) (format_08b 65 ++ END_MARKER)).

Definition world_A : world :=
  MkWorld {[ lit "a.png" := ImageFile stego_A ]} (fun _ => false) [].

(** A cover of 100 x 100 RGB pixels: 30000 embeddable bits. *)
Definition cover_100 : pil_image :=
  MkImage (lit "RGB") 100 100 (replicate (Z.to_nat 30000) 0).

Definition world_cover : world :=
  MkWorld {[ lit "cover.png" := ImageFile cover_100 ]} (fun _ => false) [].


(** An authenticator with the scripted model, and a world with one wave
    file. *)
Definition self_base : @VoiceAuthenticator whisper_script :=
  @MkVoiceAuthenticator whisper_script (lit "base") (Some tt).

Definition world_voice : world :=
  MkWorld {[ lit "voice.wav" := WaveFile (MkWave (MkParams 1 2 16000 0) []) ]}
    (fun _ => false) [].

End Samples.
Import Samples.

(* ================================================================== *)
(** * Part XI.  More vocabulary                                         *)
(* ================================================================== *)

Module MoreSpec.

(** The number of characters of the encrypted text of a plaintext of [n]
    octets: the base64 of sixteen octets of IV and the padded blocks. *)
Definition encrypted_chars (n : nat) : nat := 4 * ((34 + 16 * (n / 16)) / 3).

(** A lower-case hexadecimal digit. *)
Definition is_hex_char (c : Z) : Prop := 48 <= c <= 57 \/ 97 <= c <= 102.

(** [' '.join(words)]. *)
Definition join_words (words : list (list Z)) : list Z :=
  match words with
  | [] => []
  | word :: rest => word ++ flat_map (fun x => 32 :: x) rest
  end.

(** A word: not empty, without white space, of characters in [P]. *)
Definition word_of `{!Unicode} (P : Z -> Prop) (word : list Z) : Prop :=
  word <> [] /\ Forall (fun c => isspace c = false /\ P c) word.

End MoreSpec.
Import MoreSpec.

(* ================================================================== *)
(** * Part XII.  More instances and sample data                         *)
(* ================================================================== *)

Module MoreInstances.

(** The cases and the digits of ASCII. *)
Definition ascii_case : UnicodeCase :=
  {| isupper c := (65 <=? c) && (c <=? 90);
     islower c := (97 <=? c) && (c <=? 122);
     isdigit c := (48 <=? c) && (c <=? 57) |}.

Definition float_round_exact : FloatRound :=
  {| float_0f q := decimal_quotient 0 (Qnum q) (Z.pos (Qden q)) |}.

(** An image of 10 x 10 pixels in the mode CMYK, of four bands. *)
Definition cmyk_100 : pil_image :=
  MkImage (lit "CMYK") 10 10 (replicate (Z.to_nat 400) 0).

Definition world_cmyk : world :=
  MkWorld {[ lit "cmyk.tif" := ImageFile cmyk_100 ]} (fun _ => false) [].

(** A stand-in for the conversion of a CMYK image to RGB: the first three
    bands of every pixel are kept. *)
Fixpoint drop_fourth (px : list Z) : list Z :=
  match px with
  | c :: m :: y :: _ :: rest => c :: m :: y :: drop_fourth rest
  | _ => []
  end.

Definition convert_CMYK_to_RGB (im : pil_image) (mode : str) : result pil_image :=
  if decide (im_mode im = lit "CMYK" /\ mode = lit "RGB")
  then Ok (MkImage (lit "RGB") (im_width im) (im_height im)
             (drop_fourth (im_px im)))
  else Raise (MkExn ValueError (lit "conversion not supported")).

(** A wave file of 2000 samples in one channel, sixteen bits each. *)
Definition wave_2000 : wave_file :=
  MkWave (MkParams 1 2 8000 2000) (replicate (Z.to_nat 4000) 0).

Definition world_wave : world :=
  MkWorld {[ lit "cover.wav" := WaveFile wave_2000;
             lit "COVER.WAV" := WaveFile wave_2000;
             lit "clip.mp4" := OtherFile (replicate (Z.to_nat 25000) 0) ]}
    (fun _ => false) [].

(** A recording that is not named as a wave file, for the conversion. *)
Definition world_memo : world :=
  MkWorld {[ lit "memo.m4a" := WaveFile (MkWave (MkParams 1 2 16000 0) []) ]}
    (fun _ => false) [].

End MoreInstances.
Import MoreInstances.

(* ================================================================== *)
(** * Properties, 0.  The laws of the instances                         *)
(* ================================================================== *)

Module InstanceLaws.

(** The conversion of a greyscale image keeps it well formed. *)
Lemma convert_L_to_RGB_ok im mode im' :
  wf_image im -> convert_L_to_RGB im mode = Ok im' ->
  wf_image im' /\ im_mode im' = mode /\
  im_width im' = im_width im /\ im_height im' = im_height im.
Proof.
  intros (Hw & Hh & Hlen & Hpx). unfold convert_L_to_RGB.
  destruct (decide _) as [[HL ->]|]; [|discriminate].
  intros [= <-]. unfold wf_image.
  cbn [im_mode im_width im_height im_px]. repeat split; try done.
  - rewrite HL in Hlen. change (getbands (lit "L")) with 1 in Hlen.
    change (getbands (lit "RGB")) with 3.
    rewrite (flat_map_constant_length (c := 3)) by done. lia.
  - clear Hlen. induction Hpx as [|v l Hv _ IH]; cbn [flat_map app];
      [constructor|]. do 3 (constructor; [exact Hv|]). exact IH.
Qed.

Definition pillow_grey : Pillow :=
  {| Image_convert := convert_L_to_RGB;
     Image_convert_ok := convert_L_to_RGB_ok |}.

(** The toy cipher is a cipher: its digest has thirty-two octets, and
    shifting back undoes shifting. *)
Lemma toy_digest_key m : is_key (toy_digest m).
Proof.
  unfold toy_digest. split; [by rewrite length_map, length_seq|].
  apply Forall_forall. intros v Hv.
  apply list_elem_of_fmap in Hv as (i & -> & _).
  unfold is_byte. apply Z.mod_pos_bound. lia.
Qed.

Lemma shift_block_block k b : is_key k -> is_block b -> is_block (shift_block k b).
Proof.
  intros [Hk _] [Hb _]. unfold shift_block. split.
  - rewrite length_zip_with, length_take. lia.
  - apply Forall_forall. intros v Hv.
    apply list_elem_of_lookup in Hv as [i Hv].
    apply lookup_zip_with_Some in Hv as (x & kk & -> & _ & _).
    unfold is_byte. apply Z.mod_pos_bound. lia.
Qed.

Lemma unshift_shift k b :
  is_key k -> is_block b -> unshift_block k (shift_block k b) = b.
Proof.
  intros [Hk _] [Hb Hbytes]. unfold unshift_block, shift_block.
  assert (length (take 16 k) = length b) as Hlen by (rewrite length_take; lia).
  revert Hlen Hbytes. generalize (take 16 k). clear.
  induction b as [|x b IH]; intros [|kk ks] Hlen Hbytes; try done.
  cbn [zip_with]. inversion Hbytes as [|? ? Hx Hrest]; subst. f_equal.
  - unfold is_byte in Hx.
    rewrite Zminus_mod_idemp_l. replace (x + kk - kk) with x by lia.
    by apply Z.mod_small.
  - apply IH; [simpl in Hlen; lia|done].
Qed.

Definition toy_crypto : Crypto :=
  {| sha256 := toy_digest;
     aes_encrypt_block := shift_block;
     aes_decrypt_block := unshift_block;
     sha256_digest := toy_digest_key;
     aes_encrypt_block_block := shift_block_block;
     aes_decrypt_encrypt := unshift_shift |}.

End InstanceLaws.
Import InstanceLaws.

(* ================================================================== *)
(** * Properties, 1.  The bit codec                                     *)
(* ================================================================== *)

(** Linear arithmetic with division and remainder by constants. *)
Ltac dlia := Z.div_mod_to_equations; lia.

Module CodecProofs.

(** ** Finite checks over an initial segment of the integers *)

Lemma range_elem n b : 0 <= b < n -> b ∈ range n.
Proof.
  intros Hb. unfold range. apply list_elem_of_fmap.
  exists (Z.to_nat b). split; [lia|]. apply elem_of_seq. lia.
Qed.

Lemma forallb_count_up (f : Z -> bool) (n : nat) : forall start,
  forallb f (count_up start n) = true ->
  forall b, start <= b < start + Z.of_nat n -> f b = true.
Proof.
  induction n as [|n IH]; intros start Hall b Hb; [lia|].
  cbn [count_up forallb] in Hall. apply andb_true_iff in Hall as [H0 Hall].
  destruct (Z.eq_dec b start) as [->|Hne]; [done|].
  apply (IH (start + 1)); [done|lia].
Qed.

(** A property checked on every integer below [n] holds for each of them. *)
Lemma forallb_below (f : Z -> bool) (n : Z) :
  forallb f (count_up 0 (Z.to_nat n)) = true ->
  forall b, 0 <= b < n -> f b = true.
Proof. intros Hall b Hb. apply (forallb_count_up f _ 0 Hall). lia. Qed.

Lemma length_range n : length (range n) = Z.to_nat n.
Proof. unfold range. by rewrite length_map, length_seq. Qed.

Lemma range_lookup n i :
  (i < Z.to_nat n)%nat -> range n !! i = Some (Z.of_nat i).
Proof.
  intros Hi. unfold range. rewrite list_lookup_fmap, lookup_seq_lt by done.
  done.
Qed.

(** ** Octets and their eight digits *)

Lemma length_format_08b b : length (format_08b b) = 8%nat.
Proof. reflexivity. Qed.

Lemma int_base2_format_08b b : is_byte b -> int_base2 (format_08b b) = b.
Proof.
  intros Hb.
  assert (forallb (fun b => int_base2 (format_08b b) =? b)
            (count_up 0 (Z.to_nat 256)) = true) as Hall
    by (vm_compute; reflexivity).
  apply Z.eqb_eq. by apply (forallb_below _ _ Hall).
Qed.

Lemma int_base2_bound_aux (s : bits) acc :
  0 <= acc ->
  0 <= fold_left (fun a b => 2 * a + Z_of_bit b) s acc
    < (acc + 1) * 2 ^ Z.of_nat (length s).
Proof.
  revert acc. induction s as [|b s IH]; intros acc Hacc; simpl fold_left.
  - simpl. lia.
  - specialize (IH (2 * acc + Z_of_bit b)).
    assert (0 <= 2 * acc + Z_of_bit b) as H0 by (destruct b; simpl; lia).
    specialize (IH H0).
    replace (Z.of_nat (length (b :: s))) with (Z.succ (Z.of_nat (length s)))
      by (simpl length; lia).
    rewrite Z.pow_succ_r by lia.
    assert (2 * acc + Z_of_bit b + 1 <= (acc + 1) * 2)
      by (destruct b; simpl; lia).
    split; [lia|].
    eapply Z.lt_le_trans; [apply IH|]. nia.
Qed.

Lemma int_base2_byte (s : bits) : length s = 8%nat -> is_byte (int_base2 s).
Proof.
  intros Hlen. pose proof (int_base2_bound_aux s 0 ltac:(lia)) as H.
  rewrite Hlen in H. unfold is_byte, int_base2. simpl in H. lia.
Qed.

(** ** The grouping loop of [binary_to_text] *)

Lemma range_step_8_short n : 0 < n < 8 -> range_step 0 n 8 = [0].
Proof.
  intros Hn. unfold range_step.
  replace ((n - 0 + 8 - 1) / 8) with 1 by dlia.
  reflexivity.
Qed.

Lemma range_step_8_next n :
  0 <= n -> range_step 0 (n + 8) 8 = 0 :: map (fun i => i + 8) (range_step 0 n 8).
Proof.
  intros Hn. unfold range_step.
  replace ((n + 8 - 0 + 8 - 1) / 8) with ((n - 0 + 8 - 1) / 8 + 1) by dlia.
  rewrite Z2Nat.inj_add by dlia.
  rewrite Nat.add_comm. simpl seq. simpl map. f_equal.
  rewrite <- seq_shift, !map_map. apply map_ext. intros k. lia.
Qed.

Lemma binary_groups_short (tail : bits) :
  (length tail < 8)%nat -> binary_groups tail = [].
Proof.
  intros Hlen. unfold binary_groups.
  destruct tail as [|b tail]; [reflexivity|].
  rewrite range_step_8_short by (simpl length in *; lia).
  cbn [flat_map]. unfold slice. rewrite Z2Nat.inj_0, drop_0.
  rewrite take_ge by (simpl length in *; lia).
  destruct (Nat.eqb_spec (length (b :: tail)) 8) as [E|E]; [lia|]. reflexivity.
Qed.

Lemma slice_app_first {A} (g rest : list A) :
  slice (g ++ rest) 0 (0 + Z.of_nat (length g)) = g.
Proof.
  unfold slice. rewrite Z2Nat.inj_0, drop_0.
  replace (Z.to_nat _) with (length g) by lia. apply take_app_length.
Qed.

Lemma slice_app_shift {A} (g rest : list A) i n :
  0 <= i ->
  slice (g ++ rest) (i + Z.of_nat (length g)) (i + Z.of_nat (length g) + n)
  = slice rest i (i + n).
Proof.
  intros Hi. unfold slice.
  replace (Z.to_nat (i + Z.of_nat (length g))) with (length g + Z.to_nat i)%nat by lia.
  rewrite <- drop_drop, drop_app_length. f_equal. lia.
Qed.

Lemma binary_groups_cons (g rest : bits) :
  length g = 8%nat ->
  binary_groups (g ++ rest) = int_base2 g :: binary_groups rest.
Proof.
  intros Hg. unfold binary_groups.
  rewrite length_app, Hg.
  replace (Z.of_nat (8 + length rest)) with (Z.of_nat (length rest) + 8) by lia.
  rewrite range_step_8_next by lia.
  cbn [flat_map].
  pose proof (slice_app_first g rest) as H0. rewrite Hg in H0.
  change (Z.of_nat 8) with 8 in H0. rewrite H0, Hg. cbn [Nat.eqb app]. f_equal.
  rewrite !flat_map_concat_map, map_map. f_equal.
  apply map_ext_in. intros i Hi.
  assert (0 <= i) as Hi0.
  { unfold range_step in Hi. apply in_map_iff in Hi as (k & <- & _). lia. }
  pose proof (slice_app_shift g rest i 8 Hi0) as H1. rewrite Hg in H1.
  change (Z.of_nat 8) with 8 in H1. by rewrite H1.
Qed.

(** The groups of the digits of a sequence of octets are the octets, and a
    last group of fewer than eight digits is left out. *)
Lemma binary_groups_format (bs : bytes) (tail : bits) :
  Forall is_byte bs -> (length tail < 8)%nat ->
  binary_groups (concat (map format_08b bs) ++ tail) = bs.
Proof.
  intros Hbs Htail. induction Hbs as [|b bs Hb _ IH]; cbn [map concat].
  - by apply binary_groups_short.
  - rewrite <- app_assoc, binary_groups_cons by apply length_format_08b.
    by rewrite int_base2_format_08b, IH.
Qed.

Lemma binary_groups_bytes (binary : bits) :
  Forall is_byte (binary_groups binary).
Proof.
  unfold binary_groups. apply Forall_forall. intros v Hv.
  apply list_elem_of_In, in_flat_map in Hv as (i & _ & Hv).
  destruct (Nat.eqb_spec (length (slice binary i (i + 8))) 8) as [E|E].
  - destruct Hv as [<-|[]]. by apply int_base2_byte.
  - destruct Hv.
Qed.

Lemma bytes_of_ints_ok (chars : list Z) :
  Forall is_byte chars -> bytes_of_ints chars = Ok chars.
Proof.
  intros H. unfold bytes_of_ints.
  replace (forallb _ chars) with true; [done|].
  symmetry. apply forallb_forall. intros v Hv.
  rewrite Forall_forall in H. specialize (H v (proj2 (list_elem_of_In _ _) Hv)).
  unfold is_byte in H. apply andb_true_iff. split; [apply Z.leb_le|apply Z.ltb_lt]; lia.
Qed.



(** ** UTF-8 *)

(** Decide the test of the conditional at the head of the goal from the
    linear facts at hand. *)
Ltac bool_facts E :=
  unfold second_ok, is_cont in E;
  rewrite ?andb_true_iff, ?orb_true_iff, ?negb_true_iff, ?andb_false_iff,
    ?orb_false_iff, ?negb_false_iff, ?Z.ltb_lt, ?Z.leb_le, ?Z.eqb_eq,
    ?Z.ltb_ge, ?Z.leb_gt, ?Z.eqb_neq in E.

Ltac head_if :=
  match goal with
  | |- (if ?c then _ else _) = _ =>
      let E := fresh "E" in
      destruct c eqn:E; try (exfalso; bool_facts E; lia)
  end.

Ltac decide_tests := repeat head_if.

Lemma bytes_decode_utf8_eq mode bs :
  bytes_decode_utf8 mode bs = utf8_decode_step (bytes_decode_utf8 mode) mode bs.
Proof. destruct bs; reflexivity. Qed.

Ltac decode_one :=
  rewrite bytes_decode_utf8_eq at 1; unfold utf8_decode_step;
  cbv beta iota zeta; decide_tests.


Lemma decode_1 b0 rest mode :
  0 <= b0 < 0x80 ->
  bytes_decode_utf8 mode (b0 :: rest)
  = (s ← bytes_decode_utf8 mode rest; mret (b0 :: s)).
Proof. intros. decode_one. reflexivity. Qed.

Lemma decode_2 b0 b1 rest mode :
  0xC2 <= b0 < 0xE0 -> 0x80 <= b1 < 0xC0 ->
  bytes_decode_utf8 mode (b0 :: b1 :: rest)
  = (s ← bytes_decode_utf8 mode rest;
     mret ((b0 - 0xC0) * 64 + (b1 - 0x80) :: s)).
Proof.
  intros. decode_one. reflexivity.
Qed.

Lemma decode_3 b0 b1 b2 rest mode :
  0xE0 <= b0 < 0xF0 -> 0x80 <= b1 < 0xC0 -> 0x80 <= b2 < 0xC0 ->
  (b0 = 0xE0 -> 0xA0 <= b1) -> (b0 = 0xED -> b1 < 0xA0) ->
  bytes_decode_utf8 mode (b0 :: b1 :: b2 :: rest)
  = (s ← bytes_decode_utf8 mode rest;
     mret ((b0 - 0xE0) * 4096 + (b1 - 0x80) * 64 + (b2 - 0x80) :: s)).
Proof.
  intros. decode_one. reflexivity.
Qed.

Lemma decode_4 b0 b1 b2 b3 rest mode :
  0xF0 <= b0 < 0xF5 -> 0x80 <= b1 < 0xC0 -> 0x80 <= b2 < 0xC0 ->
  0x80 <= b3 < 0xC0 ->
  (b0 = 0xF0 -> 0x90 <= b1) -> (b0 = 0xF4 -> b1 < 0x90) ->
  bytes_decode_utf8 mode (b0 :: b1 :: b2 :: b3 :: rest)
  = (s ← bytes_decode_utf8 mode rest;
     mret ((b0 - 0xF0) * 262144 + (b1 - 0x80) * 4096
           + (b2 - 0x80) * 64 + (b3 - 0x80) :: s)).
Proof.
  intros. decode_one. reflexivity.
Qed.

Lemma utf8_char_roundtrip c rest mode :
  is_scalar c ->
  exists b, utf8_encode_char c = Ok b /\ Forall is_byte b /\
    bytes_decode_utf8 mode (b ++ rest)
    = (s ← bytes_decode_utf8 mode rest; mret (c :: s)).
Proof.
  intros [Hc Hs]. unfold utf8_encode_char.
  destruct (Z.ltb_spec c 0x80); [|destruct (Z.ltb_spec c 0x800);
    [|destruct (Z.ltb_spec c 0x10000)]].
  - eexists. split; [reflexivity|]. split.
    + repeat constructor; unfold is_byte; lia.
    + cbn [app]. apply decode_1. lia.
  - eexists. split; [reflexivity|]. split.
    + repeat constructor; unfold is_byte; dlia.
    + cbn [app]. rewrite decode_2 by dlia.
      replace (_ * 64 + _) with c by dlia. reflexivity.
  - rewrite Hs. unfold is_surrogate in Hs.
    apply andb_false_iff in Hs.
    assert (c < 0xD800 \/ 0xDFFF < c) as Hsur
      by (destruct Hs as [Hs|Hs]; [apply Z.leb_gt in Hs|apply Z.leb_gt in Hs]; lia).
    eexists. split; [reflexivity|]. split.
    + repeat constructor; unfold is_byte; dlia.
    + cbn [app]. rewrite decode_3 by dlia.
      replace (_ * 4096 + _ + _) with c by dlia. reflexivity.
  - eexists. split; [reflexivity|]. split.
    + repeat constructor; unfold is_byte; dlia.
    + cbn [app]. rewrite decode_4 by dlia.
      replace (_ * 262144 + _ + _ + _) with c by dlia. reflexivity.
Qed.


Lemma utf8_roundtrip (t : str) mode :
  valid_str t ->
  exists b, str_encode_utf8 t = Ok b /\ Forall is_byte b /\
            bytes_decode_utf8 mode b = Ok t.
Proof.
  induction 1 as [|c t Hc _ (bs & Henc & Hbs & Hdec)].
  - exists []. by repeat split.
  - destruct (utf8_char_roundtrip c bs mode Hc) as (b & Hb & Hbytes & Hd).
    exists (b ++ bs). cbn [str_encode_utf8]. rewrite Hb, Henc.
    repeat split; [by apply Forall_app|]. by rewrite Hd, Hdec.
Qed.

(** Lossy decoding returns on every sequence of octets. *)
Lemma decode_ignore_returns_aux (n : nat) : forall bs : bytes,
  (length bs <= n)%nat -> returns (bytes_decode_utf8 Ignore bs).
Proof.
  assert (forall (m : result str) c, returns m ->
            returns (s ← m; mret (c :: s))) as Hbind.
  { intros m c [s ->]. by eexists. }
  induction n as [|n IH]; intros bs Hlen.
  - destruct bs; [by eexists|simpl in Hlen; lia].
  - rewrite bytes_decode_utf8_eq. unfold utf8_decode_step, decode_error.
    repeat match goal with
      | |- returns (Ok _) => by eexists
      | |- returns (_ ← _; _) => apply Hbind
      | |- returns (bytes_decode_utf8 Ignore _) =>
          apply IH; simpl in Hlen |- *; lia
      | |- returns (match ?l with [] => _ | _ :: _ => _ end) =>
          destruct l; simpl in Hlen
      | |- returns (if ?c then _ else _) => destruct c
      end.
Qed.

Lemma decode_ignore_returns (bs : bytes) :
  returns (bytes_decode_utf8 Ignore bs).
Proof. by apply (decode_ignore_returns_aux (length bs)). Qed.

(** Strict decoding raises nothing but [UnicodeDecodeError]. *)
Lemma decode_strict_raises_aux (n : nat) : forall (bs : bytes) e,
  (length bs <= n)%nat -> bytes_decode_utf8 Strict bs = Raise e ->
  exn_cls e = UnicodeDecodeError.
Proof.
  assert (forall (m : result str) c e,
            (s ← m; mret (c :: s)) = Raise e -> m = Raise e) as Hbind.
  { intros [s|e0] c e; unfold mbind, result_bind, mret, result_ret; [discriminate|done]. }
  induction n as [|n IH]; intros bs e Hlen.
  - destruct bs; [discriminate|simpl in Hlen; lia].
  - rewrite bytes_decode_utf8_eq. unfold utf8_decode_step, decode_error.
    intros Hr.
    repeat match type of Hr with
      | Ok _ = Raise _ => discriminate Hr
      | Raise _ = Raise _ => by injection Hr as <-
      | (_ ← _; _) = Raise _ => apply Hbind in Hr
      | bytes_decode_utf8 Strict _ = Raise _ =>
          apply IH in Hr; [exact Hr|simpl in Hlen |- *; lia]
      | match ?l with [] => _ | _ :: _ => _ end = _ =>
          destruct l; simpl in Hlen
      | (if ?c then _ else _) = _ => destruct c
      end.
Qed.

Lemma binary_to_text_eq (binary : bits) :
  binary_to_text binary
  = match bytes_decode_utf8 Strict (binary_groups binary) with
    | Ok s => Ok s
    | Raise _ => bytes_decode_utf8 Ignore (binary_groups binary)
    end.
Proof.
  unfold binary_to_text, try_except.
  rewrite bytes_of_ints_ok by apply binary_groups_bytes. cbn.
  destruct (bytes_decode_utf8 Strict _) as [s|e] eqn:E; [done|].
  by rewrite (decode_strict_raises_aux _ _ e (le_n _) E).
Qed.

Lemma binary_to_text_returns (binary : bits) : returns (binary_to_text binary).
Proof.
  rewrite binary_to_text_eq. destruct (bytes_decode_utf8 Strict _).
  - by eexists.
  - apply decode_ignore_returns.
Qed.

Lemma binary_groups_tail (binary tail : bits) :
  (Z.of_nat (length binary)) mod 8 = 0 -> (length tail < 8)%nat ->
  binary_groups (binary ++ tail) = binary_groups binary.
Proof.
  intros Hlen Htail.
  remember (length binary / 8)%nat as n eqn:Hn.
  revert binary Hn Hlen. induction n as [|n IH]; intros binary Hn Hlen.
  - assert (length binary = 0%nat) as H0.
    { apply Nat2Z.inj. change (Z.of_nat 0) with 0.
      assert (Z.of_nat (length binary) / 8 = 0) by (rewrite <- (Nat2Z.inj_div _ 8); lia).
      dlia. }
    destruct binary; [|discriminate]. simpl.
    rewrite binary_groups_short by done. reflexivity.
  - assert (Z.of_nat (length binary) / 8 = Z.of_nat (S n)) as Hq
      by (rewrite <- (Nat2Z.inj_div _ 8); lia).
    assert (exists g r, binary = g ++ r /\ length g = 8%nat) as (g & r & -> & Hg).
    { exists (take 8 binary), (drop 8 binary). rewrite take_drop.
      split; [done|]. rewrite length_take. dlia. }
    rewrite length_app, Hg in *.
    rewrite <- app_assoc, (binary_groups_cons g (r ++ tail)),
      (binary_groups_cons g r) by done. f_equal.
    apply IH.
    + apply Nat2Z.inj. rewrite (Nat2Z.inj_div _ 8). dlia.
    + dlia.
Qed.


Lemma valid_lit_HI : valid_str (lit "HI").
Proof. repeat constructor; cbv; congruence. Qed.

(** "HI" is sixteen digits. *)
Example text_to_binary_HI :
  text_to_binary (lit "HI")
  = Ok [false; true; false; false; true; false; false; false;
        false; true; false; false; true; false; false; true].
Proof. reflexivity. Qed.

(** The octet 0xFF is no UTF-8: strict decoding raises, and the lossy
    decoding that [binary_to_text] falls back on drops it. *)
Example binary_to_text_lossy :
  bytes_decode_utf8 Strict [0xFF; 0x41]
    = Raise (MkExn UnicodeDecodeError (lit "invalid start byte")) /\
  binary_to_text (format_08b 0xFF ++ format_08b 0x41) = Ok (lit "A").
Proof. split; reflexivity. Qed.

(** C7. Codec round trip and totality: [binary_to_text (text_to_binary t)]
    is [t] for every string [t] of Unicode scalar values, where
    [text_to_binary t] is the concatenation, in order, of the eight binary
    digits of each UTF-8 octet of [t]; [binary_to_text] returns on every
    string of binary digits; it turns every complete group of eight digits
    into one octet and leaves out a last group of fewer than eight; and when
    the octets are not valid UTF-8 its result is that of the lossy decoding
    instead of an exception. *)
Theorem codec_round_trip_and_totality :
  (forall t : str, valid_str t ->
     exists utf8_bytes,
       str_encode_utf8 t = Ok utf8_bytes /\
       text_to_binary t = Ok (concat (map format_08b utf8_bytes)) /\
       binary_to_text (concat (map format_08b utf8_bytes)) = Ok t) /\
  (forall binary : bits, returns (binary_to_text binary)) /\
  (forall octets : bytes, Forall is_byte octets ->
     binary_groups (concat (map format_08b octets)) = octets) /\
  (forall binary tail : bits,
     Z.of_nat (length binary) mod 8 = 0 -> (length tail < 8)%nat ->
     binary_to_text (binary ++ tail) = binary_to_text binary) /\
  (forall (binary : bits) e,
     bytes_decode_utf8 Strict (binary_groups binary) = Raise e ->
     binary_to_text binary = bytes_decode_utf8 Ignore (binary_groups binary) /\
     returns (bytes_decode_utf8 Ignore (binary_groups binary))).
Proof.
  repeat split.
  - intros t Ht.
    destruct (utf8_roundtrip t Strict Ht) as (b & Henc & Hb & Hdec).
    exists b. split; [done|]. split.
    + unfold text_to_binary. by rewrite Henc.
    + rewrite binary_to_text_eq.
      rewrite <- (app_nil_r (concat _)), binary_groups_format by (done || simpl; lia).
      by rewrite Hdec.
  - apply binary_to_text_returns.
  - intros octets Ho.
    rewrite <- (app_nil_r (concat _)). apply binary_groups_format; [done|simpl; lia].
  - intros binary tail Hlen Htail.
    by rewrite !binary_to_text_eq, binary_groups_tail.
  - rewrite binary_to_text_eq. by rewrite H.
  - apply decode_ignore_returns.
Qed.

Lemma codec_round_trip_and_totality_witness :
  valid_str (lit "HI") /\
  exists utf8_bytes,
    str_encode_utf8 (lit "HI") = Ok utf8_bytes /\
    text_to_binary (lit "HI") = Ok (concat (map format_08b utf8_bytes)) /\
    binary_to_text (concat (map format_08b utf8_bytes)) = Ok (lit "HI").
Proof.
  split.
  - exact valid_lit_HI.
  - exact (proj1 codec_round_trip_and_totality (lit "HI") valid_lit_HI).
Defined.

End CodecProofs.

(* ================================================================== *)
(** * Properties, 2.  Embedding in the least significant bits           *)
(* ================================================================== *)

Module EmbedProofs.
Import CodecProofs.

(** ** Running loops in the store *)

Lemma for_each_app (l1 l2 : list Z) (body : Z -> np unit) (h : store) :
  for_each (l1 ++ l2) body h
  = match for_each l1 body h with
    | Ok (_, h') => for_each l2 body h'
    | Raise e => Raise e
    end.
Proof.
  revert h. induction l1 as [|i l1 IH]; intros h; [reflexivity|].
  cbn [app for_each]. unfold mbind, np_bind.
  destruct (body i h) as [[[] h']|e]; [apply IH|reflexivity].
Qed.

Lemma range_succ (n : nat) :
  range (Z.of_nat (S n)) = range (Z.of_nat n) ++ [Z.of_nat n].
Proof.
  unfold range. rewrite !Nat2Z.id, seq_S, map_app. reflexivity.
Qed.

(** A loop that keeps an invariant, one index after the other. *)
Lemma for_range_invariant (n : nat) (body : Z -> np unit)
    (Inv : nat -> store -> Prop) (h : store) :
  Inv 0%nat h ->
  (forall k hk, (k < n)%nat -> Inv k hk ->
     exists hk', body (Z.of_nat k) hk = Ok (tt, hk') /\ Inv (S k) hk') ->
  exists h', for_range (Z.of_nat n) body h = Ok (tt, h') /\ Inv n h'.
Proof.
  intros H0 Hstep. unfold for_range.
  induction n as [|n IH].
  - exists h. by split.
  - destruct IH as (hn & Hrun & Hn); [intros; apply Hstep; [lia|done]|].
    destruct (Hstep n hn ltac:(lia) Hn) as (hn' & Hbody & Hn').
    exists hn'. split; [|done].
    rewrite range_succ, for_each_app, Hrun. cbn [for_each].
    unfold mbind, np_bind. by rewrite Hbody.
Qed.

(** ** Replacing the least significant bit *)

Lemma lsb_replaced_arith x b y :
  y = 2 * (x / 2) + Z_of_bit b -> lsb_replaced x b y.
Proof.
  intros ->. split.
  - rewrite Z.bit0_odd, Z.add_comm, Z.odd_add_mul_2. by destruct b.
  - intros k Hk. replace k with (Z.succ (k - 1)) by lia.
    rewrite <- !Z.div2_bits by lia. f_equal. rewrite ?Z.div2_div.
    destruct b; simpl; dlia.
Qed.

Lemma pixel_embed_checked :
  forallb pixel_embed_check (count_up 0 (Z.to_nat 256)) = true.
Proof. vm_compute. reflexivity. Qed.

Lemma pixel_embed x b :
  in_dtype uint8 x ->
  cast uint8 (Z.lor (Z.land x 254) (Z_of_bit b)) = 2 * (x / 2) + Z_of_bit b.
Proof.
  intros Hx.
  pose proof (forallb_below _ _ pixel_embed_checked x Hx) as H.
  unfold pixel_embed_check in H. cbn [forallb] in H.
  apply andb_true_iff in H as [Ht H]. apply andb_true_iff in H as [Hf _].
  apply Z.eqb_eq. by destruct b.
Qed.

Lemma sample_embed_checked :
  forallb sample_embed_check (count_up 0 (Z.to_nat 65536)) = true.
Proof. vm_compute. reflexivity. Qed.

Lemma sample_embed_nonneg m b :
  0 <= m < 65536 ->
  Z.lor (Z.land m 0xFFFE) (Z_of_bit b) = 2 * (m / 2) + Z_of_bit b.
Proof.
  intros Hm.
  pose proof (forallb_below _ _ sample_embed_checked m Hm) as H.
  unfold sample_embed_check in H. cbn [forallb] in H.
  apply andb_true_iff in H as [Ht H]. apply andb_true_iff in H as [Hf _].
  apply Z.eqb_eq. by destruct b.
Qed.

Lemma sample_embed x b :
  in_dtype int16 x ->
  cast int16 (Z.lor (Z.land x 0xFFFE) (Z_of_bit b)) = 2 * (x / 2) + Z_of_bit b.
Proof.
  intros Hx. simpl in Hx.
  replace (Z.land x 0xFFFE) with (Z.land (x mod 65536) 0xFFFE).
  - rewrite sample_embed_nonneg by dlia. unfold cast. destruct b; simpl; dlia.
  - change 65536 with (2 ^ 16). rewrite <- Z.land_ones by lia.
    rewrite <- Z.land_assoc. reflexivity.
Qed.

(** ** The primitives of the store *)

Lemma np_bind_ok {A B} (m : np A) (f : A -> np B) h a h' :
  m h = Ok (a, h') -> (m ≫= f) h = f a h'.
Proof. intros Hm. unfold mbind, np_bind. by rewrite Hm. Qed.

Lemma np_bind_raise {A B} (m : np A) (f : A -> np B) h e :
  m h = Raise e -> (m ≫= f) h = Raise e.
Proof. intros Hm. unfold mbind, np_bind. by rewrite Hm. Qed.

Lemma np_read_ok h r a : h !! r = Some a -> np_read r h = Ok (a, h).
Proof. intros Hr. unfold np_read. by rewrite Hr. Qed.

Lemma np_len_ok h r a :
  h !! r = Some a -> np_len r h = Ok (Z.of_nat (length (a_data a)), h).
Proof.
  intros Hr. unfold np_len. by rewrite (np_bind_ok _ _ _ _ _ (np_read_ok _ _ _ Hr)).
Qed.

Lemma np_get_ok h r a i v :
  h !! r = Some a -> a_data a !! Z.to_nat i = Some v ->
  np_get r i h = Ok (v, h).
Proof.
  intros Hr Hi. unfold np_get.
  rewrite (np_bind_ok _ _ _ _ _ (np_read_ok _ _ _ Hr)). by rewrite Hi.
Qed.

Lemma np_set_ok h r a i v :
  h !! r = Some a -> (Z.to_nat i < length (a_data a))%nat ->
  np_set r i v h
  = Ok (tt, <[r := MkArray (a_dtype a)
                     (<[Z.to_nat i := cast (a_dtype a) v]> (a_data a))]> h).
Proof.
  intros Hr Hi. unfold np_set.
  rewrite (np_bind_ok _ _ _ _ _ (np_read_ok _ _ _ Hr)).
  by destruct (decide _).
Qed.

Lemma cast_in_dtype t v : in_dtype t v -> cast t v = v.
Proof. destruct t; simpl; intros; dlia. Qed.

Lemma map_cast_in_dtype t (l : list Z) :
  Forall (in_dtype t) l -> map (cast t) l = l.
Proof.
  induction 1 as [|v l Hv _ IH]; [done|]. cbn [map].
  by rewrite cast_in_dtype, IH.
Qed.

Lemma np_new_ok t (values : list Z) h :
  Forall (in_dtype t) values ->
  np_new t values h = Ok (length h, h ++ [MkArray t values]).
Proof. intros Hv. unfold np_new. by rewrite map_cast_in_dtype. Qed.

Lemma store_lookup_new (h : store) (a : array) :
  (h ++ [a]) !! length h = Some a.
Proof. by rewrite list_lookup_middle. Qed.

Lemma store_lookup_old (h : store) (a a' : array) r :
  h !! r = Some a -> (h ++ [a']) !! r = Some a.
Proof. intros Hr. by rewrite lookup_app_l_Some with (x := a). Qed.

Lemma store_insert_new (h : store) (a a' : array) :
  <[length h := a']> (h ++ [a]) = h ++ [a'].
Proof.
  rewrite insert_app_r_alt by lia. by rewrite Nat.sub_diag.
Qed.

(** ** The arrays that carry the first [k] bits of a message *)

Lemma embedded_start S message : embedded S message 0 S.
Proof. split; [done|]. split; [intros; lia|done]. Qed.

Lemma embedded_step S message k A x b :
  embedded S message k A -> S !! k = Some x -> message !! k = Some b ->
  embedded S message (Datatypes.S k) (<[k := 2 * (x / 2) + Z_of_bit b]> A).
Proof.
  intros (Hlen & Hlow & Hhigh) Hx Hb. split; [|split].
  - by rewrite length_insert.
  - intros i x' b' Hi Hx' Hb'. destruct (decide (i = k)) as [->|Hne].
    + rewrite list_lookup_insert_eq by (rewrite Hlen; by eapply lookup_lt_Some).
      congruence.
    + rewrite list_lookup_insert_ne by done. apply Hlow; [lia|done..].
  - intros i Hi. rewrite list_lookup_insert_ne by lia. apply Hhigh. lia.
Qed.

Lemma embedded_skip S message k A :
  embedded S message k A -> (length S <= k)%nat ->
  embedded S message (Datatypes.S k) A.
Proof.
  intros (Hlen & Hlow & Hhigh) Hk. split; [done|split].
  - intros i x b Hi Hx Hb. apply Hlow; [|done..].
    apply lookup_lt_Some in Hx. lia.
  - intros i Hi. apply Hhigh. lia.
Qed.

(** What [embedded] says once the loop is over. *)
Lemma embedded_frame S message n A :
  embedded S message n A ->
  (Nat.min (length message) (length S) <= n)%nat ->
  (n <= length message)%nat ->
  embedding_frame S message A.
Proof.
  intros (Hlen & Hlow & Hhigh) Hn Hn'. split; [done|split].
  - intros i x b Hx Hb. eexists. split; [|by apply lsb_replaced_arith].
    apply Hlow; [|done..].
    apply lookup_lt_Some in Hx, Hb.
    eapply Nat.lt_le_trans; [|exact Hn]. by apply Nat.min_glb_lt.
  - intros j Hj. apply Hhigh. lia.
Qed.


(** ** [fast_embed_pixels] *)

Lemma fast_embed_pixels_run (h : store) (binary_data flat_pixels : ref)
    (tb : dtype) (message : bits) (S : list Z) :
  h !! binary_data = Some (MkArray tb (map Z_of_bit message)) ->
  h !! flat_pixels = Some (MkArray uint8 S) ->
  Forall (in_dtype uint8) S ->
  exists R,
    fast_embed_pixels binary_data flat_pixels h
      = Ok (length h, h ++ [MkArray uint8 R]) /\
    embedded S message (Nat.min (length message) (length S)) R.
Proof.
  intros Hb Hs HS. unfold fast_embed_pixels.
  set (n := Nat.min (length message) (length S)).
  assert (np_copy flat_pixels h = Ok (length h, h ++ [MkArray uint8 S])) as Hcopy.
  { unfold np_copy. rewrite (np_bind_ok _ _ _ _ _ (np_read_ok _ _ _ Hs)).
    by apply np_new_ok. }
  rewrite (np_bind_ok _ _ _ _ _ Hcopy).
  rewrite (np_bind_ok _ _ _ _ _ (np_len_ok _ _ _ (store_lookup_old _ _ _ _ Hb))).
  rewrite (np_bind_ok _ _ _ _ _ (np_len_ok _ _ _ (store_lookup_old _ _ _ _ Hs))).
  cbn [a_data]. rewrite length_map.
  replace (Z.min _ _) with (Z.of_nat n) by lia.
  destruct (for_range_invariant n
    (fun i => x ← np_get (length h) i; b ← np_get binary_data i;
              np_set (length h) i (Z.lor (Z.land x 254) b))
    (fun k hk => exists A, hk = h ++ [MkArray uint8 A] /\
                           embedded S message k A)
    (h ++ [MkArray uint8 S])) as (h' & Hrun & R & -> & HR).
  - exists S. split; [done|apply embedded_start].
  - intros k hk Hk (A & -> & HA).
    assert (k < length S)%nat as HkS by lia.
    assert (k < length message)%nat as HkM by lia.
    destruct (lookup_lt_is_Some_2 S k HkS) as [x Hx].
    destruct (lookup_lt_is_Some_2 message k HkM) as [b Hbit].
    assert (in_dtype uint8 x) as Hxr
      by (rewrite Forall_forall in HS; eapply HS, list_elem_of_lookup_2, Hx).
    assert (A !! k = Some x) as HAk
      by (destruct HA as (_ & _ & Hhigh); rewrite Hhigh by lia; done).
    eexists. split.
    + erewrite np_bind_ok; cycle 1.
      { eapply np_get_ok; [apply store_lookup_new|].
        cbn [a_data]. rewrite Nat2Z.id. exact HAk. }
      erewrite np_bind_ok; cycle 1.
      { eapply np_get_ok; [eapply store_lookup_old, Hb|].
        cbn [a_data]. by rewrite Nat2Z.id, list_lookup_fmap, Hbit. }
      erewrite np_set_ok; cycle 1.
      { apply store_lookup_new. }
      { cbn [a_data]. rewrite Nat2Z.id. destruct HA as [-> _]. lia. }
      cbn [a_dtype a_data]. rewrite Nat2Z.id, store_insert_new.
      rewrite pixel_embed by done. reflexivity.
    + eexists. split; [done|]. by apply embedded_step.
  - exists R. split; [|done].
    by rewrite (np_bind_ok _ _ _ _ _ Hrun).
Qed.

(** ** The embedding lines of [hide_message_in_audio] *)

Section WithNumPy.
Context `{!NumPy}.

(** With the promotion of NumPy 1.x the loop embeds the message. *)
Lemma embed_samples_run (h : store) (audio_data : ref)
    (message : bits) (S : list Z) :
  numpy_promotion = ValueBased ->
  h !! audio_data = Some (MkArray int16 S) ->
  Forall (in_dtype int16) S ->
  exists R,
    embed_samples audio_data message h
      = Ok (length h, h ++ [MkArray int16 R]) /\
    embedded S message (length message) R.
Proof.
  intros Hvb Hs HS. unfold embed_samples.
  assert (np_copy audio_data h = Ok (length h, h ++ [MkArray int16 S])) as Hcopy.
  { unfold np_copy. rewrite (np_bind_ok _ _ _ _ _ (np_read_ok _ _ _ Hs)).
    by apply np_new_ok. }
  rewrite (np_bind_ok _ _ _ _ _ Hcopy). unfold embed_loop.
  destruct (for_range_invariant (length message)
    (fun i => n ← np_len (length h);
              if i <? n then
                x ← np_get (length h) i;
                masked ← int16_and_int x 0xFFFE;
                match message !! Z.to_nat i with
                | Some b => np_set (length h) i
                              (Z.lor masked (Z_of_bit b))
                | None => np_raise (MkExn IndexError
                                      (lit "string index out of range"))
                end
              else mret tt)
    (fun k hk => exists A, hk = h ++ [MkArray int16 A] /\
                           embedded S message k A)
    (h ++ [MkArray int16 S])) as (h' & Hrun & R & -> & HR).
  - exists S. split; [done|apply embedded_start].
  - intros k hk Hk (A & -> & HA).
    rewrite (np_bind_ok _ _ _ _ _ (np_len_ok _ _ _ (store_lookup_new _ _))).
    cbn [a_data]. pose proof HA as (HlenA & _ & Hhigh). rewrite HlenA.
    destruct (Z.ltb_spec (Z.of_nat k) (Z.of_nat (length S))) as [HkS|HkS].
    + destruct (lookup_lt_is_Some_2 S k ltac:(lia)) as [x Hx].
      destruct (lookup_lt_is_Some_2 message k Hk) as [b Hbit].
      assert (in_dtype int16 x) as Hxr
        by (rewrite Forall_forall in HS; eapply HS, list_elem_of_lookup_2, Hx).
      eexists. split.
      * erewrite np_bind_ok; cycle 1.
        { eapply np_get_ok; [apply store_lookup_new|].
          cbn [a_data]. rewrite Nat2Z.id, Hhigh by lia. exact Hx. }
        unfold int16_and_int. rewrite Hvb.
        erewrite np_bind_ok; [|reflexivity].
        unfold bits in *. rewrite Nat2Z.id, Hbit.
        erewrite np_set_ok; cycle 1.
        { apply store_lookup_new. }
        { cbn [a_data]. rewrite Nat2Z.id. lia. }
        cbn [a_dtype a_data]. rewrite Nat2Z.id, store_insert_new.
        rewrite sample_embed by done. reflexivity.
      * eexists. split; [done|]. by apply embedded_step.
    + eexists. split; [reflexivity|].
      eexists. split; [done|]. apply embedded_skip; [done|lia].
  - exists R. split; [|done].
    by rewrite (np_bind_ok _ _ _ _ _ Hrun).
Qed.

(** With the promotion of NumPy 2 the loop raises at its first step. *)
Lemma embed_samples_overflow (h : store) (audio_data : ref)
    (message : bits) (S : list Z) :
  numpy_promotion = Weak ->
  h !! audio_data = Some (MkArray int16 S) ->
  Forall (in_dtype int16) S ->
  S <> [] -> message <> [] ->
  embed_samples audio_data message h
  = Raise (MkExn OverflowError
             (lit "Python integer 65534 out of bounds for int16")).
Proof.
  intros Hweak Hs HS HSne Hmne. unfold embed_samples.
  assert (np_copy audio_data h = Ok (length h, h ++ [MkArray int16 S])) as Hcopy.
  { unfold np_copy. rewrite (np_bind_ok _ _ _ _ _ (np_read_ok _ _ _ Hs)).
    by apply np_new_ok. }
  rewrite (np_bind_ok _ _ _ _ _ Hcopy). unfold embed_loop, for_range, range.
  destruct message as [|b message]; [done|].
  destruct S as [|x S]; [done|].
  rewrite Nat2Z.id. cbn [length seq map for_each].
  apply np_bind_raise, np_bind_raise.
  erewrite np_bind_ok; [|apply np_len_ok, store_lookup_new].
  cbn [a_data length].
  destruct (Z.ltb_spec (Z.of_nat 0) (Z.of_nat (Datatypes.S (length S))));
    [|lia].
  erewrite np_bind_ok; [|by eapply np_get_ok; [apply store_lookup_new|]].
  apply np_bind_raise. unfold int16_and_int. by rewrite Hweak.
Qed.


End WithNumPy.



(** The same run, computed: only the low bits of the first two pixels
    change. *)
Example fast_embed_pixels_example :
  fast_embed_pixels 0%nat 1%nat
    [MkArray uint8 [1; 0]; MkArray uint8 [255; 254; 7]]
  = Ok (2%nat, [MkArray uint8 [1; 0]; MkArray uint8 [255; 254; 7];
                MkArray uint8 [255; 254; 7]]) /\
  fast_embed_pixels 0%nat 1%nat
    [MkArray uint8 [0; 1]; MkArray uint8 [255; 254; 7]]
  = Ok (2%nat, [MkArray uint8 [0; 1]; MkArray uint8 [255; 254; 7];
                MkArray uint8 [254; 255; 7]]).
Proof. split; reflexivity. Qed.

(** A negative sample keeps its sign and its higher bits. *)
Example embed_samples_example :
  @embed_samples numpy_1 0%nat [false; true; true]
    [MkArray int16 [-1; -32768; 6; 9]]
  = Ok (1%nat, [MkArray int16 [-1; -32768; 6; 9];
                MkArray int16 [-2; -32767; 7; 9]]).
Proof. reflexivity. Qed.
End EmbedProofs.

(* ================================================================== *)
(** * Properties, 3.  Cutting at the end marker                         *)
(* ================================================================== *)

Module UnframeProofs.
Import CodecProofs EmbedProofs.

(** ** [str.find] *)

Lemma starts_with_spec (sub s : bits) :
  starts_with sub s = true <-> exists post, s = sub ++ post.
Proof.
  revert s. induction sub as [|x sub IH]; intros s; cbn [starts_with].
  - split; [intros _; by exists s|done].
  - destruct s as [|y s].
    + split; [done|intros [post Hp]; discriminate].
    + rewrite andb_true_iff, IH. split.
      * intros [Hxy [post ->]]. apply Bool.eqb_prop in Hxy as ->. by exists post.
      * intros [post Hp]. injection Hp as -> ->.
        split; [by destruct x|by exists post].
Qed.

Lemma occurs_at_0 (sub s : bits) :
  occurs_at sub s 0 <-> starts_with sub s = true.
Proof.
  rewrite starts_with_spec. split.
  - intros (pre & post & -> & Hlen). destruct pre; [|discriminate]. by exists post.
  - intros [post ->]. by exists [], post.
Qed.

Lemma occurs_at_cons (sub s : bits) x i :
  occurs_at sub (x :: s) (S i) <-> occurs_at sub s i.
Proof.
  split.
  - intros (pre & post & Hs & Hlen). destruct pre as [|y pre]; [discriminate|].
    injection Hs as -> ->. exists pre, post. split; [done|].
    simpl in Hlen. lia.
  - intros (pre & post & -> & Hlen). exists (x :: pre), post.
    split; [done|]. simpl. lia.
Qed.

Lemma occurs_at_nil (sub : bits) i : occurs_at sub [] (S i) -> False.
Proof. intros (pre & post & Hs & Hlen). destruct pre; discriminate. Qed.

Lemma find_from_Some (sub s : bits) : forall i0 i,
  find_from sub s i0 = Some i ->
  exists k, i = i0 + Z.of_nat k /\ first_occurrence sub s k.
Proof.
  induction s as [|x s IH]; intros i0 i; cbn [find_from];
    destruct (starts_with sub _) eqn:E.
  - intros [= <-]. exists 0%nat. split; [lia|]. split; [by apply occurs_at_0|lia].
  - discriminate.
  - intros [= <-]. exists 0%nat. split; [lia|]. split; [by apply occurs_at_0|lia].
  - intros Hf. destruct (IH _ _ Hf) as (k & -> & Hocc & Hfirst).
    exists (S k). split; [lia|]. split; [by apply occurs_at_cons|].
    intros [|j] Hj.
    + rewrite occurs_at_0. congruence.
    + rewrite occurs_at_cons. apply Hfirst. lia.
Qed.

Lemma find_from_None (sub s : bits) : forall i0,
  find_from sub s i0 = None -> no_occurrence sub s.
Proof.
  induction s as [|x s IH]; intros i0; cbn [find_from];
    destruct (starts_with sub _) eqn:E; try discriminate.
  - intros _ [|i]; [rewrite occurs_at_0; congruence|exact (occurs_at_nil sub i)].
  - intros Hf [|i].
    + rewrite occurs_at_0. congruence.
    + rewrite occurs_at_cons. by apply (IH _ Hf).
Qed.

Lemma first_occurrence_unique (sub s : bits) i j :
  first_occurrence sub s i -> first_occurrence sub s j -> i = j.
Proof.
  intros [Hi Hi'] [Hj Hj'].
  destruct (Nat.lt_trichotomy i j) as [H|[H|H]]; [|done|].
  - by destruct (Hj' i H).
  - by destruct (Hi' j H).
Qed.

(** [s.find(sub)] is the index of the first occurrence, and [-1] exactly
    when there is none. *)
Lemma str_find_first (s sub : bits) i :
  first_occurrence sub s i -> str_find s sub = Z.of_nat i.
Proof.
  intros Hi. unfold str_find. destruct (find_from sub s 0) as [k|] eqn:E.
  - apply find_from_Some in E as (k' & -> & Hk').
    rewrite (first_occurrence_unique _ _ _ _ Hi Hk'). lia.
  - apply find_from_None in E. destruct Hi as [Hi _]. by destruct (E i).
Qed.

Lemma str_find_none (s sub : bits) :
  no_occurrence sub s -> str_find s sub = -1.
Proof.
  intros Hno. unfold str_find. destruct (find_from sub s 0) as [k|] eqn:E; [|done].
  apply find_from_Some in E as (k' & _ & Hk' & _). by destruct (Hno k').
Qed.


(** ** [fast_extract_bits] *)

Lemma fast_extract_bits_run (h : store) (flat_pixels : ref) (t : dtype)
    (xs : list Z) (num_bits : Z) :
  h !! flat_pixels = Some (MkArray t xs) -> 0 <= num_bits ->
  fast_extract_bits flat_pixels num_bits h
  = Ok (length h,
        h ++ [MkArray uint8
                (map (fun x => Z.land x 1) (take (Z.to_nat num_bits) xs))]).
Proof.
  intros Hs Hnum. unfold fast_extract_bits.
  rewrite (np_bind_ok _ _ _ _ _ (np_len_ok _ _ _ Hs)). cbn [a_data].
  set (n := Nat.min (Z.to_nat num_bits) (length xs)).
  replace (Z.min num_bits _) with (Z.of_nat n) by lia.
  unfold np_zeros. rewrite Nat2Z.id.
  erewrite np_bind_ok; cycle 1.
  { apply np_new_ok, Forall_replicate. simpl. lia. }
  rewrite (np_bind_ok _ _ _ _ _ (np_len_ok _ _ _ (store_lookup_new _ _))).
  cbn [a_data]. rewrite length_replicate.
  destruct (for_range_invariant n
    (fun i => x ← np_get flat_pixels i; np_set (length h) i (Z.land x 1))
    (fun k hk => hk = h ++ [MkArray uint8
        (map (fun x => Z.land x 1) (take k xs) ++ replicate (n - k) 0)])
    (h ++ [MkArray uint8 (replicate n 0)])) as (h' & Hrun & ->).
  - by rewrite take_0, Nat.sub_0_r.
  - intros k hk Hk ->.
    destruct (lookup_lt_is_Some_2 xs k ltac:(lia)) as [x Hx].
    eexists. split.
    + erewrite np_bind_ok; cycle 1.
      { eapply np_get_ok; [eapply store_lookup_old, Hs|].
        cbn [a_data]. rewrite Nat2Z.id. exact Hx. }
      erewrite np_set_ok; cycle 1.
      { apply store_lookup_new. }
      { cbn [a_data]. rewrite Nat2Z.id, length_app, length_map, length_take,
          length_replicate. lia. }
      cbn [a_dtype a_data]. rewrite Nat2Z.id, store_insert_new. reflexivity.
    + do 3 f_equal.
      rewrite (take_S_r _ _ _ Hx), map_app, <- app_assoc. cbn [map app].
      replace (n - k)%nat with (S (n - S k)) by lia. cbn [replicate].
      rewrite insert_app_r_alt by (rewrite length_map, length_take; lia).
      rewrite length_map, length_take.
      replace (k - k `min` length xs)%nat with 0%nat by lia. cbn [insert list_insert].
      f_equal. f_equal. unfold cast.
      assert (0 <= Z.land x 1 < 2); [|dlia].
      change 1 with (Z.ones 1). rewrite Z.land_ones by lia. dlia.
  - rewrite (np_bind_ok _ _ _ _ _ Hrun). cbn. do 4 f_equal.
    rewrite Nat.sub_diag, app_nil_r. f_equal.
    unfold n. destruct (Nat.min_spec (Z.to_nat num_bits) (length xs)) as [[? ->]|[? ->]];
      [done|]. by rewrite !take_ge by lia.
Qed.

(** The digit read back from a sample is its least significant bit. *)
Lemma digit_of_lsb (x : Z) : digit_of_bit (Z.land x 1) = Z.testbit x 0.
Proof.
  unfold digit_of_bit. rewrite Z.bit0_odd.
  change 1 with (Z.ones 1) at 1. rewrite Z.land_ones by lia.
  change (2 ^ 1) with 2. rewrite Zmod_odd. by destruct (Z.odd x).
Qed.

Lemma lsb_cast_uint8 (x : Z) :
  Z.testbit (cast uint8 x) 0 = Z.testbit x 0.
Proof.
  unfold cast. change 256 with (2 ^ 8). by rewrite Z.mod_pow2_bits_low by lia.
Qed.


(** ** Computations in the world *)

Lemma io_bind_ok {A B} (m : io A) (f : A -> io B) w a w' :
  m w = (Ok a, w') -> (m ≫= f) w = f a w'.
Proof. intros Hm. unfold mbind, io_bind. by rewrite Hm. Qed.

Lemma io_bind_raise {A B} (m : io A) (f : A -> io B) w e w' :
  m w = (Raise e, w') -> (m ≫= f) w = (Raise e, w').
Proof. intros Hm. unfold mbind, io_bind. by rewrite Hm. Qed.

(** The string of digits that the extraction reads from an array. *)
Lemma extracted_digits (flat_img : list Z) :
  np_eval (
    flat ← np_new uint8 flat_img;
    r ← fast_extract_bits flat (Z.of_nat (length flat_img));
    a ← np_read r;
    mret (a_data a))
  = Ok (map (fun x => Z.land x 1) (map (cast uint8) flat_img)).
Proof.
  unfold np_eval.
  erewrite np_bind_ok; [|reflexivity].
  erewrite np_bind_ok; cycle 1.
  { eapply fast_extract_bits_run; [reflexivity|lia]. }
  erewrite np_bind_ok; cycle 1.
  { apply np_read_ok. reflexivity. }
  cbn. rewrite Nat2Z.id, take_ge by (by rewrite length_map). reflexivity.
Qed.

Lemma digits_lsbs_uint8 (flat_img : list Z) :
  map digit_of_bit (map (fun x => Z.land x 1) (map (cast uint8) flat_img))
  = lsbs flat_img.
Proof.
  unfold lsbs. rewrite !map_map. apply map_ext. intros x.
  by rewrite digit_of_lsb, lsb_cast_uint8.
Qed.

Lemma digits_lsbs (samples : list Z) :
  map (fun sample => digit_of_bit (Z.land sample 1)) samples = lsbs samples.
Proof. unfold lsbs. apply map_ext. intros x. apply digit_of_lsb. Qed.

Lemma slice_0_take {A} (s : list A) (i : nat) :
  slice s 0 (Z.of_nat i) = take i s.
Proof.
  unfold slice. rewrite Z2Nat.inj_0, drop_0. f_equal. lia.
Qed.

(** Every string has a first occurrence of the marker or none at all. *)
Lemma first_or_none (sub s : bits) :
  (exists i, first_occurrence sub s i) \/ no_occurrence sub s.
Proof.
  destruct (find_from sub s 0) as [k|] eqn:E.
  - left. apply find_from_Some in E as (i & _ & Hi). by exists i.
  - right. by eapply find_from_None.
Qed.

Section WithLibraries.
Context `{!PyText, !Pillow, !FloatFormat}.

Lemma extract_image_found w image_path img_array i :
  load_image_array image_path w = (Ok img_array, w) ->
  first_occurrence END_MARKER (lsbs (nd_flat img_array)) i ->
  (extract_message_from_image image_path w).1
  = binary_to_text (take i (lsbs (nd_flat img_array))).
Proof.
  intros Hload Hi.
  unfold extract_message_from_image, io_try, extract_message_from_image_body.
  rewrite (io_bind_ok _ _ _ _ _ Hload).
  unfold io_lift at 1. rewrite extracted_digits.
  erewrite io_bind_ok; [|reflexivity].
  rewrite digits_lsbs_uint8, (str_find_first _ _ _ Hi).
  destruct (Z.eqb_spec (Z.of_nat i) (-1)) as [?|_]; [lia|].
  rewrite slice_0_take.
  destruct (binary_to_text_returns (take i (lsbs (nd_flat img_array))))
    as [text Htext].
  rewrite Htext. unfold io_lift. erewrite io_bind_ok; [|reflexivity].
  reflexivity.
Qed.

Lemma extract_image_not_found w image_path img_array :
  load_image_array image_path w = (Ok img_array, w) ->
  no_occurrence END_MARKER (lsbs (nd_flat img_array)) ->
  (extract_message_from_image image_path w).1
  = Raise (MkExn ValueError
      (lit "End marker not found. This may not be a valid stego image.")).
Proof.
  intros Hload Hno.
  unfold extract_message_from_image, io_try, extract_message_from_image_body.
  rewrite (io_bind_ok _ _ _ _ _ Hload).
  unfold io_lift at 1. rewrite extracted_digits.
  erewrite io_bind_ok; [|reflexivity].
  rewrite digits_lsbs_uint8, (str_find_none _ _ Hno).
  reflexivity.
Qed.

Lemma extract_audio_found w audio_path audio samples i :
  wave_open_read audio_path w = (Ok audio, w) ->
  np_frombuffer_int16 (wv_frames audio) = Ok samples ->
  first_occurrence END_MARKER (lsbs samples) i ->
  (extract_message_from_audio audio_path w).1
  = binary_to_text (take i (lsbs samples)).
Proof.
  intros Hopen Hsamples Hi.
  unfold extract_message_from_audio, io_try, extract_message_from_audio_body.
  rewrite (io_bind_ok _ _ _ _ _ Hopen).
  unfold io_lift at 1. rewrite Hsamples.
  erewrite io_bind_ok; [|reflexivity].
  rewrite digits_lsbs, (str_find_first _ _ _ Hi).
  destruct (Z.eqb_spec (Z.of_nat i) (-1)) as [?|_]; [lia|].
  rewrite slice_0_take.
  destruct (binary_to_text_returns (take i (lsbs samples))) as [text Htext].
  rewrite Htext. unfold io_lift. erewrite io_bind_ok; [|reflexivity].
  reflexivity.
Qed.

Lemma extract_audio_not_found w audio_path audio samples :
  wave_open_read audio_path w = (Ok audio, w) ->
  np_frombuffer_int16 (wv_frames audio) = Ok samples ->
  no_occurrence END_MARKER (lsbs samples) ->
  (extract_message_from_audio audio_path w).1
  = Raise (MkExn ValueError
      (lit "End marker not found. This may not be a valid stego audio file.")).
Proof.
  intros Hopen Hsamples Hno.
  unfold extract_message_from_audio, io_try, extract_message_from_audio_body.
  rewrite (io_bind_ok _ _ _ _ _ Hopen).
  unfold io_lift at 1. rewrite Hsamples.
  erewrite io_bind_ok; [|reflexivity].
  rewrite digits_lsbs, (str_find_none _ _ Hno).
  reflexivity.
Qed.


(** C4. Unframe semantics: for every string of digits read from the least
    significant bits of a carrier (an image, a wave file), the extraction
    decodes exactly the digits strictly before the first occurrence of the
    16-digit END_MARKER (so an occurrence of the pattern inside the payload
    cuts the payload short), and raises the "End marker not found"
    [ValueError] when the marker occurs nowhere; one of the two is always
    the case. *)
Theorem unframe_semantics :
  (forall w image_path img_array,
     load_image_array image_path w = (Ok img_array, w) ->
     (forall i, first_occurrence END_MARKER (lsbs (nd_flat img_array)) i ->
        (extract_message_from_image image_path w).1
        = binary_to_text (take i (lsbs (nd_flat img_array)))) /\
     (no_occurrence END_MARKER (lsbs (nd_flat img_array)) ->
        (extract_message_from_image image_path w).1
        = Raise (MkExn ValueError
            (lit "End marker not found. This may not be a valid stego image.")))) /\
  (forall w audio_path audio samples,
     wave_open_read audio_path w = (Ok audio, w) ->
     np_frombuffer_int16 (wv_frames audio) = Ok samples ->
     (forall i, first_occurrence END_MARKER (lsbs samples) i ->
        (extract_message_from_audio audio_path w).1
        = binary_to_text (take i (lsbs samples))) /\
     (no_occurrence END_MARKER (lsbs samples) ->
        (extract_message_from_audio audio_path w).1
        = Raise (MkExn ValueError
            (lit "End marker not found. This may not be a valid stego audio file.")))) /\
  (forall digits : bits,
     (exists i, first_occurrence END_MARKER digits i)
     \/ no_occurrence END_MARKER digits).
Proof.
  split; [|split].
  - intros w image_path img_array Hload. split.
    + intros i Hi. by apply extract_image_found.
    + by apply extract_image_not_found.
  - intros w audio_path audio samples Hopen Hsamples. split.
    + intros i Hi. by eapply extract_audio_found.
    + by eapply extract_audio_not_found.
  - intros digits. apply first_or_none.
Qed.

End WithLibraries.

(** The first occurrence, computed by the search. *)
Lemma first_occurrence_computed (sub s : bits) (i : nat) :
  find_from sub s 0 = Some (Z.of_nat i) -> first_occurrence sub s i.
Proof.
  intros Hf. apply find_from_Some in Hf as (k & Hk & Hfirst).
  by replace i with k by lia.
Qed.

(** ** A stego image of eight pixels *)

Lemma unframe_semantics_witness :
  (@extract_message_from_image plain_text pillow_grey (lit "a.png") world_A).1
  = binary_to_text (take 8 (lsbs (im_px stego_A))).
Proof.
  apply (proj1 (proj1 (@unframe_semantics plain_text pillow_grey)
                  world_A (lit "a.png") (np_array_of_image stego_A)
                  eq_refl) 8%nat).
  apply first_occurrence_computed. vm_compute. reflexivity.
Defined.

(** What the caller gets there, and what becomes of a payload that
    contains the pattern of the marker: the extraction stops at it. *)
Example extract_A :
  (@extract_message_from_image plain_text pillow_grey (lit "a.png") world_A).1 = Ok (lit "A").
Proof. vm_compute. reflexivity. Qed.

Example marker_inside_payload :
  text_to_binary (lit "UUUA")
    = Ok (format_08b 85 ++ format_08b 85 ++ format_08b 85 ++ format_08b 65) /\
  str_find (format_08b 85 ++ format_08b 85 ++ format_08b 85 ++ format_08b 65
            ++ END_MARKER) END_MARKER = 1.
Proof. split; reflexivity. Qed.

End UnframeProofs.

(* ================================================================== *)
(** * Properties, 4.  Hiding a message: capacity, files, exceptions     *)
(* ================================================================== *)

Module HideProofs.
Import CodecProofs EmbedProofs UnframeProofs.

(** ** Inversion of computations in the world *)

Lemma io_bind_inv {A B} (m : io A) (f : A -> io B) w r w' :
  (m ≫= f) w = (r, w') ->
  (exists a w1, m w = (Ok a, w1) /\ f a w1 = (r, w')) \/
  (exists e, m w = (Raise e, w') /\ r = Raise e).
Proof.
  unfold mbind, io_bind. destruct (m w) as [[a|e] w1].
  - intros Hf. left. by exists a, w1.
  - intros [= <- <-]. right. by exists e.
Qed.

Lemma io_bind_lift {A B} (m : result A) (f : A -> io B) w :
  (io_lift m ≫= f) w
  = match m with Ok a => f a w | Raise e => (Raise e, w) end.
Proof. unfold mbind, io_bind, io_lift. by destruct m. Qed.

Lemma reads_only_lift {A} (m : result A) : reads_only (io_lift m).
Proof. by intros w r w' [= <- <-]. Qed.

Lemma reads_only_raise {A} (e : exn) : reads_only (@io_raise A e).
Proof. by intros w r w' [= <- <-]. Qed.

Lemma reads_only_ret {A} (a : A) : reads_only (mret a : io A).
Proof. by intros w r w' [= <- <-]. Qed.

Lemma reads_only_bind {A B} (m : io A) (f : A -> io B) :
  reads_only m -> (forall a, reads_only (f a)) -> reads_only (m ≫= f).
Proof.
  intros Hm Hf w r w' Hrun.
  apply io_bind_inv in Hrun as [(a & w1 & Hm1 & Hf1)|(e & Hm1 & _)].
  - rewrite <- (Hm _ _ _ Hm1). by eapply Hf.
  - by eapply Hm.
Qed.

Section WithTexts.
Context `{!PyText}.

Lemma reads_only_Image_open path : reads_only (Image_open path).
Proof.
  intros w r w'. unfold Image_open.
  destruct (fs w !! path) as [[]|]; by intros [= <- <-].
Qed.

Lemma reads_only_wave_open_read path : reads_only (wave_open_read path).
Proof.
  intros w r w'. unfold wave_open_read.
  destruct (fs w !! path) as [[]|]; by intros [= <- <-].
Qed.

Lemma write_file_cases path f w r w' :
  write_file path f w = (r, w') ->
  (exists e, r = Raise e /\ w' = w) \/
  (r = Ok tt /\ read_only w path = false /\ w' = stored w path f).
Proof.
  unfold write_file. destruct (read_only w path) eqn:E; intros [= <- <-].
  - left. by eexists.
  - by right.
Qed.

Lemma stored_stored w path f g :
  stored (stored w path f) path g = stored w path g.
Proof. unfold stored. cbn [fs read_only stdout]. by rewrite insert_insert_eq. Qed.

Lemma valid_wave_params_dec params :
  (nchannels params <? 1) = false ->
  (sampwidth params <? 1) || (4 <? sampwidth params) = false ->
  (framerate params <=? 0) = false ->
  valid_wave_params params.
Proof.
  intros Hc Hs Hr. apply orb_false_iff in Hs as [Hs1 Hs4].
  unfold valid_wave_params. lia.
Qed.

(** What [wave_write] does: nothing when the path cannot be opened; a
    file that is no wave file is left when the writer refuses the
    parameters; otherwise the wave file is stored. *)
Lemma wave_write_cases path params data w r w' :
  wave_write path params data w = (r, w') ->
  (exists e, r = Raise e /\ w' = w) \/
  (exists e residue, r = Raise e /\ read_only w path = false /\
     ~ writer_accepts params (Z.of_nat (length data)) /\
     w' = stored w path (OtherFile residue)) \/
  (exists f, r = Ok tt /\ read_only w path = false /\
     writer_accepts params (Z.of_nat (length data)) /\
     w' = stored w path (WaveFile f)).
Proof.
  unfold wave_write. intros Hrun.
  apply io_bind_inv in Hrun as [([] & w1 & Hopen & Hrun)|(e & Hopen & ->)].
  2: { apply write_file_cases in Hopen as [(e' & _ & ->)|(? & _)]; [|done].
       left. by exists e. }
  apply write_file_cases in Hopen as [(e' & ? & _)|(_ & Hro & ->)]; [done|].
  right.
  destruct (nchannels params <? 1) eqn:Hc.
  { injection Hrun as <- <-. left. do 2 eexists. repeat split; try done.
    intros [(? & _) _]. lia. }
  destruct ((sampwidth params <? 1) || (4 <? sampwidth params)) eqn:Hs.
  { injection Hrun as <- <-. left. do 2 eexists. repeat split; try done.
    intros [(_ & ? & _) _]. apply orb_true_iff in Hs as [Hs|Hs]; lia. }
  destruct (framerate params <=? 0) eqn:Hr.
  { injection Hrun as <- <-. left. do 2 eexists. repeat split; try done.
    intros [(_ & _ & ?) _]. lia. }
  pose proof (valid_wave_params_dec _ Hc Hs Hr) as Hvalid.
  destruct (wave_header_ok params (Z.of_nat (length data))) eqn:Hh;
    cbn [negb] in Hrun.
  - right. unfold write_file in Hrun.
    cbn [read_only stored fs stdout] in Hrun.
    rewrite Hro in Hrun. injection Hrun as <- <-.
    eexists. split; [done|]. split; [done|]. split; [done|].
    unfold stored. by rewrite insert_insert_eq.
  - left. unfold mbind, io_bind, write_file, io_raise in Hrun.
    cbn [read_only stored fs stdout] in Hrun. rewrite Hro in Hrun.
    injection Hrun as <- <-. do 2 eexists. split; [done|]. split; [done|].
    split; [|unfold stored; by rewrite insert_insert_eq].
    intros [_ Hok]. congruence.
Qed.

Lemma wave_write_ok path params data w :
  read_only w path = false ->
  writer_accepts params (Z.of_nat (length data)) ->
  wave_write path params data w
  = (Ok tt,
     stored w path (WaveFile (MkWave
       (MkParams (nchannels params) (sampwidth params) (framerate params)
          (Z.of_nat (length data) / (nchannels params * sampwidth params)))
       data))).
Proof.
  intros Hro [(Hch & Hsw & Hfr) Hheader]. unfold wave_write.
  erewrite io_bind_ok; [|by unfold write_file; rewrite Hro].
  destruct (Z.ltb_spec (nchannels params) 1); [lia|].
  destruct (Z.ltb_spec (sampwidth params) 1); [lia|].
  destruct (Z.ltb_spec 4 (sampwidth params)); [lia|].
  destruct (Z.leb_spec (framerate params) 0); [lia|].
  cbn [orb]. rewrite Hheader. cbn [negb].
  unfold write_file. cbn [read_only fs stdout]. rewrite Hro.
  unfold stored. cbn [read_only fs stdout]. by rewrite insert_insert_eq.
Qed.

End WithTexts.

(** ** The embedded samples *)

Lemma embedded_in_dtype t (xs : list Z) (message : bits) n (R : list Z) :
  Forall (in_dtype t) xs -> embedded xs message n R ->
  (n <= length message)%nat -> Forall (in_dtype t) R.
Proof.
  intros Hxs (Hlen & Hlow & Hhigh) Hn. rewrite Forall_forall in Hxs.
  apply Forall_lookup. intros i y Hy.
  assert (i < length xs)%nat as Hi by (rewrite <- Hlen; by eapply lookup_lt_Some).
  destruct (lookup_lt_is_Some_2 xs i Hi) as [x Hx].
  pose proof (Hxs x (list_elem_of_lookup_2 _ _ _ Hx)) as Hxr.
  destruct (decide (i < n)%nat) as [Hin|Hin].
  - destruct (lookup_lt_is_Some_2 message i ltac:(lia)) as [b Hb].
    rewrite (Hlow i x b Hin Hx Hb) in Hy. injection Hy as <-.
    destruct t, b; simpl in *; dlia.
  - rewrite Hhigh, Hx in Hy by lia. by injection Hy as <-.
Qed.

(** The least significant bits after the embedding: the message, then
    the bits the carrier had. *)
Lemma embedded_lsbs (xs : list Z) (message : bits) (R : list Z) :
  embedding_frame xs message R -> (length message <= length xs)%nat ->
  lsbs R = message ++ drop (length message) (lsbs xs).
Proof.
  intros (Hlen & Hlow & Hhigh) Hle. apply list_eq. intros i.
  unfold lsbs. rewrite list_lookup_fmap.
  destruct (decide (i < length message)%nat) as [Hi|Hi].
  - rewrite lookup_app_l by done.
    destruct (lookup_lt_is_Some_2 message i Hi) as [b Hb].
    destruct (lookup_lt_is_Some_2 xs i ltac:(lia)) as [x Hx].
    destruct (Hlow i x b Hx Hb) as (y & -> & Hy0 & _). by rewrite Hb, <- Hy0.
  - rewrite lookup_app_r by lia. rewrite lookup_drop, list_lookup_fmap.
    rewrite Hhigh by lia. do 2 f_equal. lia.
Qed.

(** The embedding step of [hide_message_in_image], run in its own store. *)
Lemma embed_pixels_eval (flat_img : list Z) (message : bits) :
  Forall (in_dtype uint8) flat_img ->
  exists R,
    np_eval (
      flat ← np_new uint8 flat_img;
      binary_array ← np_new uint8 (map Z_of_bit message);
      flat ← fast_embed_pixels binary_array flat;
      a ← np_read flat;
      mret (a_data a)) = Ok R /\
    embedded flat_img message (Nat.min (length message) (length flat_img)) R.
Proof.
  intros Hflat. unfold np_eval.
  erewrite np_bind_ok; [|by apply np_new_ok].
  erewrite np_bind_ok; cycle 1.
  { apply np_new_ok. apply Forall_forall. intros v Hv.
    apply list_elem_of_fmap in Hv as (b & -> & _). by destruct b. }
  destruct (fast_embed_pixels_run
    ([] ++ [MkArray uint8 flat_img] ++ [MkArray uint8 (map Z_of_bit message)])
    1%nat 0%nat uint8 message flat_img eq_refl eq_refl Hflat) as (R & Hrun & HR).
  exists R. split; [|done].
  cbn [app length] in Hrun |- *.
  erewrite np_bind_ok; [|exact Hrun].
  erewrite np_bind_ok; [|by apply np_read_ok]. reflexivity.
Qed.

Section WithNumPy.
Context `{!NumPy}.

Lemma embed_samples_eval (audio_data : list Z) (message : bits) :
  numpy_promotion = ValueBased ->
  Forall (in_dtype int16) audio_data ->
  exists R,
    np_eval (
      audio ← np_new int16 audio_data;
      stego_data ← embed_samples audio message;
      a ← np_read stego_data;
      mret (a_data a)) = Ok R /\
    embedded audio_data message (length message) R.
Proof.
  intros Hvb Haudio. unfold np_eval.
  erewrite np_bind_ok; [|by apply np_new_ok].
  destruct (embed_samples_run ([] ++ [MkArray int16 audio_data]) 0%nat
              message audio_data Hvb eq_refl Haudio) as (R & Hrun & HR).
  exists R. split; [|done].
  cbn [app length] in Hrun |- *.
  erewrite np_bind_ok; [|exact Hrun].
  erewrite np_bind_ok; [|by apply np_read_ok]. reflexivity.
Qed.

Lemma embed_samples_eval_overflow (audio_data : list Z) (message : bits) :
  numpy_promotion = Weak ->
  Forall (in_dtype int16) audio_data ->
  audio_data <> [] -> message <> [] ->
  np_eval (
    audio ← np_new int16 audio_data;
    stego_data ← embed_samples audio message;
    a ← np_read stego_data;
    mret (a_data a))
  = Raise (MkExn OverflowError
             (lit "Python integer 65534 out of bounds for int16")).
Proof.
  intros Hweak Haudio Hne Hmne. unfold np_eval.
  erewrite np_bind_ok; [|by apply np_new_ok].
  erewrite np_bind_raise; [done|].
  by apply (embed_samples_overflow _ _ _ audio_data).
Qed.

End WithNumPy.

Section WithLibraries.
Context `{!PyText, !NumPy, !Pillow, !FloatFormat}.

Lemma reads_only_load_image_array path : reads_only (load_image_array path).
Proof.
  unfold load_image_array.
  apply reads_only_bind; [apply reads_only_Image_open|]. intros img.
  apply reads_only_bind; [|intros; apply reads_only_ret].
  destruct (decide _); [apply reads_only_ret|apply reads_only_lift].
Qed.

(** What a run of the [try] block of [hide_message_in_image] can be: an
    exception with the world untouched, or [True] with the stego image
    stored at [output_path] and one line printed. *)
Lemma hide_image_body_cases image_path encrypted_message output_path w r w' :
  hide_message_in_image_body image_path encrypted_message output_path w
    = (r, w') ->
  (exists e, r = Raise e /\ w' = w) \/
  (exists stego line, r = Ok true /\ read_only w output_path = false /\
     w' = printed (stored w output_path (ImageFile stego)) line).
Proof.
  unfold hide_message_in_image_body. intros Hrun.
  apply io_bind_inv in Hrun as [(arr & w1 & Hload & Hrun)|(e & Hload & ->)].
  2: { left. exists e. split; [done|]. by eapply reads_only_load_image_array. }
  apply reads_only_load_image_array in Hload as ->.
  apply io_bind_inv in Hrun as [([h wd] & w1 & [= Hhw <-] & Hrun)|(e & [= He <-] & ->)].
  2: { left. by exists e. }
  apply io_bind_inv in Hrun as [(msg & w1 & [= Hmsg <-] & Hrun)|(e & [= He <-] & ->)].
  2: { left. by exists e. }
  destruct (_ >? _).
  { injection Hrun as <- <-. left. by eexists. }
  apply io_bind_inv in Hrun as [(flat & w1 & [= Hflat <-] & Hrun)|(e & [= He <-] & ->)].
  2: { left. by exists e. }
  apply io_bind_inv in Hrun as [(sa & w1 & [= Hsa <-] & Hrun)|(e & [= He <-] & ->)].
  2: { left. by exists e. }
  apply io_bind_inv in Hrun as [(si & w1 & [= Hsi <-] & Hrun)|(e & [= He <-] & ->)].
  2: { left. by exists e. }
  apply io_bind_inv in Hrun as [([] & w1 & Hwrite & Hrun)|(e & Hwrite & ->)].
  2: { apply write_file_cases in Hwrite as [(e' & _ & ->)|(? & _)]; [|done].
       left. by exists e. }
  apply write_file_cases in Hwrite as [(e' & ? & _)|(_ & Hro & ->)]; [done|].
  apply io_bind_inv in Hrun as [([] & w1 & [= <-] & Hrun)|(e & [=] & _)].
  injection Hrun as <- <-. right. by do 2 eexists.
Qed.


Lemma length_framed (utf8_bytes : bytes) :
  Z.of_nat (length (framed utf8_bytes)) = framed_length utf8_bytes.
Proof.
  unfold framed, framed_length. rewrite length_app.
  change (length END_MARKER) with 16%nat.
  assert (length (concat (map format_08b utf8_bytes))
          = (8 * length utf8_bytes)%nat) as ->; [|lia].
  induction utf8_bytes as [|b l IH]; [done|].
  cbn [map concat]. rewrite length_app, IH, length_format_08b. simpl. lia.
Qed.

Lemma framed_message (encrypted_message : str) (utf8_bytes : bytes) :
  str_encode_utf8 encrypted_message = Ok utf8_bytes ->
  (b ← text_to_binary encrypted_message; mret (b ++ END_MARKER))
  = Ok (framed utf8_bytes).
Proof. intros Henc. unfold text_to_binary. by rewrite Henc. Qed.

Lemma image_carrier_load w path im :
  image_carrier w path im ->
  load_image_array path w = (Ok (np_array_of_image im), w) /\
  wf_image im /\ (getbands (im_mode im) = 3 \/ getbands (im_mode im) = 4).
Proof.
  intros (im0 & Hfile & Hwf & Hmode). unfold load_image_array.
  erewrite io_bind_ok; cycle 1.
  { unfold Image_open. by rewrite Hfile. }
  destruct (decide _) as [Hin|Hnot].
  - subst im0. split; [done|]. split; [done|].
    apply elem_of_cons in Hin as [->|Hin]; [by left|].
    apply list_elem_of_singleton in Hin as ->. by right.
  - unfold io_lift. rewrite Hmode.
    destruct (Image_convert_ok _ _ _ Hwf Hmode) as (Hwf' & -> & _).
    split; [done|]. split; [done|by left].
Qed.

(** The array of an RGB or RGBA image: height, width and bands. *)
Lemma image_array_shape im :
  wf_image im -> getbands (im_mode im) = 3 \/ getbands (im_mode im) = 4 ->
  let arr := np_array_of_image im in
  shape_hw (nd_shape arr) = Ok (im_height im, im_width im) /\
  shape_channels (nd_shape arr) = getbands (im_mode im) /\
  im_height im * im_width im * getbands (im_mode im)
    = Z.of_nat (length (im_px im)) /\
  Forall (in_dtype uint8) (nd_flat arr).
Proof.
  intros (_ & _ & Hlen & Hpx) Hb. unfold np_array_of_image.
  destruct (Z.eqb_spec (getbands (im_mode im)) 1) as [E|_]; [lia|].
  by repeat split.
Qed.

(** The image that [Image.fromarray] builds from the embedded samples. *)
Lemma stego_image im (R : list Z) :
  wf_image im -> getbands (im_mode im) = 3 \/ getbands (im_mode im) = 4 ->
  length R = length (im_px im) -> Forall (in_dtype uint8) R ->
  (stego_array ← reshape R (nd_shape (np_array_of_image im));
   Image_fromarray stego_array)
  = Ok (MkImage (if getbands (im_mode im) =? 3 then lit "RGB" else lit "RGBA")
          (im_width im) (im_height im) R).
Proof.
  intros (_ & _ & Hlen & _) Hb HR HRr. unfold np_array_of_image, reshape.
  destruct (Z.eqb_spec (getbands (im_mode im)) 1) as [E|_]; [lia|].
  cbn [nd_shape fold_right].
  destruct (Z.eqb_spec (Z.of_nat (length R))
              (im_height im * (im_width im * (getbands (im_mode im) * 1))))
    as [_|Hne]; [|lia].
  unfold mbind, result_bind, Image_fromarray. cbn [nd_shape nd_flat].
  rewrite map_cast_in_dtype by done.
  destruct Hb as [-> | ->]; reflexivity.
Qed.

Lemma hide_image_too_large w image_path im encrypted_message utf8_bytes
    output_path :
  image_carrier w image_path im ->
  str_encode_utf8 encrypted_message = Ok utf8_bytes ->
  Z.of_nat (length (im_px im)) < framed_length utf8_bytes ->
  hide_message_in_image_body image_path encrypted_message output_path w
  = (Raise (MkExn ValueError
       (too_large_message (Z.of_nat (length (im_px im)))
          (framed_length utf8_bytes))), w).
Proof.
  intros Hc Henc Hlarge.
  destruct (image_carrier_load _ _ _ Hc) as (Hload & Hwf & Hb).
  destruct (image_array_shape _ Hwf Hb) as (Hhw & Hch & Hcap & Hpx).
  unfold hide_message_in_image_body.
  rewrite (io_bind_ok _ _ _ _ _ Hload).
  rewrite io_bind_lift, Hhw, io_bind_lift, (framed_message _ _ Henc).
  rewrite Hch, Hcap, length_framed.
  destruct (Z.gtb_spec (framed_length utf8_bytes) (Z.of_nat (length (im_px im))));
    [done|lia].
Qed.

Lemma hide_image_fits w image_path im encrypted_message utf8_bytes
    output_path :
  image_carrier w image_path im ->
  str_encode_utf8 encrypted_message = Ok utf8_bytes ->
  framed_length utf8_bytes <= Z.of_nat (length (im_px im)) ->
  read_only w output_path = false ->
  exists R line,
    hide_message_in_image_body image_path encrypted_message output_path w
    = (Ok true,
       printed (stored w output_path (ImageFile
         (MkImage (if getbands (im_mode im) =? 3 then lit "RGB" else lit "RGBA")
            (im_width im) (im_height im) R))) line) /\
    embedding_frame (im_px im) (framed utf8_bytes) R /\
    Forall (in_dtype uint8) R.
Proof.
  intros Hc Henc Hfits Hro.
  destruct (image_carrier_load _ _ _ Hc) as (Hload & Hwf & Hb).
  destruct (image_array_shape _ Hwf Hb) as (Hhw & Hch & Hcap & Hpx).
  destruct (embed_pixels_eval (im_px im) (framed utf8_bytes) Hpx)
    as (R & Heval & HR).
  pose proof (length_framed utf8_bytes) as Hlen.
  assert (embedding_frame (im_px im) (framed utf8_bytes) R) as Hframe
    by (eapply embedded_frame; [exact HR|lia..]).
  pose proof (embedded_in_dtype _ _ _ _ _ Hpx HR ltac:(lia)) as HRr.
  exists R. eexists. split; [|done].
  unfold hide_message_in_image_body.
  rewrite (io_bind_ok _ _ _ _ _ Hload).
  rewrite io_bind_lift, Hhw, io_bind_lift, (framed_message _ _ Henc).
  rewrite Hch, Hcap, Hlen.
  destruct (Z.gtb_spec (framed_length utf8_bytes) (Z.of_nat (length (im_px im))));
    [lia|].
  rewrite io_bind_lift. change (nd_flat (np_array_of_image im)) with (im_px im).
  rewrite Heval.
  pose proof (stego_image im R Hwf Hb (proj1 Hframe)
                (embedded_in_dtype _ _ _ _ _ Hpx HR ltac:(lia))) as Hstego.
  unfold mbind at 1, result_bind in Hstego.
  destruct (reshape R _) as [sa|e]; [|discriminate].
  rewrite io_bind_lift, io_bind_lift, Hstego.
  erewrite io_bind_ok; cycle 1.
  { unfold write_file. rewrite Hro. reflexivity. }
  erewrite io_bind_ok; [|reflexivity]. reflexivity.
Qed.


(** The same for [hide_message_in_audio]; here an exception may leave a
    file at [output_path] that is no wave file, when the writer refuses
    the parameters of the cover after it has opened the file. *)
Lemma hide_audio_body_cases audio_path encrypted_message output_path w r w' :
  hide_message_in_audio_body audio_path encrypted_message output_path w
    = (r, w') ->
  (exists e, r = Raise e /\ w' = w) \/
  (exists e cover n residue, r = Raise e /\
     fs w !! audio_path = Some (WaveFile cover) /\
     ~ writer_accepts (wv_params cover) n /\
     read_only w output_path = false /\
     w' = stored w output_path (OtherFile residue)) \/
  (exists stego line, r = Ok true /\ read_only w output_path = false /\
     w' = printed (stored w output_path (WaveFile stego)) line).
Proof.
  unfold hide_message_in_audio_body. intros Hrun.
  apply io_bind_inv in Hrun as [(audio & w1 & Hopen & Hrun)|(e & Hopen & ->)].
  2: { left. exists e. split; [done|]. by eapply reads_only_wave_open_read. }
  assert (fs w !! audio_path = Some (WaveFile audio)) as Hcover.
  { unfold wave_open_read in Hopen.
    destruct (fs w !! audio_path) as [[| |]|]; by inversion Hopen. }
  apply reads_only_wave_open_read in Hopen as ->.
  apply io_bind_inv in Hrun as [(data & w1 & [= Hdata <-] & Hrun)|(e & [= He <-] & ->)].
  2: { left. by exists e. }
  apply io_bind_inv in Hrun as [(msg & w1 & [= Hmsg <-] & Hrun)|(e & [= He <-] & ->)].
  2: { left. by exists e. }
  destruct (_ >? _).
  { injection Hrun as <- <-. left. by eexists. }
  apply io_bind_inv in Hrun as [(stego & w1 & [= Hstego <-] & Hrun)|(e & [= He <-] & ->)].
  2: { left. by exists e. }
  apply io_bind_inv in Hrun as [([] & w1 & Hwrite & Hrun)|(e & Hwrite & ->)].
  2: { apply wave_write_cases in Hwrite
         as [(e' & _ & ->)|[(e' & residue & _ & Hro & Hno & ->)|(f & ? & _)]];
         [by left; exists e| |done].
       right. left.
       by exists e, audio, (Z.of_nat (length (tobytes_int16 stego))), residue. }
  apply wave_write_cases in Hwrite
    as [(e' & ? & _)|[(e' & residue & ? & _)|(f & _ & Hro & _ & ->)]];
    [done|done|].
  apply io_bind_inv in Hrun as [([] & w1 & [= <-] & Hrun)|(e & [=] & _)].
  injection Hrun as <- <-. right. right. by do 2 eexists.
Qed.

Lemma audio_carrier_open w path params samples :
  audio_carrier w path params samples ->
  exists wv, wave_open_read path w = (Ok wv, w) /\ wv_params wv = params /\
    np_frombuffer_int16 (wv_frames wv) = Ok samples /\
    valid_wave_params params.
Proof.
  intros (wv & Hfile & Hp & Hvalid & Hs). exists wv.
  unfold wave_open_read. by rewrite Hfile.
Qed.

Lemma frombuffer_in_dtype (frames : bytes) : forall samples,
  np_frombuffer_int16 frames = Ok samples -> Forall (in_dtype int16) samples.
Proof.
  induction frames as [frames IH] using (induction_ltof1 _ (@length Z)).
  unfold ltof in IH. intros samples.
  destruct frames as [|lo [|hi rest]]; cbn [np_frombuffer_int16].
  - by intros [= <-].
  - discriminate.
  - destruct (np_frombuffer_int16 rest) as [l|e] eqn:E; [|discriminate].
    intros [= <-]. constructor.
    + simpl. dlia.
    + apply (IH rest); [simpl; lia|done].
Qed.

Lemma hide_audio_too_large w audio_path params samples encrypted_message
    utf8_bytes output_path :
  audio_carrier w audio_path params samples ->
  str_encode_utf8 encrypted_message = Ok utf8_bytes ->
  Z.of_nat (length samples) < framed_length utf8_bytes ->
  hide_message_in_audio_body audio_path encrypted_message output_path w
  = (Raise (MkExn ValueError
       (too_large_message (Z.of_nat (length samples))
          (framed_length utf8_bytes))), w).
Proof.
  intros Hc Henc Hlarge.
  destruct (audio_carrier_open _ _ _ _ Hc) as (wv & Hopen & Hp & Hs & Hvalid).
  unfold hide_message_in_audio_body.
  rewrite (io_bind_ok _ _ _ _ _ Hopen).
  rewrite io_bind_lift, Hs, io_bind_lift, (framed_message _ _ Henc).
  rewrite length_framed.
  destruct (Z.gtb_spec (framed_length utf8_bytes) (Z.of_nat (length samples)));
    [done|lia].
Qed.

Lemma length_tobytes_int16 (R : list Z) :
  Z.of_nat (length (tobytes_int16 R)) = 2 * Z.of_nat (length R).
Proof.
  unfold tobytes_int16. induction R as [|v R IH]; [done|].
  cbn [flat_map length app]. lia.
Qed.

Lemma hide_audio_fits w audio_path params samples encrypted_message
    utf8_bytes output_path :
  numpy_promotion = ValueBased ->
  audio_carrier w audio_path params samples ->
  header_fits params samples ->
  str_encode_utf8 encrypted_message = Ok utf8_bytes ->
  framed_length utf8_bytes <= Z.of_nat (length samples) ->
  read_only w output_path = false ->
  exists R line,
    hide_message_in_audio_body audio_path encrypted_message output_path w
    = (Ok true,
       printed (stored w output_path (WaveFile (MkWave
         (MkParams (nchannels params) (sampwidth params) (framerate params)
            (Z.of_nat (length (tobytes_int16 R))
             / (nchannels params * sampwidth params)))
         (tobytes_int16 R)))) line) /\
    embedding_frame samples (framed utf8_bytes) R /\
    Forall (in_dtype int16) R.
Proof.
  intros Hvb Hc Hheader Henc Hfits Hro.
  destruct (audio_carrier_open _ _ _ _ Hc)
    as (wv & Hopen & Hp & Hs & Hch & Hsw & Hfr).
  pose proof (frombuffer_in_dtype _ _ Hs) as Hrange.
  destruct (embed_samples_eval samples (framed utf8_bytes) Hvb Hrange)
    as (R & Heval & HR).
  pose proof (length_framed utf8_bytes) as Hlen.
  assert (embedding_frame samples (framed utf8_bytes) R) as Hframe
    by (eapply embedded_frame; [exact HR|lia..]).
  exists R. eexists. split; [|split; [done|]].
  2: { eapply embedded_in_dtype; [exact Hrange|exact HR|lia]. }
  unfold hide_message_in_audio_body.
  rewrite (io_bind_ok _ _ _ _ _ Hopen).
  rewrite io_bind_lift, Hs, io_bind_lift, (framed_message _ _ Henc).
  rewrite Hlen.
  destruct (Z.gtb_spec (framed_length utf8_bytes) (Z.of_nat (length samples)));
    [lia|].
  rewrite io_bind_lift, Heval, Hp.
  erewrite io_bind_ok; cycle 1.
  { apply wave_write_ok; [done|]. split; [done|].
    rewrite length_tobytes_int16, (proj1 Hframe). exact Hheader. }
  erewrite io_bind_ok; [|reflexivity]. reflexivity.
Qed.

(** Under NumPy 2 a message that fits is not hidden: the first step of
    the loop raises, before anything is written. *)
Lemma hide_audio_overflow w audio_path params samples encrypted_message
    utf8_bytes output_path :
  numpy_promotion = Weak ->
  audio_carrier w audio_path params samples ->
  str_encode_utf8 encrypted_message = Ok utf8_bytes ->
  framed_length utf8_bytes <= Z.of_nat (length samples) ->
  hide_message_in_audio_body audio_path encrypted_message output_path w
  = (Raise (MkExn OverflowError
              (lit "Python integer 65534 out of bounds for int16")), w).
Proof.
  intros Hweak Hc Henc Hfits.
  destruct (audio_carrier_open _ _ _ _ Hc)
    as (wv & Hopen & Hp & Hs & Hvalid).
  pose proof (frombuffer_in_dtype _ _ Hs) as Hrange.
  pose proof (length_framed utf8_bytes) as Hlen.
  unfold hide_message_in_audio_body.
  rewrite (io_bind_ok _ _ _ _ _ Hopen).
  rewrite io_bind_lift, Hs, io_bind_lift, (framed_message _ _ Henc).
  rewrite Hlen.
  destruct (Z.gtb_spec (framed_length utf8_bytes) (Z.of_nat (length samples)));
    [lia|].
  rewrite io_bind_lift.
  rewrite (embed_samples_eval_overflow samples (framed utf8_bytes) Hweak
             Hrange); [done| |].
  - intros ->. unfold framed_length in Hfits. simpl in Hfits. lia.
  - intros Hnil. rewrite Hnil in Hlen. unfold framed_length in Hlen.
    simpl in Hlen. lia.
Qed.


(** ** The public functions *)

Lemma hide_image_of_body image_path encrypted_message output_path w :
  hide_message_in_image image_path encrypted_message output_path w
  = match hide_message_in_image_body image_path encrypted_message output_path w
    with
    | (Ok b, w') => (Ok b, w')
    | (Raise e, w') => (Ok false, printed w' (image_error_line e))
    end.
Proof.
  unfold hide_message_in_image, io_try.
  by destruct (hide_message_in_image_body _ _ _ w) as [[b|e] w'].
Qed.

Lemma hide_audio_of_body audio_path encrypted_message output_path w :
  hide_message_in_audio audio_path encrypted_message output_path w
  = match hide_message_in_audio_body audio_path encrypted_message output_path w
    with
    | (Ok b, w') => (Ok b, w')
    | (Raise e, w') => (Ok false, printed w' (audio_error_line e))
    end.
Proof.
  unfold hide_message_in_audio, io_try.
  by destruct (hide_message_in_audio_body _ _ _ w) as [[b|e] w'].
Qed.


(** C10. The public hide operations never propagate an exception: on
    every input, [hide_message_in_image] and [hide_message_in_audio]
    return a boolean; they return [False] exactly when the [try] block
    raised (the capacity violation included), having printed the error;
    and they return [True] only with the stego file stored at the output
    path.  When [hide_message_in_image] returns [False] it has written no
    file.  When [hide_message_in_audio] returns [False] it has written no
    file either, except when the writer of [wave] refused the parameters of
    the cover after it had opened the output: a file that is no wave file
    is then left at the output path. *)
Theorem hide_never_raises :
  (forall image_path encrypted_message output_path w,
     exists b w',
       hide_message_in_image image_path encrypted_message output_path w
         = (Ok b, w') /\
       (b = true ->
          exists stego line, read_only w output_path = false /\
            w' = printed (stored w output_path (ImageFile stego)) line) /\
       (b = false ->
          exists e,
            hide_message_in_image_body image_path encrypted_message
              output_path w = (Raise e, w) /\
            w' = printed w (image_error_line e))) /\
  (forall audio_path encrypted_message output_path w,
     exists b w',
       hide_message_in_audio audio_path encrypted_message output_path w
         = (Ok b, w') /\
       (b = true ->
          exists stego line, read_only w output_path = false /\
            w' = printed (stored w output_path (WaveFile stego)) line) /\
       (b = false ->
          exists e w1,
            hide_message_in_audio_body audio_path encrypted_message
              output_path w = (Raise e, w1) /\
            w' = printed w1 (audio_error_line e) /\
            (w1 = w \/
             exists cover n residue,
               fs w !! audio_path = Some (WaveFile cover) /\
               ~ writer_accepts (wv_params cover) n /\
               read_only w output_path = false /\
               w1 = stored w output_path (OtherFile residue)))).
Proof.
  split.
  - intros image_path encrypted_message output_path w.
    rewrite hide_image_of_body.
    destruct (hide_message_in_image_body _ _ _ w) as [r w'] eqn:Hbody.
    destruct (hide_image_body_cases _ _ _ _ _ _ Hbody)
      as [(e & -> & ->)|(stego & line & -> & Hro & ->)].
    + do 2 eexists. split; [done|]. split; [done|]. intros _. by exists e.
    + do 2 eexists. split; [done|]. split; [|done]. intros _. by do 2 eexists.
  - intros audio_path encrypted_message output_path w.
    rewrite hide_audio_of_body.
    destruct (hide_message_in_audio_body _ _ _ w) as [r w'] eqn:Hbody.
    destruct (hide_audio_body_cases _ _ _ _ _ _ Hbody)
      as [(e & -> & ->)
         |[(e & cover & n & residue & -> & Hcover & Hno & Hro & ->)
          |(stego & line & -> & Hro & ->)]].
    + do 2 eexists. split; [done|]. split; [done|]. intros _.
      exists e, w. split; [done|]. split; [done|]. by left.
    + do 2 eexists. split; [done|]. split; [done|]. intros _.
      do 2 eexists. split; [done|]. split; [done|]. right.
      by exists cover, n, residue.
    + do 2 eexists. split; [done|]. split; [|done]. intros _. by do 2 eexists.
Qed.

End WithLibraries.



(** At the boundary: "A" needs exactly the 24 bits there are. *)
Example capacity_exactly_met :
  (@hide_message_in_image plain_text pillow_grey exact_format
     (lit "a.png") (lit "A") (lit "out.png") world_A).1 = Ok true /\
  (@hide_message_in_image plain_text pillow_grey exact_format
     (lit "a.png") (lit "AB") (lit "out.png") world_A).1 = Ok false /\
  too_large_message 24 32
  = lit "Message too large. Max capacity: 24 bits, Message: 32 bits".
Proof. repeat split; vm_compute; reflexivity. Qed.

(** The wave cover of 2000 samples. *)
Lemma audio_carrier_wave :
  audio_carrier world_wave (lit "cover.wav") (wv_params wave_2000)
    (replicate 2000 0).
Proof.
  exists wave_2000. split; [reflexivity|]. split; [reflexivity|].
  split; [by vm_compute|]. vm_compute. reflexivity.
Qed.

Lemma header_fits_wave : header_fits (wv_params wave_2000) (replicate 2000 0).
Proof. reflexivity. Qed.


(** A cover with the frame rate 0 can be read; under NumPy 1.x the writer
    opens the output and then refuses the parameters: [False] is returned
    and an empty file is left. *)
Example hide_audio_leaves_empty_file :
  let cover := MkWave (MkParams 1 2 0 20) (replicate 40 0) in
  let w := MkWorld {[ lit "still.wav" := WaveFile cover ]} (fun _ => false) []
  in
  @hide_message_in_audio plain_text numpy_1 exact_format (lit "still.wav")
    [] (lit "out.wav") w
  = (Ok false,
     printed (stored w (lit "out.wav") (OtherFile []))
       ([0x274C] ++ lit " Error hiding message in audio: "
        ++ lit "sampling rate not specified")).
Proof. vm_compute. reflexivity. Qed.

End HideProofs.

(* ================================================================== *)
(** * Properties, 5.  The capacity reports                              *)
(* ================================================================== *)

Module CapacityProofs.
Import CodecProofs EmbedProofs UnframeProofs HideProofs.

Section WithLibraries.
Context `{!PyText, !Pillow, !FloatFormat, !FileSizes}.

Lemma image_capacity_fields w path c :
  (get_image_capacity path w).1 = Ok (Report c) ->
  ic_max_bits c = ic_total_pixels c /\
  ic_max_characters c = ic_max_bits c / 8 /\
  ic_recommended_message_length c = ic_max_characters c - 50.
Proof.
  unfold get_image_capacity, io_try.
  match goal with
  | |- context [match ?m with _ => _ end] =>
      destruct m as [[c'|e] w'] eqn:Hbody; [|discriminate]
  end.
  apply io_bind_inv in Hbody as [(c0 & w1 & Hbody & [= <- <-])|(e & _ & [=])].
  intros [= <-].
  unfold get_image_capacity_body in Hbody.
  apply io_bind_inv in Hbody as [(arr & w2 & _ & Hbody)|(e & _ & [=])].
  apply io_bind_inv in Hbody as [([h wd] & w3 & _ & Hbody)|(e & _ & [=])].
  by injection Hbody as <- <-.
Qed.

Lemma image_capacity_of_carrier w path im :
  image_carrier w path im ->
  exists c, get_image_capacity path w = (Ok (Report c), w) /\
    ic_max_bits c = Z.of_nat (length (im_px im)).
Proof.
  intros Hc.
  destruct (image_carrier_load _ _ _ Hc) as (Hload & Hwf & Hb).
  destruct (image_array_shape _ Hwf Hb) as (Hhw & Hch & Hcap & Hpx).
  eexists. unfold get_image_capacity, io_try, get_image_capacity_body.
  erewrite io_bind_ok; cycle 1.
  { rewrite (io_bind_ok _ _ _ _ _ Hload), io_bind_lift, Hhw. reflexivity. }
  split; [reflexivity|]. cbn [ic_max_bits]. by rewrite Hch.
Qed.

Lemma audio_capacity_fields w path c :
  (get_audio_capacity path w).1 = Ok (Report c) ->
  ac_max_bits c = ac_total_samples c /\
  ac_max_characters c = ac_max_bits c / 8 /\
  ac_recommended_message_length c = ac_max_characters c - 50.
Proof.
  unfold get_audio_capacity, io_try.
  match goal with
  | |- context [match ?m with _ => _ end] =>
      destruct m as [[c'|e] w'] eqn:Hbody; [|discriminate]
  end.
  apply io_bind_inv in Hbody as [(c0 & w1 & Hbody & [= <- <-])|(e & _ & [=])].
  intros [= <-].
  unfold get_audio_capacity_body in Hbody.
  apply io_bind_inv in Hbody as [(audio & w2 & _ & Hbody)|(e & _ & [=])].
  apply io_bind_inv in Hbody as [(data & w3 & _ & Hbody)|(e & _ & [=])].
  destruct (_ =? 0); [discriminate|].
  by injection Hbody as <- <-.
Qed.

Lemma audio_capacity_of_carrier w path params samples :
  audio_carrier w path params samples ->
  exists c, get_audio_capacity path w = (Ok (Report c), w) /\
    ac_max_bits c = Z.of_nat (length samples).
Proof.
  intros Hc.
  destruct (audio_carrier_open _ _ _ _ Hc)
    as (wv & Hopen & Hp & Hs & Hch & Hsw & Hfr).
  eexists. unfold get_audio_capacity, io_try, get_audio_capacity_body.
  erewrite io_bind_ok; cycle 1.
  { rewrite (io_bind_ok _ _ _ _ _ Hopen), io_bind_lift, Hs, Hp.
    destruct (Z.eqb_spec (framerate params) 0); [lia|]. reflexivity. }
  by split.
Qed.

Lemma wav_estimate_fields w path e :
  (estimate_capacity_audio path w).1 = Ok (WavEstimate e) ->
  we_usable_chars e = we_usable_bytes e /\
  we_usable_bytes e = (we_total_samples e * we_channels e - 50) / 8.
Proof.
  unfold estimate_capacity_audio, io_try.
  match goal with
  | |- context [match ?m with _ => _ end] =>
      destruct m as [[c'|e'] w'] eqn:Hbody; [|discriminate]
  end.
  intros [= ->]. unfold estimate_capacity_audio_body in Hbody.
  destruct (endswith _ _).
  - apply io_bind_inv in Hbody as [(audio & w2 & _ & Hbody)|(e' & _ & [=])].
    destruct (_ || _); [discriminate|]. by injection Hbody as <- <-.
  - apply io_bind_inv in Hbody as [(sz & w2 & _ & Hbody)|(e' & _ & [=])].
    discriminate.
Qed.

(** C9, as the code has it.  The recommended message length of a capacity
    report is the capacity in characters (the embeddable bits divided by
    eight, rounded down) minus fifty: the reports of [get_image_capacity]
    and [get_audio_capacity] say so for every carrier they describe, where
    the embeddable bits are the number of elements of the carrier; the
    estimate of [utils.py] takes fifty bits off before it divides. *)
Theorem recommended_length_margin :
  (forall w path im, image_carrier w path im ->
     exists c, get_image_capacity path w = (Ok (Report c), w) /\
       ic_max_bits c = Z.of_nat (length (im_px im)) /\
       ic_max_characters c = ic_max_bits c / 8 /\
       ic_recommended_message_length c = ic_max_characters c - 50) /\
  (forall w path params samples, audio_carrier w path params samples ->
     exists c, get_audio_capacity path w = (Ok (Report c), w) /\
       ac_max_bits c = Z.of_nat (length samples) /\
       ac_max_characters c = ac_max_bits c / 8 /\
       ac_recommended_message_length c = ac_max_characters c - 50) /\
  (forall w path c, (get_image_capacity path w).1 = Ok (Report c) ->
     ic_recommended_message_length c = ic_max_bits c / 8 - 50) /\
  (forall w path c, (get_audio_capacity path w).1 = Ok (Report c) ->
     ac_recommended_message_length c = ac_max_bits c / 8 - 50) /\
  (forall w path e, (estimate_capacity_audio path w).1 = Ok (WavEstimate e) ->
     we_usable_chars e = (we_total_samples e * we_channels e - 50) / 8).
Proof.
  repeat split.
  - intros w path im Hc.
    destruct (image_capacity_of_carrier _ _ _ Hc) as (c & Hrun & Hbits).
    exists c. split; [done|]. split; [done|].
    eapply image_capacity_fields. by rewrite Hrun.
  - intros w path params samples Hc.
    destruct (audio_capacity_of_carrier _ _ _ _ Hc) as (c & Hrun & Hbits).
    exists c. split; [done|]. split; [done|].
    eapply audio_capacity_fields. by rewrite Hrun.
  - intros w path c Hc.
    destruct (image_capacity_fields _ _ _ Hc) as (_ & <- & ->). done.
  - intros w path c Hc.
    destruct (audio_capacity_fields _ _ _ Hc) as (_ & <- & ->). done.
  - intros w path e He.
    destruct (wav_estimate_fields _ _ _ He) as (-> & ->). done.
Qed.

End WithLibraries.

(** ** The cover of 30000 bits *)

Lemma image_carrier_cover :
  @image_carrier pillow_grey world_cover (lit "cover.png") cover_100.
Proof.
  exists cover_100. split; [reflexivity|]. split; [|reflexivity].
  split; [done|]. split; [done|]. split; [vm_compute; reflexivity|].
  apply Forall_replicate. unfold is_byte. lia.
Qed.

Lemma recommended_length_margin_witness :
  exists c,
    @get_image_capacity plain_text pillow_grey (lit "cover.png") world_cover
      = (Ok (Report c), world_cover) /\
    ic_max_bits c = Z.of_nat (length (im_px cover_100)) /\
    ic_max_characters c = ic_max_bits c / 8 /\
    ic_recommended_message_length c = ic_max_characters c - 50.
Proof.
  exact (proj1 (@recommended_length_margin plain_text pillow_grey exact_format raw_sizes)
           world_cover (lit "cover.png") cover_100 image_carrier_cover).
Defined.

(** C9 as stated fails: the report of the 30000-bit cover recommends 3700
    characters, fifty below its capacity of 3750 and not two. *)
Lemma recommended_length_counterexample :
  exists c,
    (@get_image_capacity plain_text pillow_grey (lit "cover.png") world_cover).1
      = Ok (Report c) /\
    ic_max_characters c = 3750 /\
    ic_recommended_message_length c = 3700 /\
    ic_recommended_message_length c <> ic_max_characters c - 2.
Proof.
  eexists. split; [vm_compute; reflexivity|]. by repeat split.
Qed.

End CapacityProofs.


(* ================================================================== *)
(** * Properties, 6.  Encryption                                        *)
(* ================================================================== *)

Module CryptoProofs.
Import CodecProofs.

(** ** Base64 *)

Lemma b64_index_char i : is_sextet i -> b64_index (b64_char i) = Some i.
Proof.
  unfold is_sextet, b64_index, b64_char. intros Hi.
  repeat match goal with
         | |- context [?a <? ?b] => destruct (Z.ltb_spec a b)
         | |- context [?a =? ?b] => destruct (Z.eqb_spec a b)
         | |- context [?a <=? ?b] => destruct (Z.leb_spec a b)
         end; cbn [andb]; try lia; f_equal; lia.
Qed.

Lemma b64_char_ascii i : is_sextet i -> 0 <= b64_char i < 128 /\ b64_char i <> PAD.
Proof.
  unfold is_sextet, b64_char, PAD. intros Hi.
  repeat match goal with
         | |- context [?a <? ?b] => destruct (Z.ltb_spec a b)
         | |- context [?a =? ?b] => destruct (Z.eqb_spec a b)
         end; lia.
Qed.

(** One character of the alphabet, read by the decoder. *)
Lemma a2b_char i rest quad_pos leftchar pads bin_data :
  is_sextet i ->
  a2b_base64 (b64_char i :: rest) quad_pos leftchar pads bin_data
  = if quad_pos =? 0 then a2b_base64 rest 1 i 0 bin_data
    else if quad_pos =? 1 then
      a2b_base64 rest 2 (i mod 16) 0
        (bin_data ++ [(leftchar * 4 + i / 16) mod 256])
    else if quad_pos =? 2 then
      a2b_base64 rest 3 (i mod 4) 0
        (bin_data ++ [(leftchar * 16 + i / 4) mod 256])
    else
      a2b_base64 rest 0 0 0 (bin_data ++ [(leftchar * 64 + i) mod 256]).
Proof.
  intros Hi. cbn [a2b_base64].
  destruct (b64_char_ascii i Hi) as [_ Hpad].
  destruct (Z.eqb_spec (b64_char i) PAD); [done|].
  by rewrite b64_index_char.
Qed.

Lemma a2b_pad_1 leftchar bin_data :
  a2b_base64 [PAD] 3 leftchar 0 bin_data = Ok bin_data.
Proof. reflexivity. Qed.

Lemma a2b_pad_2 leftchar bin_data :
  a2b_base64 [PAD; PAD] 2 leftchar 0 bin_data = Ok bin_data.
Proof. reflexivity. Qed.

Lemma a2b_encode (data : bytes) : forall bin_data,
  Forall is_byte data ->
  a2b_base64 (b64encode data) 0 0 0 bin_data = Ok (bin_data ++ data).
Proof.
  induction data as [data IH] using (induction_ltof1 _ (@length Z)).
  unfold ltof in IH. intros bin_data Hdata.
  destruct data as [|a [|b [|c rest]]]; cbn [b64encode app].
  - by rewrite app_nil_r.
  - inversion Hdata as [|? ? Ha _]; subst. unfold is_byte in Ha.
    rewrite !a2b_char by (unfold is_sextet; dlia).
    cbn [Z.eqb Pos.eqb]. rewrite a2b_pad_2. do 3 f_equal. dlia.
  - inversion Hdata as [|? ? Ha Hd]; subst.
    inversion Hd as [|? ? Hb _]; subst. unfold is_byte in Ha, Hb.
    rewrite !a2b_char by (unfold is_sextet; dlia).
    cbn [Z.eqb Pos.eqb]. rewrite a2b_pad_1, <- app_assoc. cbn [app].
    do 3 f_equal; [dlia|f_equal; dlia].
  - inversion Hdata as [|? ? Ha Hd]; subst.
    inversion Hd as [|? ? Hb Hd']; subst.
    inversion Hd' as [|? ? Hc Hrest]; subst. unfold is_byte in Ha, Hb, Hc.
    rewrite !a2b_char by (unfold is_sextet; dlia).
    cbn [Z.eqb Pos.eqb]. rewrite IH by (simpl; lia || done).
    rewrite <- !app_assoc. cbn [app].
    do 3 f_equal; [dlia|f_equal; [dlia|f_equal; dlia]].
Qed.

Lemma b64decode_encode (data : bytes) :
  Forall is_byte data -> b64decode (b64encode data) = Ok data.
Proof. intros H. unfold b64decode. by rewrite a2b_encode. Qed.


Lemma b64encode_ascii (data : bytes) :
  Forall is_byte data -> Forall is_ascii (b64encode data).
Proof.
  induction data as [data IH] using (induction_ltof1 _ (@length Z)).
  unfold ltof in IH. intros Hdata.
  assert (forall i, is_sextet i -> is_ascii (b64_char i)) as Hch
    by (intros i Hi; by destruct (b64_char_ascii i Hi)).
  assert (is_ascii PAD) as Hpad by (unfold is_ascii, PAD; lia).
  destruct data as [|a [|b [|c rest]]]; cbn [b64encode app].
  - constructor.
  - inversion Hdata as [|? ? Ha _]; subst. unfold is_byte in Ha.
    repeat constructor; try done; apply Hch; unfold is_sextet; dlia.
  - inversion Hdata as [|? ? Ha Hd]; subst.
    inversion Hd as [|? ? Hb _]; subst. unfold is_byte in Ha, Hb.
    repeat constructor; try done; apply Hch; unfold is_sextet; dlia.
  - inversion Hdata as [|? ? Ha Hd]; subst.
    inversion Hd as [|? ? Hb Hd']; subst.
    inversion Hd' as [|? ? Hc Hrest]; subst. unfold is_byte in Ha, Hb, Hc.
    repeat (constructor; [apply Hch; unfold is_sextet; dlia|]).
    apply IH; [simpl; lia|done].
Qed.

Lemma decode_ascii (s : bytes) mode :
  Forall is_ascii s -> bytes_decode_utf8 mode s = Ok s.
Proof.
  induction 1 as [|c s Hc _ IH]; [done|].
  rewrite decode_1 by exact Hc. by rewrite IH.
Qed.

Lemma encode_ascii (s : str) :
  Forall is_ascii s -> str_encode_utf8 s = Ok s.
Proof.
  induction 1 as [|c s Hc _ IH]; [done|]. cbn [str_encode_utf8].
  unfold utf8_encode_char. unfold is_ascii in Hc.
  destruct (Z.ltb_spec c 128); [|lia]. by rewrite IH.
Qed.

Lemma ascii_valid (s : str) : Forall is_ascii s -> valid_str s.
Proof.
  intros H. eapply Forall_impl; [exact H|]. intros c Hc.
  unfold is_ascii in Hc. unfold is_scalar, is_surrogate. lia.
Qed.

(** ** PKCS#7 padding *)

Lemma last_replicate (l : bytes) (k : nat) (v d : Z) :
  List.last (l ++ replicate (S k) v) d = v.
Proof.
  rewrite replicate_S_end, app_assoc. apply last_last.
Qed.

Lemma pad_length (data : bytes) :
  exists n, (length (pad data) = 16 * S n)%nat.
Proof.
  unfold pad. rewrite length_app, length_replicate.
  exists (length data / 16)%nat.
  pose proof (Nat.div_mod_eq (length data) 16).
  pose proof (Nat.mod_upper_bound (length data) 16). lia.
Qed.

Lemma unpad_pad (data : bytes) : unpad (pad data) = Ok data.
Proof.
  destruct (pad_length data) as [n Hn]. unfold unpad. rewrite Hn.
  unfold pad in *.
  pose proof (Nat.mod_upper_bound (length data) 16 ltac:(lia)) as Hmod.
  set (k := (16 - length data `mod` 16)%nat) in *.
  destruct k as [|k'] eqn:Hk; [lia|].
  rewrite last_replicate. rewrite <- Hk in *. clear Hk k'.
  rewrite length_app, length_replicate in Hn.
  destruct (Nat.eqb_spec (16 * S n) 0) as [?|_]; [lia|].
  replace ((16 * S n) `mod` 16)%nat with 0%nat
    by (symmetry; rewrite Nat.mul_comm; apply Nat.Div0.mod_mul).
  cbn [Nat.eqb negb]. rewrite Nat2Z.id.
  destruct (Z.ltb_spec (Z.of_nat k) 1) as [?|_]; [lia|].
  destruct (Nat.ltb_spec (16 `min` (16 * S n)) k) as [?|_]; [lia|].
  cbn [orb].
  replace (16 * S n - k)%nat with (length data) by lia.
  rewrite drop_app_length, take_app_length.
  by rewrite bool_decide_true.
Qed.

(** ** Chaining *)

Lemma lxor_checked : forallb lxor_check (count_up 0 (Z.to_nat 256)) = true.
Proof. vm_compute. reflexivity. Qed.

Lemma lxor_byte x y : is_byte x -> is_byte y -> is_byte (Z.lxor x y).
Proof.
  intros Hx Hy. pose proof (forallb_below _ _ lxor_checked x Hx) as H.
  unfold lxor_check in H. pose proof (forallb_below _ _ H y Hy) as H'.
  cbv beta in H'. apply andb_true_iff in H' as [H1 H2].
  apply Z.leb_le in H1. apply Z.ltb_lt in H2. by split.
Qed.

Lemma xor_bytes_block a b : is_block a -> is_block b -> is_block (xor_bytes a b).
Proof.
  intros [Ha Hab] [Hb Hbb]. unfold xor_bytes. split.
  - rewrite length_zip_with. lia.
  - apply Forall_forall. intros v Hv.
    apply list_elem_of_lookup in Hv as [i Hv].
    apply lookup_zip_with_Some in Hv as (x & y & -> & Hx & Hy).
    rewrite Forall_forall in Hab, Hbb.
    apply lxor_byte; [eapply Hab|eapply Hbb]; by eapply list_elem_of_lookup_2.
Qed.

Lemma xor_bytes_cancel (a b : bytes) :
  length a = length b -> xor_bytes (xor_bytes a b) b = a.
Proof.
  unfold xor_bytes. revert b. induction a as [|x a IH]; intros [|y b] Hlen;
    try done. cbn [zip_with]. f_equal.
  - by rewrite Z.lxor_assoc, Z.lxor_nilpotent, Z.lxor_0_r.
  - apply IH. simpl in Hlen. lia.
Qed.


Lemma pad_bytes (data : bytes) : Forall is_byte data -> Forall is_byte (pad data).
Proof.
  intros H. unfold pad. apply Forall_app. split; [done|].
  apply Forall_replicate. unfold is_byte.
  pose proof (Nat.mod_upper_bound (length data) 16). lia.
Qed.

Lemma b64encode_inj (a b : bytes) :
  Forall is_byte a -> Forall is_byte b -> b64encode a = b64encode b -> a = b.
Proof.
  intros Ha Hb Heq. pose proof (b64decode_encode a Ha) as H.
  rewrite Heq, (b64decode_encode b Hb) in H. congruence.
Qed.

Section WithCrypto.
Context `{!Crypto}.

Lemma cbc_blocks_round_trip (n : nat) : forall key prev data : bytes,
  is_key key -> is_block prev ->
  length data = (16 * n)%nat -> Forall is_byte data ->
  length (cbc_encrypt_blocks n key prev data) = (16 * n)%nat /\
  Forall is_byte (cbc_encrypt_blocks n key prev data) /\
  cbc_decrypt_blocks n key prev (cbc_encrypt_blocks n key prev data) = data.
Proof.
  induction n as [|n IH]; intros key prev data Hkey Hprev Hlen Hdata.
  - destruct data; [|done]. by repeat split.
  - cbn [cbc_encrypt_blocks cbc_decrypt_blocks].
    assert (is_block (take 16 data)) as Hb.
    { split; [rewrite length_take; lia|by apply Forall_take]. }
    pose proof (xor_bytes_block _ _ Hb Hprev) as Hx.
    pose proof (aes_encrypt_block_block key _ Hkey Hx) as Hc.
    set (c := aes_encrypt_block key (xor_bytes (take 16 data) prev)) in *.
    destruct (IH key c (drop 16 data) Hkey Hc) as (Hl & Hf & Hd).
    { rewrite length_drop. lia. }
    { by apply Forall_drop. }
    destruct Hc as [Hcl Hcb].
    split; [rewrite length_app; lia|].
    split; [apply Forall_app; by split|].
    rewrite (take_app_length' c) by done.
    rewrite (drop_app_length' c) by done.
    rewrite Hd. subst c. rewrite aes_decrypt_encrypt by done.
    rewrite xor_bytes_cancel.
    + apply take_drop.
    + destruct Hb as [-> _]. by destruct Hprev as [-> _].
Qed.

Lemma AES_new_CBC_ok (key iv : bytes) :
  is_key key -> length iv = 16%nat -> AES_new_CBC key iv = Ok (key, iv).
Proof.
  intros [Hk _] Hiv. unfold AES_new_CBC. rewrite Hk, Hiv.
  rewrite bool_decide_true; [done|]. set_solver.
Qed.

Lemma encrypted_with_iv_bytes (mb pb iv : bytes) :
  Forall is_byte mb -> is_block iv ->
  Forall is_byte (encrypted_with_iv mb pb iv) /\
  take 16 (encrypted_with_iv mb pb iv) = iv /\
  exists n, length (drop 16 (encrypted_with_iv mb pb iv)) = (16 * S n)%nat /\
    cbc_decrypt_blocks (S n) (sha256 pb) iv
      (drop 16 (encrypted_with_iv mb pb iv)) = pad mb.
Proof.
  intros Hmb Hiv. unfold encrypted_with_iv.
  destruct (pad_length mb) as [n Hn]. rewrite Hn.
  replace (16 * S n / 16)%nat with (S n)
    by (symmetry; rewrite Nat.mul_comm; apply Nat.div_mul; lia).
  destruct (cbc_blocks_round_trip (S n) (sha256 pb) iv (pad mb))
    as (Hl & Hf & Hd); [apply sha256_digest|done|done|by apply pad_bytes|].
  split; [apply Forall_app; split; [by destruct Hiv|done]|].
  destruct Hiv as [Hivl _].
  rewrite (take_app_length' iv) by done.
  rewrite (drop_app_length' iv) by done.
  split; [done|]. by exists n.
Qed.

Lemma encrypt_message_ok (message password : str) (iv mb pb : bytes) :
  str_encode_utf8 message = Ok mb -> Forall is_byte mb ->
  str_encode_utf8 password = Ok pb -> is_block iv ->
  encrypt_message message password iv
  = Ok (b64encode (encrypted_with_iv mb pb iv)).
Proof.
  intros Hm Hmb Hp Hiv. unfold encrypt_message, derive_key.
  rewrite Hp. cbn [mbind result_bind mret result_ret].
  rewrite AES_new_CBC_ok by (apply sha256_digest || by destruct Hiv).
  cbn [mbind result_bind]. rewrite Hm. cbn [mbind result_bind].
  unfold cbc_encrypt. destruct (pad_length mb) as [n Hn].
  replace (length (pad mb) `mod` 16)%nat with 0%nat
    by (rewrite Hn; symmetry; rewrite Nat.mul_comm; apply Nat.Div0.mod_mul).
  cbn [Nat.eqb negb mbind result_bind fst snd].
  rewrite decode_ascii; [done|]. apply b64encode_ascii.
  by destruct (encrypted_with_iv_bytes mb pb iv Hmb Hiv).
Qed.

Lemma decrypt_message_ok (message password : str) (iv mb pb : bytes) :
  str_encode_utf8 message = Ok mb -> Forall is_byte mb ->
  bytes_decode_utf8 Strict mb = Ok message ->
  str_encode_utf8 password = Ok pb -> is_block iv ->
  decrypt_message (b64encode (encrypted_with_iv mb pb iv)) password
  = Ok message.
Proof.
  intros Hm Hmb Hdec Hp Hiv. unfold decrypt_message, derive_key.
  destruct (encrypted_with_iv_bytes mb pb iv Hmb Hiv)
    as (Hbytes & Htake & n & Hlen & Hblocks).
  rewrite Hp. cbn [mbind result_bind mret result_ret].
  rewrite encode_ascii by by apply b64encode_ascii.
  cbn [mbind result_bind]. rewrite b64decode_encode by done.
  cbn [mbind result_bind]. rewrite Htake.
  rewrite AES_new_CBC_ok by (apply sha256_digest || by destruct Hiv).
  cbn [mbind result_bind]. unfold cbc_decrypt. rewrite Hlen.
  replace ((16 * S n) `mod` 16)%nat with 0%nat
    by (symmetry; rewrite Nat.mul_comm; apply Nat.Div0.mod_mul).
  replace (16 * S n / 16)%nat with (S n)
    by (symmetry; rewrite Nat.mul_comm; apply Nat.div_mul; lia).
  cbn [Nat.eqb negb mbind result_bind fst snd]. rewrite Hblocks.
  rewrite unpad_pad. cbn [mbind result_bind]. by rewrite Hdec.
Qed.


(** C6. Encryption with two distinct IVs, and round trip: for every plaintext
    [P] and password [pw] that are strings of Unicode scalar values, two
    calls of [encrypt_message P pw] that draw distinct IVs of sixteen octets
    both return, their base64 outputs differ, and [decrypt_message] with the
    same password returns exactly [P] on each of the two outputs. *)
Theorem encryption_distinct_ivs_round_trip (P pw : str) (iv1 iv2 : bytes) :
  valid_str P -> valid_str pw ->
  is_block iv1 -> is_block iv2 -> iv1 <> iv2 ->
  exists out1 out2 : str,
    encrypt_message P pw iv1 = Ok out1 /\
    encrypt_message P pw iv2 = Ok out2 /\
    out1 <> out2 /\
    decrypt_message out1 pw = Ok P /\
    decrypt_message out2 pw = Ok P.
Proof.
  intros HP Hpw Hiv1 Hiv2 Hne.
  destruct (utf8_roundtrip P Strict HP) as (mb & Hm & Hmb & Hdec).
  destruct (utf8_roundtrip pw Strict Hpw) as (pb & Hp & _ & _).
  exists (b64encode (encrypted_with_iv mb pb iv1)),
         (b64encode (encrypted_with_iv mb pb iv2)).
  split; [by apply encrypt_message_ok|].
  split; [by apply encrypt_message_ok|].
  split; [|split; by apply decrypt_message_ok].
  intros Heq.
  destruct (encrypted_with_iv_bytes mb pb iv1 Hmb Hiv1) as (Hb1 & Ht1 & _).
  destruct (encrypted_with_iv_bytes mb pb iv2 Hmb Hiv2) as (Hb2 & Ht2 & _).
  apply b64encode_inj in Heq; [|done..].
  apply Hne. rewrite <- Ht1, <- Ht2. by rewrite Heq.
Qed.

End WithCrypto.

Lemma zeros_block : is_block (replicate 16 0).
Proof. split; [reflexivity|]. repeat constructor; cbv; congruence. Qed.

Lemma ones_block : is_block (replicate 16 1).
Proof. split; [reflexivity|]. repeat constructor; cbv; congruence. Qed.

Lemma valid_lit_pw : valid_str (lit "pw").
Proof. repeat constructor; cbv; congruence. Qed.

Lemma encryption_distinct_ivs_round_trip_witness :
  exists out1 out2 : str,
    @encrypt_message toy_crypto (lit "HI") (lit "pw") (replicate 16 0) = Ok out1 /\
    @encrypt_message toy_crypto (lit "HI") (lit "pw") (replicate 16 1) = Ok out2 /\
    out1 <> out2 /\
    @decrypt_message toy_crypto out1 (lit "pw") = Ok (lit "HI") /\
    @decrypt_message toy_crypto out2 (lit "pw") = Ok (lit "HI").
Proof.
  apply (@encryption_distinct_ivs_round_trip toy_crypto (lit "HI") (lit "pw")
           (replicate 16 0) (replicate 16 1)
           valid_lit_HI valid_lit_pw zeros_block ones_block).
  discriminate.
Defined.

(** The two outputs of the toy cipher, computed. *)
Example encrypt_message_two_ivs :
  @encrypt_message toy_crypto (lit "HI") (lit "pw") (replicate 16 0)
    = Ok (lit "AAAAAAAAAAAAAAAAAAAAAPYW+hk4V3aVtNPyETBPbo0=") /\
  @encrypt_message toy_crypto (lit "HI") (lit "pw") (replicate 16 1)
    = Ok (lit "AQEBAQEBAQEBAQEBAQEBAfcV+xo5WHeWtdTzEjFQb44=") /\
  @decrypt_message toy_crypto
     (lit "AAAAAAAAAAAAAAAAAAAAAPYW+hk4V3aVtNPyETBPbo0=") (lit "pw")
    = Ok (lit "HI").
Proof. repeat split; vm_compute; reflexivity. Qed.

End CryptoProofs.

(* ================================================================== *)
(** * Properties, 7.  Hide, then reveal                                 *)
(* ================================================================== *)

Module PipelineProofs.
Import CodecProofs EmbedProofs UnframeProofs HideProofs CapacityProofs
  CryptoProofs.

(** ** The marker in a longer string *)

Lemma occurs_at_app (sub s t : bits) j :
  occurs_at sub s j -> occurs_at sub (s ++ t) j.
Proof.
  intros (pre & post & -> & Hj). exists pre, (post ++ t).
  split; [by rewrite <- !app_assoc|done].
Qed.

Lemma occurs_at_length (sub s : bits) j :
  occurs_at sub s j -> (j + length sub <= length s)%nat.
Proof. intros (pre & post & -> & <-). rewrite !length_app. lia. Qed.

Lemma occurs_at_prefix (sub s t : bits) j :
  occurs_at sub (s ++ t) j -> (j + length sub <= length s)%nat ->
  occurs_at sub s j.
Proof.
  intros (pre & post & Hs & Hj) Hle.
  exists pre, (take (length s - j - length sub) post). split; [|done].
  apply (f_equal (take (length s))) in Hs.
  rewrite take_app_length in Hs.
  rewrite take_app_ge, take_app_ge in Hs by lia.
  etrans; [exact Hs|]. do 3 f_equal. lia.
Qed.

Lemma first_occurrence_app (sub s t : bits) i :
  first_occurrence sub s i -> first_occurrence sub (s ++ t) i.
Proof.
  intros [Hi Hfirst]. split; [by apply occurs_at_app|].
  intros j Hj Hocc. apply (Hfirst j Hj).
  apply occurs_at_length in Hi.
  eapply occurs_at_prefix; [exact Hocc|lia].
Qed.

(** ** What the extraction reads back *)

Lemma length_digits (utf8_bytes : bytes) :
  length (concat (map format_08b utf8_bytes)) = (8 * length utf8_bytes)%nat.
Proof.
  induction utf8_bytes as [|b bs IH]; [done|].
  cbn [map concat]. rewrite length_app, length_format_08b, IH. simpl. lia.
Qed.

Lemma take_framed (utf8_bytes : bytes) (rest : bits) :
  take (8 * length utf8_bytes) (framed utf8_bytes ++ rest)
  = concat (map format_08b utf8_bytes).
Proof.
  unfold framed. rewrite <- app_assoc.
  apply take_app_length'. by rewrite length_digits.
Qed.

Lemma binary_to_text_digits (t : str) (utf8_bytes : bytes) :
  Forall is_byte utf8_bytes ->
  bytes_decode_utf8 Strict utf8_bytes = Ok t ->
  binary_to_text (concat (map format_08b utf8_bytes)) = Ok t.
Proof.
  intros Hb Hdec. rewrite binary_to_text_eq.
  rewrite <- (app_nil_r (concat _)), binary_groups_format by (done || simpl; lia).
  by rewrite Hdec.
Qed.

(** ** The stego file, opened again *)

Lemma frombuffer_tobytes (R : list Z) :
  Forall (in_dtype int16) R -> np_frombuffer_int16 (tobytes_int16 R) = Ok R.
Proof.
  induction 1 as [|v R Hv _ IH]; [done|].
  unfold tobytes_int16 in *. cbn [flat_map app np_frombuffer_int16].
  rewrite IH. cbn [mbind result_bind mret result_ret]. do 2 f_equal.
  simpl in Hv. unfold cast. dlia.
Qed.


Section WithLibraries.
Context `{!PyText, !NumPy, !Pillow, !FloatFormat, !Crypto}.

Lemma load_stored_image w output_path (im : pil_image) (R : list Z) line :
  let stego := MkImage (if getbands (im_mode im) =? 3 then lit "RGB"
                        else lit "RGBA") (im_width im) (im_height im) R in
  let w' := printed (stored w output_path (ImageFile stego)) line in
  load_image_array output_path w' = (Ok (np_array_of_image stego), w').
Proof.
  intros stego w'. unfold load_image_array.
  erewrite io_bind_ok; cycle 1.
  { unfold Image_open. subst w'. cbn [fs printed stored].
    by rewrite lookup_insert_eq. }
  destruct (decide _) as [_|Hnot]; [done|].
  exfalso. apply Hnot. subst stego. cbn [im_mode].
  destruct (_ =? 3); set_solver.
Qed.






End WithLibraries.




(** ** An IV whose base64 text holds the marker *)




Section AnyCipher.
Context `{!Crypto}.



End AnyCipher.


End PipelineProofs.

(* ================================================================== *)
(** * Properties, 8.  Voice authentication                              *)
(* ================================================================== *)

Module VoiceProofs.
Import CodecProofs UnframeProofs HideProofs.

Lemma io_bind_print {B} (line : str) (f : unit -> io B) w :
  (print line ≫= f) w = f tt (printed w line).
Proof. reflexivity. Qed.

(** Whatever the [finally] clause does to the temporary file, it hands
    over what the clauses before it returned. *)
Ltac finally_runs tp :=
  match goal with
  | |- context [(os_path_exists tp ≫= ?k) ?w2] =>
      destruct ((os_path_exists tp ≫= k) w2) as [? ?]
  end.

Section WithLibraries.
Context {py_text : PyText} {unicode : Unicode} {whisper : Whisper}
  {pydub : Pydub} {float_text : FloatText}.

(** ** The object that [__init__] returns has a model *)

Lemma init_model (size : str) (w0 w1 : world) (self : VoiceAuthenticator) :
  __init__ size w0 = (Ok self, w1) -> exists m, model self = Some m.
Proof.
  unfold __init__, _load_model, io_try. cbn [model_size].
  rewrite io_bind_print.
  match goal with |- context [(whisper_load_model size ≫= _) ?w] =>
    destruct (whisper_load_model size w) as [[m|e] w'] eqn:Hload end.
  - rewrite (io_bind_ok _ _ _ _ _ Hload), io_bind_print.
    intros [= <- _]. by exists m.
  - rewrite (io_bind_raise _ _ _ _ _ Hload). discriminate.
Qed.

(** ** The [try] block after the conversion *)

Lemma transcribe_path_cases (m : whisper_model) (process_path : str) w :
  let w_p := printed w ([0x1F3A4] ++ lit " Transcribing audio...") in
  match model_transcribe m process_path (lit "en") w_p with
  | (Raise e, w_e) => transcribe_path m process_path w = (Raise e, w_e)
  | (Ok res, w_r) =>
      match wr_text res with
      | None =>
          transcribe_path m process_path w
          = (Raise (MkExn KeyError (lit "'text'")), w_r)
      | Some text =>
          exists line,
            transcribe_path m process_path w
            = (Ok (success_transcript res text), printed w_r line)
      end
  end.
Proof.
  intros w_p. unfold transcribe_path.
  rewrite io_bind_print. fold w_p.
  destruct (model_transcribe m process_path (lit "en") w_p)
    as [[res|e] w_r] eqn:Hmodel;
    [rewrite (io_bind_ok _ _ _ _ _ Hmodel)
    |by rewrite (io_bind_raise _ _ _ _ _ Hmodel)].
  rewrite io_bind_lift. destruct (wr_text res) as [text|]; [|done].
  eexists. rewrite io_bind_print.
  unfold mret, io_ret, success_transcript, mean_confidence.
  by destruct (wr_segments res) as [[|seg segs]|].
Qed.

Lemma transcribe_audio_outcome (self : VoiceAuthenticator)
    (m : whisper_model) (audio_path : str) (w : world) :
  model self = Some m ->
  exists tr w',
    transcribe_audio self audio_path w = (Ok tr, w') /\
    transcription_outcome m audio_path w tr.
Proof.
  intros Hm. unfold transcribe_audio. rewrite Hm.
  assert (forall (temp : option str) (p : str) w0,
    model_called audio_path w p
      (printed w0 ([0x1F3A4] ++ lit " Transcribing audio...")) ->
    exists tr w',
      (let '(temp_wav_path, (outcome, w1)) :=
         (temp, transcribe_path m p w0) in
       let '(returned, w2) :=
         match outcome with
         | Ok t => (Ok t, w1)
         | Raise e =>
             (_ ← print ([0x274C] ++ lit " Transcription failed: " ++ exn_msg e);
              mret (MkTranscript [] [] (lit "unknown") 0%Q false
                      (Some (exn_msg e)))) w1
         end in
       let '(_, w3) :=
         match temp_wav_path with
         | Some p =>
             (present ← os_path_exists p;
              if negb (bool_decide (p = [])) && present
              then io_try (os_unlink p) (fun _ => mret tt)
              else mret tt) w2
         | None => (Ok tt, w2)
         end in
       (returned, w3)) = (Ok tr, w') /\
      transcription_outcome m audio_path w tr) as Hrest.
  { intros temp p w0 Hcalled.
    pose proof (transcribe_path_cases m p w0) as Hcases. cbv zeta in Hcases.
    destruct (model_transcribe m p (lit "en") _) as [[res|e] w_r] eqn:Hmodel.
    - destruct (wr_text res) as [text|] eqn:Htext.
      + destruct Hcases as [line ->].
        destruct temp as [tp|]; [finally_runs tp|];
          (do 2 eexists; split; [reflexivity|]; by eapply transcribed).
      + rewrite Hcases.
        rewrite io_bind_print. unfold mret, io_ret.
        destruct temp as [tp|]; [finally_runs tp|];
          (do 2 eexists; split; [reflexivity|]; by eapply text_missing).
    - rewrite Hcases.
      rewrite io_bind_print. unfold mret, io_ret.
      destruct temp as [tp|]; [finally_runs tp|];
        (do 2 eexists; split; [reflexivity|]; by eapply model_error). }
  destruct (endswith (str_lower audio_path) (lit ".wav")) eqn:Hwav;
    cbn [negb].
  - apply (Hrest None audio_path w). left. by repeat split.
  - destruct (convert_audio_to_wav audio_path w) as [[temp|e] w_c] eqn:Hconv.
    + apply (Hrest (Some temp) temp w_c). right. split; [done|]. by exists w_c.
    + rewrite io_bind_print. unfold mret, io_ret.
      do 2 eexists. split; [reflexivity|]. by eapply conversion_error.
Qed.


(** C8. Transcription fails soft: on an authenticator that [__init__]
    returned, for every audio path in every world [transcribe_audio]
    returns a transcript and raises nothing.  When the conversion or the
    model raised, or the result of the model had no text, it is the
    transcript with empty text, empty normalized text, language "unknown",
    confidence 0, [success] false and the message of the exception as
    [error]; otherwise it is the transcript with the stripped text of the
    result, its normalization, the language of the result ("unknown" when
    it names none), the mean of the log-probabilities of the segments (0
    without segments), [success] true and no [error]. *)
Theorem transcribe_fails_soft (size : str) (w0 w1 : world)
    (self : VoiceAuthenticator) :
  __init__ size w0 = (Ok self, w1) ->
  exists m, model self = Some m /\
    forall (audio_path : str) (w : world),
    exists tr w',
      transcribe_audio self audio_path w = (Ok tr, w') /\
      transcription_outcome m audio_path w tr.
Proof.
  intros Hinit. destruct (init_model _ _ _ _ Hinit) as [m Hm].
  exists m. split; [done|]. intros audio_path w.
  by apply transcribe_audio_outcome.
Qed.

(** The guard before the [try] block: without a model, the call raises. *)
Lemma transcribe_audio_without_model size audio_path w :
  transcribe_audio (MkVoiceAuthenticator size None) audio_path w
  = (Raise (MkExn Exception (lit "Whisper model not loaded")), w).
Proof. reflexivity. Qed.

(** ** Normalized texts and their words *)

Lemma lstrip_head (s : str) c rest :
  lstrip s = c :: rest -> isspace c = false.
Proof.
  induction s as [|x s IH]; [done|]. cbn [lstrip].
  destruct (isspace x) eqn:Hx; [done|]. by intros [= <- _].
Qed.

Lemma split_from_word (s word : str) :
  word <> [] -> split_from s word <> [].
Proof.
  revert word. induction s as [|c s IH]; intros word Hw; cbn [split_from].
  - by destruct word.
  - destruct (isspace c); [by destruct word|]. by apply IH.
Qed.

Lemma stripped_words (s : str) : strip s <> [] -> tokens (strip s) <> ∅.
Proof.
  unfold strip.
  destruct (lstrip (rstrip s)) as [|c rest] eqn:Hn; [done|]. intros _.
  apply lstrip_head in Hn. unfold tokens, split. cbn [split_from].
  rewrite Hn.
  pose proof (split_from_word rest [c] ltac:(done)) as Hne.
  destruct (split_from rest [c]) as [|word words]; [done|].
  rewrite list_to_set_cons. set_solver.
Qed.

Lemma normalized_words (t : str) :
  normalize_text t <> [] -> tokens (normalize_text t) <> ∅.
Proof. apply stripped_words. Qed.

(** ** The score *)

Lemma quotient_one (i u : nat) :
  (0 < u)%nat ->
  (inject_Z (Z.of_nat i) / inject_Z (Z.of_nat u) == 1)%Q <-> i = u.
Proof.
  intros Hu.
  assert (~ (inject_Z (Z.of_nat u) == 0)%Q) as Hnz.
  { change 0%Q with (inject_Z 0). rewrite inject_Z_injective. lia. }
  split.
  - intros Hq. apply Nat2Z.inj. apply inject_Z_injective.
    rewrite <- (Qmult_div_r (inject_Z (Z.of_nat i)) (inject_Z (Z.of_nat u)))
      by done.
    rewrite Hq. ring.
  - intros ->. by apply Qmult_inv_r.
Qed.

Lemma jaccard_one (A B : gset str) :
  A <> ∅ -> (jaccard A B == 1)%Q <-> A = B.
Proof.
  intros HA. unfold jaccard.
  assert (0 < size (A ∪ B))%nat as Hu.
  { assert (size (A ∪ B) <> 0%nat) as Hs; [|lia].
    rewrite size_non_empty_iff. intros Hempty. apply HA.
    apply leibniz_equiv. intros x. split; [|by rewrite elem_of_empty].
    intros Hx. apply (Hempty x), elem_of_union. by left. }
  rewrite quotient_one by done. split.
  - intros Hsize.
    assert (A ∩ B = A ∪ B) as Heq.
    { apply set_subseteq_size_eq; [|lia]. intros x Hx.
      apply elem_of_intersection in Hx as [Hx _].
      apply elem_of_union. by left. }
    apply set_eq. intros x. split; intros Hx.
    + assert (x ∈ A ∩ B) as Hx'
        by (rewrite Heq; apply elem_of_union; by left).
      by apply elem_of_intersection in Hx' as [_ ?].
    + assert (x ∈ A ∩ B) as Hx'
        by (rewrite Heq; apply elem_of_union; by right).
      by apply elem_of_intersection in Hx' as [? _].
  - intros <-. by rewrite intersection_idemp_L, union_idemp_L.
Qed.

Lemma calculate_similarity_empty (text1 text2 : str) :
  text1 = [] \/ text2 = [] -> _calculate_similarity text1 text2 = 0%Q.
Proof.
  intros [-> | ->]; unfold _calculate_similarity.
  - done.
  - by destruct (bool_decide (text1 = [])).
Qed.

Lemma calculate_similarity_jaccard (text1 text2 : str) :
  text1 <> [] -> text2 <> [] ->
  tokens text1 <> ∅ -> tokens text2 <> ∅ ->
  (_calculate_similarity text1 text2
   == jaccard (tokens text1) (tokens text2))%Q.
Proof.
  intros H1 H2 HA HB. unfold _calculate_similarity.
  rewrite !bool_decide_false by done. cbn [orb].
  destruct (bool_decide (text1 = text2)) eqn:Heq.
  - apply bool_decide_eq_true in Heq as <-. symmetry. by apply jaccard_one.
  - fold (tokens text1) (tokens text2).
    rewrite !bool_decide_false by done. cbn [orb].
    destruct (Nat.ltb_spec 0 (size (tokens text1 ∪ tokens text2)));
      [reflexivity|].
    assert (size (tokens text1 ∪ tokens text2) <> 0%nat); [|lia].
    rewrite size_non_empty_iff. set_solver.
Qed.

(** ** The verdict *)

Lemma verify_passphrase_verdict (self : VoiceAuthenticator)
    (audio_path expected_passphrase : str) (similarity_threshold : Q)
    (w w1 : world) (tr : transcript) :
  transcribe_audio self audio_path w = (Ok tr, w1) ->
  tr_success tr = true ->
  let similarity :=
    _calculate_similarity (tr_normalized_text tr)
      (normalize_text expected_passphrase) in
  exists v w',
    verify_passphrase self audio_path expected_passphrase
      similarity_threshold w = (Ok v, w') /\
    v_similarity v = Some similarity /\
    v_threshold v = Some similarity_threshold /\
    (v_verified v = true <-> (similarity_threshold <= similarity)%Q).
Proof.
  intros Htr Hs similarity. unfold verify_passphrase.
  rewrite (io_bind_ok _ _ _ _ _ Htr), Hs. cbn [negb].
  fold similarity.
  destruct (Qle_bool similarity_threshold similarity) eqn:Hle;
    rewrite io_bind_print; do 2 eexists;
    (split; [reflexivity|]); cbn [v_similarity v_threshold v_verified];
    (split; [done|]); (split; [done|]); rewrite <- Qle_bool_iff, Hle; done.
Qed.

Lemma transcribed_normalized (self : VoiceAuthenticator) (audio_path : str)
    (w w1 : world) (tr : transcript) :
  transcribe_audio self audio_path w = (Ok tr, w1) ->
  tr_success tr = true ->
  tr_normalized_text tr = normalize_text (tr_text tr).
Proof.
  intros Htr Hs. destruct (model self) as [m|] eqn:Hm.
  - destruct (transcribe_audio_outcome self m audio_path w Hm)
      as (tr' & w' & Htr' & Hout).
    rewrite Htr in Htr'. injection Htr' as <- _.
    by destruct Hout.
  - unfold transcribe_audio in Htr. by rewrite Hm in Htr.
Qed.


(** C5 (amended). Similarity scoring: [verify_passphrase] scores the
    normalized transcript against the expected passphrase normalized by the
    same [normalize_text].  The score is 0 when either normalized text is
    empty; when neither is, it is the Jaccard index of their sets of
    white-space delimited words (size of the intersection by size of the
    union), and it is 1 exactly when the two sets are identical, whatever
    the order and the repetitions of the words.  The attempt is verified
    exactly when the threshold is at most the score; the default threshold
    is 0.8. *)
Theorem similarity_scoring :
  (forall t1 t2 : str,
     (normalize_text t1 = [] \/ normalize_text t2 = [] ->
      _calculate_similarity (normalize_text t1) (normalize_text t2) = 0%Q) /\
     (normalize_text t1 <> [] -> normalize_text t2 <> [] ->
      (_calculate_similarity (normalize_text t1) (normalize_text t2)
       == jaccard (tokens (normalize_text t1)) (tokens (normalize_text t2)))%Q
      /\
      ((_calculate_similarity (normalize_text t1) (normalize_text t2) == 1)%Q
       <-> tokens (normalize_text t1) = tokens (normalize_text t2)))) /\
  (forall (self : VoiceAuthenticator) (audio_path expected_passphrase : str)
          (similarity_threshold : Q) (w w1 : world) (tr : transcript),
     transcribe_audio self audio_path w = (Ok tr, w1) ->
     tr_success tr = true ->
     tr_normalized_text tr = normalize_text (tr_text tr) /\
     exists v w',
       verify_passphrase self audio_path expected_passphrase
         similarity_threshold w = (Ok v, w') /\
       v_similarity v
       = Some (_calculate_similarity (tr_normalized_text tr)
                 (normalize_text expected_passphrase)) /\
       v_threshold v = Some similarity_threshold /\
       (v_verified v = true <->
        (similarity_threshold
         <= _calculate_similarity (tr_normalized_text tr)
              (normalize_text expected_passphrase))%Q)) /\
  (default_similarity_threshold == 8 # 10)%Q.
Proof.
  split; [|split; [|reflexivity]].
  - intros t1 t2. split; [apply calculate_similarity_empty|].
    intros H1 H2.
    pose proof (normalized_words t1 H1) as HA.
    pose proof (normalized_words t2 H2) as HB.
    pose proof (calculate_similarity_jaccard _ _ H1 H2 HA HB) as Hj.
    split; [exact Hj|]. rewrite Hj. by apply jaccard_one.
  - intros self audio_path expected threshold w w1 tr Htr Hs.
    split; [by eapply transcribed_normalized|].
    exact (verify_passphrase_verdict _ _ expected threshold _ _ _ Htr Hs).
Qed.

End WithLibraries.

(** ** Runs with the scripted libraries *)

Lemma transcribe_fails_soft_witness :
  exists m, model self_base = Some m /\
    forall (audio_path : str) (w : world),
    exists tr w',
      @transcribe_audio plain_text ascii_unicode whisper_script pydub_script
        self_base audio_path w = (Ok tr, w') /\
      @transcription_outcome ascii_unicode whisper_script pydub_script
        m audio_path w tr.
Proof.
  exact (@transcribe_fails_soft plain_text ascii_unicode whisper_script pydub_script
           (lit "base") world_voice _ self_base eq_refl).
Defined.

(** The wave file is transcribed; a path that does not exist gives the
    transcript of a failure. *)
Example transcribe_audio_voice :
  exists c,
    (@transcribe_audio plain_text ascii_unicode whisper_script pydub_script
       self_base (lit "voice.wav") world_voice).1
    = Ok (MkTranscript (lit "Open, Sesame! Let me in.")
            (lit "open sesame let me in") (lit "en") c true None) /\
    (c == - (1 # 2))%Q.
Proof. eexists. split; [vm_compute; reflexivity|reflexivity]. Qed.

Example transcribe_audio_missing :
  (@transcribe_audio plain_text ascii_unicode whisper_script pydub_script
     self_base (lit "silence.mp3") world_voice).1
  = Ok (failure_transcript
          (lit "Audio conversion failed: [Errno 2] No such file or directory: 'silence.mp3'")).
Proof. vm_compute. reflexivity. Qed.

Lemma similarity_scoring_witness :
  (@_calculate_similarity ascii_unicode
     (@normalize_text ascii_unicode (lit "Hello,  World!"))
     (@normalize_text ascii_unicode (lit "world hello")) == 1)%Q.
Proof.
  apply (proj1 (@similarity_scoring plain_text ascii_unicode whisper_script pydub_script
                  float_text_exact)
           (lit "Hello,  World!") (lit "world hello")).
  - vm_compute. discriminate.
  - vm_compute. discriminate.
  - vm_compute. reflexivity.
Defined.

(** C5 as stated fails: the empty transcript and the passphrase "?!" have
    the same normalized set of words, the empty one, and their score is 0,
    not 1. *)
Lemma similarity_scoring_counterexample :
  @tokens ascii_unicode (@normalize_text ascii_unicode (lit ""))
  = @tokens ascii_unicode (@normalize_text ascii_unicode (lit "?!")) /\
  @_calculate_similarity ascii_unicode
    (@normalize_text ascii_unicode (lit ""))
    (@normalize_text ascii_unicode (lit "?!")) = 0%Q /\
  ~ (@_calculate_similarity ascii_unicode
       (@normalize_text ascii_unicode (lit ""))
       (@normalize_text ascii_unicode (lit "?!")) == 1)%Q.
Proof.
  split; [vm_compute; reflexivity|].
  split; [vm_compute; reflexivity|]. vm_compute. discriminate.
Qed.


(** Four of the five words heard: the score is 0.8, which the default
    threshold accepts; three of five are rejected, also at 0.7. *)
Example verify_passphrase_four_of_five :
  exists v s,
    (@verify_passphrase plain_text ascii_unicode whisper_script pydub_script
       float_text_exact self_base (lit "voice.wav")
       (lit "Open sesame, let me!") default_similarity_threshold
       world_voice).1 = Ok v /\
    v_similarity v = Some s /\ (s == 8 # 10)%Q /\ v_verified v = true.
Proof.
  do 2 eexists. split; [vm_compute; reflexivity|].
  split; [reflexivity|]. split; reflexivity.
Qed.

Example verify_passphrase_three_of_five :
  exists v s,
    (@verify_passphrase plain_text ascii_unicode whisper_script pydub_script
       float_text_exact self_base (lit "voice.wav")
       (lit "let sesame open") (7 # 10)%Q world_voice).1 = Ok v /\
    v_similarity v = Some s /\ (s == 6 # 10)%Q /\ v_verified v = false.
Proof.
  do 2 eexists. split; [vm_compute; reflexivity|].
  split; [reflexivity|]. split; reflexivity.
Qed.

(** At the threshold 0.8, a score of 0.79 is below it and one of 0.80 is
    not. *)
Example threshold_comparisons :
  Qle_bool default_similarity_threshold (79 # 100) = false /\
  Qle_bool default_similarity_threshold (80 # 100) = true.
Proof. split; reflexivity. Qed.

End VoiceProofs.

(* ================================================================== *)
(** * Further properties, 1.  Embedding and extracting on arrays        *)
(* ================================================================== *)

Module ArrayProofs.
Import CodecProofs EmbedProofs UnframeProofs HideProofs CapacityProofs
  CryptoProofs PipelineProofs.

Lemma land_embedded_bit (x : Z) (b : bool) :
  Z.land (2 * (x / 2) + Z_of_bit b) 1 = Z_of_bit b.
Proof.
  change 1 with (Z.ones 1). rewrite Z.land_ones by lia.
  change (2 ^ 1) with 2. destruct b; simpl; dlia.
Qed.

(** The bits read back from an array that carries a message. *)
Lemma extracted_embedded (S : list Z) (message : bits) (R : list Z) :
  embedded S message (Nat.min (length message) (length S)) R ->
  map (fun x => Z.land x 1) (take (length message) R)
  = map Z_of_bit (take (length S) message).
Proof.
  intros (Hlen & Hlow & _). apply list_eq. intros i.
  rewrite !list_lookup_fmap.
  destruct (decide (i < Nat.min (length message) (length S))%nat) as [Hi|Hi].
  - rewrite !lookup_take_lt by lia.
    destruct (lookup_lt_is_Some_2 S i ltac:(lia)) as [x Hx].
    destruct (lookup_lt_is_Some_2 message i ltac:(lia)) as [b Hb].
    rewrite (Hlow i x b Hi Hx Hb), Hb. cbn [fmap option_fmap option_map].
    by rewrite land_embedded_bit.
  - rewrite !(proj2 (lookup_ge_None _ _)); [done|..];
      rewrite length_take; lia.
Qed.

(** X1. Extracting after embedding, on arrays: for every array of pixels
    [S] and every message, whatever their lengths, [fast_embed_pixels]
    followed by [fast_extract_bits] for as many bits as the message has
    raises nothing and returns the bits of the message, cut at the length
    of [S] when the message is longer; so it returns the message itself
    when the message fits.  The array of pixels given is unchanged. *)
Theorem extract_after_embed (h : store) (binary_data flat_pixels : ref)
    (S : list Z) (message : bits) :
  h !! binary_data = Some (MkArray uint8 (map Z_of_bit message)) ->
  h !! flat_pixels = Some (MkArray uint8 S) ->
  Forall (in_dtype uint8) S ->
  exists r h',
    (stego ← fast_embed_pixels binary_data flat_pixels;
     fast_extract_bits stego (Z.of_nat (length message))) h = Ok (r, h') /\
    h' !! r = Some (MkArray uint8 (map Z_of_bit (take (length S) message))) /\
    h' !! flat_pixels = Some (MkArray uint8 S).
Proof.
  intros Hb Hs HS.
  destruct (fast_embed_pixels_run h binary_data flat_pixels uint8 message S
              Hb Hs HS) as (R & Hrun & HR).
  rewrite (np_bind_ok _ _ _ _ _ Hrun).
  rewrite (fast_extract_bits_run _ _ uint8 R) by (apply store_lookup_new || lia).
  do 2 eexists. split; [reflexivity|]. split.
  - rewrite store_lookup_new, Nat2Z.id. do 2 f_equal.
    by apply extracted_embedded.
  - by do 2 apply store_lookup_old.
Qed.

Lemma extract_after_embed_witness :
  exists r h',
    (stego ← fast_embed_pixels 0%nat 1%nat;
     fast_extract_bits stego (Z.of_nat (length [true; false; true])))
      [MkArray uint8 (map Z_of_bit [true; false; true]);
       MkArray uint8 [254; 255; 0; 7]] = Ok (r, h') /\
    h' !! r = Some (MkArray uint8
                (map Z_of_bit (take (length [254; 255; 0; 7])
                                 [true; false; true]))) /\
    h' !! 1%nat = Some (MkArray uint8 [254; 255; 0; 7]).
Proof.
  apply (extract_after_embed
           [MkArray uint8 (map Z_of_bit [true; false; true]);
            MkArray uint8 [254; 255; 0; 7]] 0%nat 1%nat
           [254; 255; 0; 7] [true; false; true]).
  - reflexivity.
  - reflexivity.
  - repeat constructor; simpl; lia.
Defined.

(** A message of five bits in three pixels: the first three are embedded
    and read back. *)
Example extract_after_embed_long :
  np_eval (flat ← np_new uint8 [10; 11; 12];
           bits ← np_new uint8 (map Z_of_bit [true; true; false; true; true]);
           stego ← fast_embed_pixels bits flat;
           r ← fast_extract_bits stego 5;
           a ← np_read r; s ← np_read stego;
           mret (a_data s, a_data a))
  = Ok ([11; 11; 12], [1; 1; 0]).
Proof. reflexivity. Qed.


(** ** How far the stego carrier is from the cover *)

Lemma lsb_replaced_close (x : Z) (b : bool) (y : Z) :
  lsb_replaced x b y -> Z.abs (y - x) <= 1.
Proof.
  intros [_ Hhigh].
  assert (y / 2 = x / 2) as Hdiv.
  { apply Z.bits_inj'. intros k Hk.
    rewrite !Z.div2_bits by lia. apply Hhigh. lia. }
  dlia.
Qed.

Lemma frame_close (S : list Z) (message : bits) (R : list Z) i x y :
  embedding_frame S message R ->
  S !! i = Some x -> R !! i = Some y ->
  Z.abs (y - x) <= 1 /\ ((length message <= i)%nat -> y = x).
Proof.
  intros (Hlen & Hlow & Hhigh) Hx Hy. split.
  - destruct (message !! i) as [b|] eqn:Hb.
    + destruct (Hlow i x b Hx Hb) as (y' & Hy' & Hrep).
      assert (y' = y) as -> by congruence. by eapply lsb_replaced_close.
    + apply lookup_ge_None in Hb. rewrite (Hhigh i Hb), Hx in Hy.
      injection Hy as <-. lia.
  - intros Hi. rewrite (Hhigh i Hi), Hx in Hy. by injection Hy as <-.
Qed.

Section WithLibraries.
Context `{!PyText, !NumPy, !Pillow, !FloatFormat}.

Lemma image_carrier_mode w path im :
  image_carrier w path im -> im_mode im ∈ [lit "RGB"; lit "RGBA"].
Proof.
  intros (im0 & _ & Hwf & Hmode).
  destruct (decide _) as [Hin|_]; [by subst|].
  destruct (Image_convert_ok _ _ _ Hwf Hmode) as (_ & -> & _). set_solver.
Qed.

(** X2. The stego carrier is close to the cover: when a message that fits
    is hidden in an image, the file written at the output path is an image
    of the mode, the width and the height of the cover as it was loaded,
    with as many values, every value is an octet that differs from the one
    of the cover by at most 1, and the values beyond the framed message are
    those of the cover.  When it is hidden in a wave file, under a NumPy
    that promotes a Python integer by its value (NumPy 1.x) and for a cover
    whose header can be written back, the file written has the channels,
    the sample width and the frame rate of the cover, its frames are as
    many 16-bit samples, every sample is within 1 of the cover's, and the
    samples beyond the framed message are the cover's. *)
Theorem stego_close_to_cover :
  (forall w image_path im encrypted_message utf8_bytes output_path,
     image_carrier w image_path im ->
     str_encode_utf8 encrypted_message = Ok utf8_bytes ->
     framed_length utf8_bytes <= Z.of_nat (length (im_px im)) ->
     read_only w output_path = false ->
     exists stego w',
       hide_message_in_image image_path encrypted_message output_path w
         = (Ok true, w') /\
       fs w' !! output_path = Some (ImageFile stego) /\
       im_mode stego = im_mode im /\
       im_width stego = im_width im /\ im_height stego = im_height im /\
       length (im_px stego) = length (im_px im) /\
       forall i x y, im_px im !! i = Some x -> im_px stego !! i = Some y ->
         0 <= y < 256 /\ Z.abs (y - x) <= 1 /\
         (framed_length utf8_bytes <= Z.of_nat i -> y = x)) /\
  (forall w audio_path params samples encrypted_message utf8_bytes output_path,
     numpy_promotion = ValueBased ->
     audio_carrier w audio_path params samples ->
     header_fits params samples ->
     str_encode_utf8 encrypted_message = Ok utf8_bytes ->
     framed_length utf8_bytes <= Z.of_nat (length samples) ->
     read_only w output_path = false ->
     exists stego stego_samples w',
       hide_message_in_audio audio_path encrypted_message output_path w
         = (Ok true, w') /\
       fs w' !! output_path = Some (WaveFile stego) /\
       nchannels (wv_params stego) = nchannels params /\
       sampwidth (wv_params stego) = sampwidth params /\
       framerate (wv_params stego) = framerate params /\
       np_frombuffer_int16 (wv_frames stego) = Ok stego_samples /\
       length stego_samples = length samples /\
       forall i x y, samples !! i = Some x -> stego_samples !! i = Some y ->
         -32768 <= y < 32768 /\ Z.abs (y - x) <= 1 /\
         (framed_length utf8_bytes <= Z.of_nat i -> y = x)).
Proof.
  split.
  - intros w image_path im msg ub out Hc Henc Hfits Hro.
    destruct (hide_image_fits _ _ _ _ _ _ Hc Henc Hfits Hro)
      as (R & line & Hbody & Hframe & HR).
    do 2 eexists. split; [by rewrite hide_image_of_body, Hbody|].
    cbn [fs printed stored]. split; [by rewrite lookup_insert_eq|].
    cbn [im_mode im_width im_height im_px].
    split.
    { pose proof (image_carrier_mode _ _ _ Hc) as Hmode.
      apply list_elem_of_In in Hmode. destruct Hmode as [<-|[<-|[]]]; done. }
    split; [done|]. split; [done|]. split; [apply Hframe|].
    intros i x y Hx Hy. split.
    { rewrite Forall_forall in HR. apply (HR y).
      by eapply list_elem_of_lookup_2. }
    destruct (frame_close _ _ _ i x y Hframe Hx Hy) as [Hclose Hout].
    split; [done|]. intros Hi. apply Hout.
    pose proof (length_framed ub). lia.
  - intros w audio_path params samples msg ub out Hvb Hc Hheader Henc Hfits
      Hro.
    destruct (hide_audio_fits _ _ _ _ _ _ _ Hvb Hc Hheader Henc Hfits Hro)
      as (R & line & Hbody & Hframe & HR).
    exists (MkWave
         (MkParams (nchannels params) (sampwidth params) (framerate params)
            (Z.of_nat (length (tobytes_int16 R))
             / (nchannels params * sampwidth params)))
         (tobytes_int16 R)), R.
    eexists. split; [by rewrite hide_audio_of_body, Hbody|].
    cbn [fs printed stored]. split; [by rewrite lookup_insert_eq|].
    cbn [wv_params wv_frames nchannels sampwidth framerate].
    do 3 (split; [done|]). split; [by apply frombuffer_tobytes|].
    split; [apply Hframe|].
    intros i x y Hx Hy. split.
    { rewrite Forall_forall in HR. apply (HR y).
      by eapply list_elem_of_lookup_2. }
    destruct (frame_close _ _ _ i x y Hframe Hx Hy) as [Hclose Hout].
    split; [done|]. intros Hi. apply Hout.
    pose proof (length_framed ub). lia.
Qed.

End WithLibraries.

(** The image cover, and the wave cover under NumPy 1.x. *)
Lemma stego_close_to_cover_witness :
  (exists stego w',
     @hide_message_in_image plain_text pillow_grey exact_format (lit "cover.png")
       (lit "HI") (lit "stego.png") world_cover = (Ok true, w') /\
     fs w' !! lit "stego.png" = Some (ImageFile stego) /\
     im_mode stego = im_mode cover_100 /\
     im_width stego = im_width cover_100 /\
     im_height stego = im_height cover_100 /\
     length (im_px stego) = length (im_px cover_100) /\
     forall i x y, im_px cover_100 !! i = Some x -> im_px stego !! i = Some y ->
       0 <= y < 256 /\ Z.abs (y - x) <= 1 /\
       (framed_length [72; 73] <= Z.of_nat i -> y = x)) /\
  (exists stego stego_samples w',
     @hide_message_in_audio plain_text numpy_1 exact_format (lit "cover.wav")
       (lit "HI") (lit "stego.wav") world_wave = (Ok true, w') /\
     fs w' !! lit "stego.wav" = Some (WaveFile stego) /\
     nchannels (wv_params stego) = nchannels (wv_params wave_2000) /\
     sampwidth (wv_params stego) = sampwidth (wv_params wave_2000) /\
     framerate (wv_params stego) = framerate (wv_params wave_2000) /\
     np_frombuffer_int16 (wv_frames stego) = Ok stego_samples /\
     length stego_samples = length (replicate 2000 0) /\
     forall i x y, replicate 2000 0 !! i = Some x ->
       stego_samples !! i = Some y ->
       -32768 <= y < 32768 /\ Z.abs (y - x) <= 1 /\
       (framed_length [72; 73] <= Z.of_nat i -> y = x)).
Proof.
  split.
  - apply (proj1 (@stego_close_to_cover plain_text numpy_1 pillow_grey exact_format)
             world_cover (lit "cover.png") cover_100 (lit "HI") [72; 73]
             (lit "stego.png") image_carrier_cover).
    + reflexivity.
    + vm_compute. discriminate.
    + reflexivity.
  - apply (proj2 (@stego_close_to_cover plain_text numpy_1 pillow_grey exact_format)
             world_wave (lit "cover.wav") (wv_params wave_2000)
             (replicate 2000 0) (lit "HI") [72; 73] (lit "stego.wav")
             eq_refl audio_carrier_wave header_fits_wave).
    + reflexivity.
    + vm_compute. discriminate.
    + reflexivity.
Defined.

End ArrayProofs.

(* ================================================================== *)
(** * Further properties, 2.  Hiding, extracting and the reports        *)
(* ================================================================== *)

Module StegoProofs.
Import CodecProofs EmbedProofs UnframeProofs HideProofs CapacityProofs
  CryptoProofs PipelineProofs.

Section WithLibraries.
Context `{!PyText, !NumPy, !Pillow, !FloatFormat}.

(** ** Hiding a text and extracting it, without encryption *)

Lemma stego_image_round_trip w image_path im (message : str)
    (utf8_bytes : bytes) output_path :
  valid_str message ->
  str_encode_utf8 message = Ok utf8_bytes ->
  image_carrier w image_path im ->
  framed_length utf8_bytes <= Z.of_nat (length (im_px im)) ->
  read_only w output_path = false ->
  first_occurrence END_MARKER (framed utf8_bytes) (8 * length utf8_bytes) ->
  exists w',
    hide_message_in_image image_path message output_path w = (Ok true, w') /\
    (extract_message_from_image output_path w').1 = Ok message.
Proof.
  intros Hvalid Henc Hc Hfits Hro Hmarker.
  destruct (utf8_roundtrip message Strict Hvalid) as (b & Hb & Hbytes & Hdec).
  assert (b = utf8_bytes) as -> by congruence.
  destruct (hide_image_fits _ _ _ _ _ _ Hc Henc Hfits Hro)
    as (R & line & Hbody & Hframe & HR).
  eexists. split; [by rewrite hide_image_of_body, Hbody|].
  pose proof (load_stored_image w output_path im R line) as Hload.
  cbv zeta in Hload.
  pose proof (length_framed utf8_bytes) as Hlen.
  unfold framed_length in Hlen, Hfits.
  pose proof (embedded_lsbs _ _ _ Hframe ltac:(lia)) as Hlsbs.
  pose proof (extract_image_found _ _ _ (8 * length utf8_bytes) Hload) as Hext.
  unfold np_array_of_image in Hext. cbn [nd_flat im_px] in Hext.
  rewrite Hlsbs in Hext.
  specialize (Hext (first_occurrence_app _ _ _ _ Hmarker)).
  by rewrite take_framed, (binary_to_text_digits message _ Hbytes Hdec) in Hext.
Qed.

Lemma stego_audio_round_trip w audio_path params samples (message : str)
    (utf8_bytes : bytes) output_path :
  numpy_promotion = ValueBased ->
  valid_str message ->
  str_encode_utf8 message = Ok utf8_bytes ->
  audio_carrier w audio_path params samples ->
  header_fits params samples ->
  framed_length utf8_bytes <= Z.of_nat (length samples) ->
  read_only w output_path = false ->
  first_occurrence END_MARKER (framed utf8_bytes) (8 * length utf8_bytes) ->
  exists w',
    hide_message_in_audio audio_path message output_path w = (Ok true, w') /\
    (extract_message_from_audio output_path w').1 = Ok message.
Proof.
  intros Hvb Hvalid Henc Hc Hheader Hfits Hro Hmarker.
  destruct (utf8_roundtrip message Strict Hvalid) as (b & Hb & Hbytes & Hdec).
  assert (b = utf8_bytes) as -> by congruence.
  destruct (hide_audio_fits _ _ _ _ _ _ _ Hvb Hc Hheader Henc Hfits Hro)
    as (R & line & Hbody & Hframe & HR).
  eexists. split; [by rewrite hide_audio_of_body, Hbody|].
  pose proof (length_framed utf8_bytes) as Hlen.
  unfold framed_length in Hlen, Hfits.
  pose proof (embedded_lsbs _ _ _ Hframe ltac:(lia)) as Hlsbs.
  match goal with |- context [extract_message_from_audio _ ?w1] =>
    pose proof (extract_audio_found w1 output_path _ R
                  (8 * length utf8_bytes)
                  ltac:(unfold wave_open_read; cbn [fs printed stored];
                        by rewrite lookup_insert_eq)
                  (frombuffer_tobytes R HR)) as Hext
  end.
  rewrite Hlsbs in Hext.
  specialize (Hext (first_occurrence_app _ _ _ _ Hmarker)).
  by rewrite take_framed, (binary_to_text_digits message _ Hbytes Hdec) in Hext.
Qed.

(** X3. Hiding a text and extracting it, without encryption: for every
    text of Unicode scalar values whose framed digits hold the end marker
    nowhere before their end, and every image carrier that the framed
    digits fit, [hide_message_in_image] returns [True] and
    [extract_message_from_image] on the file it wrote returns exactly the
    text.  The same holds of [hide_message_in_audio] and
    [extract_message_from_audio] for a wave carrier whose header can be
    written back, under a NumPy that promotes a Python integer by its value
    (NumPy 1.x).  The empty text is such a text. *)
Theorem stego_round_trip :
  (forall w image_path im (message : str) (utf8_bytes : bytes) output_path,
     valid_str message ->
     str_encode_utf8 message = Ok utf8_bytes ->
     image_carrier w image_path im ->
     framed_length utf8_bytes <= Z.of_nat (length (im_px im)) ->
     read_only w output_path = false ->
     first_occurrence END_MARKER (framed utf8_bytes) (8 * length utf8_bytes) ->
     exists w',
       hide_message_in_image image_path message output_path w
         = (Ok true, w') /\
       (extract_message_from_image output_path w').1 = Ok message) /\
  (forall w audio_path params samples (message : str) (utf8_bytes : bytes)
          output_path,
     numpy_promotion = ValueBased ->
     valid_str message ->
     str_encode_utf8 message = Ok utf8_bytes ->
     audio_carrier w audio_path params samples ->
     header_fits params samples ->
     framed_length utf8_bytes <= Z.of_nat (length samples) ->
     read_only w output_path = false ->
     first_occurrence END_MARKER (framed utf8_bytes) (8 * length utf8_bytes) ->
     exists w',
       hide_message_in_audio audio_path message output_path w
         = (Ok true, w') /\
       (extract_message_from_audio output_path w').1 = Ok message) /\
  first_occurrence END_MARKER (framed []) (8 * length (@nil Z)).
Proof.
  split; [|split].
  - intros. by eapply stego_image_round_trip.
  - intros. by eapply stego_audio_round_trip.
  - apply first_occurrence_computed. reflexivity.
Qed.

(** ** What the extraction does to the world *)

Lemma extract_image_body_cases image_path w r w' :
  extract_message_from_image_body image_path w = (r, w') ->
  (exists e, r = Raise e /\ w' = w) \/
  (exists text, r = Ok text /\
     w' = printed w ([0x2705] ++ lit " Message extracted successfully! Length: "
                     ++ str_of_int (Z.of_nat (length text))
                     ++ lit " characters")).
Proof.
  unfold extract_message_from_image_body. intros Hrun.
  apply io_bind_inv in Hrun as [(arr & w1 & Hload & Hrun)|(e & Hload & ->)].
  2: { left. exists e. split; [done|]. by eapply reads_only_load_image_array. }
  apply reads_only_load_image_array in Hload as ->.
  apply io_bind_inv in Hrun
    as [(digits & w1 & [= Hd <-] & Hrun)|(e & [= He <-] & ->)].
  2: { left. by exists e. }
  destruct (_ =? -1); [injection Hrun as <- <-; left; by eexists|].
  apply io_bind_inv in Hrun
    as [(text & w1 & [= Ht <-] & Hrun)|(e & [= He <-] & ->)].
  2: { left. by exists e. }
  injection Hrun as <- <-. right. by exists text.
Qed.

Lemma extract_audio_body_cases audio_path w r w' :
  extract_message_from_audio_body audio_path w = (r, w') ->
  (exists e, r = Raise e /\ w' = w) \/
  (exists text, r = Ok text /\
     w' = printed w ([0x2705] ++ lit " Message extracted from audio! Length: "
                     ++ str_of_int (Z.of_nat (length text))
                     ++ lit " characters")).
Proof.
  unfold extract_message_from_audio_body. intros Hrun.
  apply io_bind_inv in Hrun as [(audio & w1 & Hopen & Hrun)|(e & Hopen & ->)].
  2: { left. exists e. split; [done|]. by eapply reads_only_wave_open_read. }
  apply reads_only_wave_open_read in Hopen as ->.
  apply io_bind_inv in Hrun
    as [(data & w1 & [= Hd <-] & Hrun)|(e & [= He <-] & ->)].
  2: { left. by exists e. }
  destruct (_ =? -1); [injection Hrun as <- <-; left; by eexists|].
  apply io_bind_inv in Hrun
    as [(text & w1 & [= Ht <-] & Hrun)|(e & [= He <-] & ->)].
  2: { left. by exists e. }
  injection Hrun as <- <-. right. by exists text.
Qed.

Lemma extract_image_body_missing image_path w :
  fs w !! image_path = None ->
  extract_message_from_image_body image_path w
  = (Raise (no_such_file image_path), w).
Proof.
  intros Hnone. unfold extract_message_from_image_body, load_image_array.
  apply io_bind_raise, io_bind_raise. unfold Image_open. by rewrite Hnone.
Qed.

Lemma extract_audio_body_missing audio_path w :
  fs w !! audio_path = None ->
  extract_message_from_audio_body audio_path w
  = (Raise (no_such_file audio_path), w).
Proof.
  intros Hnone. unfold extract_message_from_audio_body.
  apply io_bind_raise. unfold wave_open_read. by rewrite Hnone.
Qed.

(** X4. The extraction only reads: on every path and in every world,
    [extract_message_from_image] and [extract_message_from_audio] leave
    the files as they are and print exactly one line.  An exception of the
    [try] block is raised again as it is, class and message, after the line
    that reports it; a path with no file gives the [FileNotFoundError] of
    the interpreter, an [OSError] whose message is
    "[Errno 2] No such file or directory: " and the [repr] of the path. *)
Theorem extraction_only_reads :
  (forall image_path w,
     exists r line,
       extract_message_from_image image_path w = (r, printed w line) /\
       (forall e, r = Raise e <->
          extract_message_from_image_body image_path w = (Raise e, w)) /\
       (forall e, r = Raise e ->
          line = [0x274C] ++ lit " Error extracting message: " ++ exn_msg e) /\
       (fs w !! image_path = None ->
          r = Raise (MkExn OSError
                       (lit "[Errno 2] No such file or directory: "
                        ++ repr image_path)))) /\
  (forall audio_path w,
     exists r line,
       extract_message_from_audio audio_path w = (r, printed w line) /\
       (forall e, r = Raise e <->
          extract_message_from_audio_body audio_path w = (Raise e, w)) /\
       (forall e, r = Raise e ->
          line = [0x274C] ++ lit " Error extracting message from audio: "
                 ++ exn_msg e) /\
       (fs w !! audio_path = None ->
          r = Raise (MkExn OSError
                       (lit "[Errno 2] No such file or directory: "
                        ++ repr audio_path)))).
Proof.
  split.
  - intros image_path w. unfold extract_message_from_image, io_try.
    destruct (extract_message_from_image_body image_path w) as [r w'] eqn:Hbody.
    destruct (extract_image_body_cases _ _ _ _ Hbody)
      as [(e & -> & ->)|(text & -> & ->)].
    + do 2 eexists. split; [reflexivity|]. split; [|split].
      * intros e'. split; [by intros [= <-]|by intros [= <-]].
      * by intros e' [= <-].
      * intros Hnone. rewrite (extract_image_body_missing _ _ Hnone) in Hbody.
        by injection Hbody as <-.
    + do 2 eexists. split; [reflexivity|]. split; [|split].
      * intros e'. split; [done|]. intros [=].
      * done.
      * intros Hnone. by rewrite (extract_image_body_missing _ _ Hnone) in Hbody.
  - intros audio_path w. unfold extract_message_from_audio, io_try.
    destruct (extract_message_from_audio_body audio_path w) as [r w'] eqn:Hbody.
    destruct (extract_audio_body_cases _ _ _ _ Hbody)
      as [(e & -> & ->)|(text & -> & ->)].
    + do 2 eexists. split; [reflexivity|]. split; [|split].
      * intros e'. split; [by intros [= <-]|by intros [= <-]].
      * by intros e' [= <-].
      * intros Hnone. rewrite (extract_audio_body_missing _ _ Hnone) in Hbody.
        by injection Hbody as <-.
    + do 2 eexists. split; [reflexivity|]. split; [|split].
      * intros e'. split; [done|]. intros [=].
      * done.
      * intros Hnone. by rewrite (extract_audio_body_missing _ _ Hnone) in Hbody.
Qed.

(** ** The capacity reports *)

Lemma reads_only_image_capacity_body path :
  reads_only (get_image_capacity_body path).
Proof.
  unfold get_image_capacity_body.
  apply reads_only_bind; [apply reads_only_load_image_array|]. intros arr.
  apply reads_only_bind; [apply reads_only_lift|]. intros [h wd].
  apply reads_only_ret.
Qed.

Lemma reads_only_audio_capacity_body path :
  reads_only (get_audio_capacity_body path).
Proof.
  unfold get_audio_capacity_body.
  apply reads_only_bind; [apply reads_only_wave_open_read|]. intros audio.
  apply reads_only_bind; [apply reads_only_lift|]. intros data.
  destruct (_ =? 0); [apply reads_only_raise|apply reads_only_ret].
Qed.

(** X5. The capacity reports never raise and only read: on every path and
    in every world, [get_image_capacity] and [get_audio_capacity] return a
    dictionary and leave the world as it is, standard output included; the
    dictionary is the one with the single key ['error'] exactly when the
    [try] block raised, and then it holds the message of the exception. *)
Theorem capacity_reports_total :
  (forall path w,
     exists rep, get_image_capacity path w = (Ok rep, w) /\
       forall message, rep = ErrorReport message <->
         exists e, get_image_capacity_body path w = (Raise e, w) /\
                   message = exn_msg e) /\
  (forall path w,
     exists rep, get_audio_capacity path w = (Ok rep, w) /\
       forall message, rep = ErrorReport message <->
         exists e, get_audio_capacity_body path w = (Raise e, w) /\
                   message = exn_msg e).
Proof.
  split; intros path w.
  - unfold get_audio_capacity, get_image_capacity, io_try.
    destruct (get_image_capacity_body path w) as [[c|e] w'] eqn:Hbody;
      pose proof (reads_only_image_capacity_body _ _ _ _ Hbody) as ->.
    + rewrite (io_bind_ok _ _ _ _ _ Hbody). eexists. split; [reflexivity|].
      intros message. split; [done|]. by intros (e & [=] & _).
    + rewrite (io_bind_raise _ _ _ _ _ Hbody). eexists. split; [reflexivity|].
      intros message. split.
      * intros [= <-]. by exists e.
      * by intros (e' & [= <-] & ->).
  - unfold get_audio_capacity, io_try.
    destruct (get_audio_capacity_body path w) as [[c|e] w'] eqn:Hbody;
      pose proof (reads_only_audio_capacity_body _ _ _ _ Hbody) as ->.
    + rewrite (io_bind_ok _ _ _ _ _ Hbody). eexists. split; [reflexivity|].
      intros message. split; [done|]. by intros (e & [=] & _).
    + rewrite (io_bind_raise _ _ _ _ _ Hbody). eexists. split; [reflexivity|].
      intros message. split.
      * intros [= <-]. by exists e.
      * by intros (e' & [= <-] & ->).
Qed.

(** ** The report and what really fits *)

Lemma hide_image_iff w image_path im encrypted_message utf8_bytes output_path :
  image_carrier w image_path im ->
  str_encode_utf8 encrypted_message = Ok utf8_bytes ->
  read_only w output_path = false ->
  (hide_message_in_image image_path encrypted_message output_path w).1
  = Ok (bool_decide (framed_length utf8_bytes <= Z.of_nat (length (im_px im)))).
Proof.
  intros Hc Henc Hro. rewrite hide_image_of_body.
  destruct (decide (framed_length utf8_bytes <= Z.of_nat (length (im_px im))))
    as [Hfits|Hlarge].
  - rewrite bool_decide_true by done.
    destruct (hide_image_fits _ _ _ _ _ _ Hc Henc Hfits Hro)
      as (R & line & -> & _). done.
  - rewrite bool_decide_false by done.
    by rewrite (hide_image_too_large _ _ _ _ _ output_path Hc Henc ltac:(lia)).
Qed.

Lemma hide_audio_iff w audio_path params samples encrypted_message utf8_bytes
    output_path :
  numpy_promotion = ValueBased ->
  audio_carrier w audio_path params samples ->
  header_fits params samples ->
  str_encode_utf8 encrypted_message = Ok utf8_bytes ->
  read_only w output_path = false ->
  (hide_message_in_audio audio_path encrypted_message output_path w).1
  = Ok (bool_decide (framed_length utf8_bytes <= Z.of_nat (length samples))).
Proof.
  intros Hvb Hc Hheader Henc Hro. rewrite hide_audio_of_body.
  destruct (decide (framed_length utf8_bytes <= Z.of_nat (length samples)))
    as [Hfits|Hlarge].
  - rewrite bool_decide_true by done.
    destruct (hide_audio_fits _ _ _ _ _ _ _ Hvb Hc Hheader Henc Hfits Hro)
      as (R & line & -> & _). done.
  - rewrite bool_decide_false by done.
    by rewrite (hide_audio_too_large _ _ _ _ _ _ output_path Hc Henc ltac:(lia)).
Qed.

(** Under NumPy 2 no message is hidden in a wave carrier. *)
Lemma hide_audio_never w audio_path params samples encrypted_message
    utf8_bytes output_path :
  numpy_promotion = Weak ->
  audio_carrier w audio_path params samples ->
  str_encode_utf8 encrypted_message = Ok utf8_bytes ->
  (hide_message_in_audio audio_path encrypted_message output_path w).1
  = Ok false.
Proof.
  intros Hweak Hc Henc. rewrite hide_audio_of_body.
  destruct (decide (framed_length utf8_bytes <= Z.of_nat (length samples)))
    as [Hfits|Hlarge].
  - by rewrite (hide_audio_overflow _ _ _ _ _ _ output_path Hweak Hc Henc Hfits).
  - by rewrite (hide_audio_too_large _ _ _ _ _ _ output_path Hc Henc ltac:(lia)).
Qed.

(** X6. What the capacity report promises: for an image that
    [get_image_capacity] reports on, a message of [n] UTF-8 octets is
    hidden (the hide function returns [True], the output path being
    writable) exactly when [8 * n + 16 <= max_bits].  So every message of
    at most [recommended_message_length] octets is hidden, and none of
    [max_characters - 1] octets or more is: the longest one has
    [max_characters - 2].  The same holds of the report of
    [get_audio_capacity] for a wave file whose header can be written back,
    under a NumPy that promotes a Python integer by its value (NumPy 1.x).
    Under the promotion of NumPy 2 the report is the same, but no message
    is hidden in a wave file, whatever its length. *)
Theorem capacity_report_sound :
  (forall w image_path im, image_carrier w image_path im ->
     exists c, get_image_capacity image_path w = (Ok (Report c), w) /\
       forall encrypted_message utf8_bytes output_path,
         str_encode_utf8 encrypted_message = Ok utf8_bytes ->
         read_only w output_path = false ->
         let n := Z.of_nat (length utf8_bytes) in
         let hidden :=
           (hide_message_in_image image_path encrypted_message output_path w).1
         in
         (hidden = Ok true <-> 8 * n + 16 <= ic_max_bits c) /\
         (hidden = Ok false <-> ic_max_bits c < 8 * n + 16) /\
         (n <= ic_recommended_message_length c -> hidden = Ok true) /\
         (ic_max_characters c - 1 <= n -> hidden = Ok false)) /\
  (forall w audio_path params samples,
     audio_carrier w audio_path params samples ->
     exists c, get_audio_capacity audio_path w = (Ok (Report c), w) /\
       forall encrypted_message utf8_bytes output_path,
         str_encode_utf8 encrypted_message = Ok utf8_bytes ->
         read_only w output_path = false ->
         let n := Z.of_nat (length utf8_bytes) in
         let hidden :=
           (hide_message_in_audio audio_path encrypted_message output_path w).1
         in
         (numpy_promotion = ValueBased -> header_fits params samples ->
          (hidden = Ok true <-> 8 * n + 16 <= ac_max_bits c) /\
          (hidden = Ok false <-> ac_max_bits c < 8 * n + 16) /\
          (n <= ac_recommended_message_length c -> hidden = Ok true) /\
          (ac_max_characters c - 1 <= n -> hidden = Ok false)) /\
         (numpy_promotion = Weak -> hidden = Ok false)).
Proof.
  split.
  - intros w image_path im Hc.
    destruct (image_capacity_of_carrier _ _ _ Hc) as (c & Hrun & Hbits).
    exists c. split; [done|].
    intros msg ub out Henc Hro n hidden.
    pose proof (image_capacity_fields w image_path c) as Hfields.
    rewrite Hrun in Hfields. destruct (Hfields eq_refl) as (_ & Hmax & Hrec).
    subst hidden. rewrite (hide_image_iff _ _ _ _ _ _ Hc Henc Hro).
    unfold framed_length. fold n. rewrite <- Hbits.
    destruct (decide (8 * n + 16 <= ic_max_bits c)) as [Hfits|Hlarge];
      [rewrite bool_decide_true by done|rewrite bool_decide_false by done];
      repeat split; intros;
      first [done | discriminate | lia | (exfalso; dlia)].
  - intros w audio_path params samples Hc.
    destruct (audio_capacity_of_carrier _ _ _ _ Hc) as (c & Hrun & Hbits).
    exists c. split; [done|].
    intros msg ub out Henc Hro n hidden.
    pose proof (audio_capacity_fields w audio_path c) as Hfields.
    rewrite Hrun in Hfields. destruct (Hfields eq_refl) as (_ & Hmax & Hrec).
    subst hidden. split.
    + intros Hvb Hheader.
      rewrite (hide_audio_iff _ _ _ _ _ _ _ Hvb Hc Hheader Henc Hro).
      unfold framed_length. fold n. rewrite <- Hbits.
      destruct (decide (8 * n + 16 <= ac_max_bits c)) as [Hfits|Hlarge];
        [rewrite bool_decide_true by done|rewrite bool_decide_false by done];
        repeat split; intros;
        first [done | discriminate | lia | (exfalso; dlia)].
    + intros Hweak. by eapply hide_audio_never.
Qed.

End WithLibraries.

Lemma marker_only_at_end_HI :
  first_occurrence END_MARKER (framed [72; 73]) (8 * length [72; 73]).
Proof. apply first_occurrence_computed. vm_compute. reflexivity. Qed.

(** The text "HI" in the image cover, and in the wave cover under
    NumPy 1.x. *)
Lemma stego_round_trip_witness :
  (exists w',
     @hide_message_in_image plain_text pillow_grey exact_format (lit "cover.png")
       (lit "HI") (lit "stego.png") world_cover = (Ok true, w') /\
     (@extract_message_from_image plain_text pillow_grey (lit "stego.png") w').1
     = Ok (lit "HI")) /\
  (exists w',
     @hide_message_in_audio plain_text numpy_1 exact_format (lit "cover.wav")
       (lit "HI") (lit "stego.wav") world_wave = (Ok true, w') /\
     (@extract_message_from_audio plain_text (lit "stego.wav") w').1 = Ok (lit "HI")).
Proof.
  split.
  - apply (proj1 (@stego_round_trip plain_text numpy_1 pillow_grey exact_format)
             world_cover (lit "cover.png") cover_100 (lit "HI") [72; 73]
             (lit "stego.png")).
    + exact valid_lit_HI.
    + reflexivity.
    + exact image_carrier_cover.
    + vm_compute. discriminate.
    + reflexivity.
    + exact marker_only_at_end_HI.
  - apply (proj1 (proj2 (@stego_round_trip plain_text numpy_1 pillow_grey exact_format))
             world_wave (lit "cover.wav") (wv_params wave_2000)
             (replicate 2000 0) (lit "HI") [72; 73] (lit "stego.wav")
             eq_refl valid_lit_HI eq_refl audio_carrier_wave
             header_fits_wave).
    + vm_compute. discriminate.
    + reflexivity.
    + exact marker_only_at_end_HI.
Defined.


Lemma capacity_report_sound_witness :
  exists c,
    @get_image_capacity plain_text pillow_grey (lit "cover.png") world_cover
      = (Ok (Report c), world_cover) /\
    forall encrypted_message utf8_bytes output_path,
      str_encode_utf8 encrypted_message = Ok utf8_bytes ->
      read_only world_cover output_path = false ->
      let n := Z.of_nat (length utf8_bytes) in
      let hidden :=
        (@hide_message_in_image plain_text pillow_grey exact_format (lit "cover.png")
           encrypted_message output_path world_cover).1 in
      (hidden = Ok true <-> 8 * n + 16 <= ic_max_bits c) /\
      (hidden = Ok false <-> ic_max_bits c < 8 * n + 16) /\
      (n <= ic_recommended_message_length c -> hidden = Ok true) /\
      (ic_max_characters c - 1 <= n -> hidden = Ok false).
Proof.
  exact (proj1 (@capacity_report_sound plain_text numpy_1 pillow_grey exact_format)
           world_cover (lit "cover.png") cover_100 image_carrier_cover).
Defined.

(** A cover of 24 bits: the report recommends a negative length, and only
    the empty message fits. *)
Example capacity_report_small_cover :
  let w := MkWorld {[ lit "s.png" :=
                        ImageFile (MkImage (lit "RGB") 4 2 (replicate 24 7)) ]}
             (fun _ => false) [] in
  exists c,
    (@get_image_capacity plain_text pillow_grey (lit "s.png") w).1 = Ok (Report c) /\
    ic_max_characters c = 3 /\ ic_recommended_message_length c = -47 /\
    (@hide_message_in_image plain_text pillow_grey exact_format (lit "s.png") (lit "")
       (lit "o.png") w).1 = Ok true /\
    (@hide_message_in_image plain_text pillow_grey exact_format (lit "s.png") (lit "a")
       (lit "o.png") w).1 = Ok true /\
    (@hide_message_in_image plain_text pillow_grey exact_format (lit "s.png") (lit "ab")
       (lit "o.png") w).1 = Ok false.
Proof.
  eexists. split; [vm_compute; reflexivity|].
  repeat split; vm_compute; reflexivity.
Qed.

End StegoProofs.

(* ================================================================== *)
(** * Further properties, 3.  Encryption: lengths, errors, helpers      *)
(* ================================================================== *)

Module CryptoLengthProofs.
Import CodecProofs EmbedProofs UnframeProofs HideProofs CapacityProofs
  CryptoProofs PipelineProofs StegoProofs.

Lemma b64encode_length_exact (data : bytes) :
  length (b64encode data) = (4 * ((length data + 2) / 3))%nat.
Proof.
  induction data as [data IH] using (induction_ltof1 _ (@length Z)).
  unfold ltof in IH. destruct data as [|a [|b [|c rest]]]; try reflexivity.
  cbn [b64encode]. rewrite length_app, (IH rest) by (simpl; lia).
  cbn [length].
  replace (S (S (S (length rest))) + 2)%nat
    with (1 * 3 + (length rest + 2))%nat by lia.
  rewrite Nat.div_add_l by lia. lia.
Qed.

Lemma pad_length_exact (data : bytes) :
  length (pad data) = (16 * (length data / 16 + 1))%nat.
Proof.
  unfold pad. rewrite length_app, length_replicate.
  pose proof (Nat.div_mod_eq (length data) 16).
  pose proof (Nat.mod_upper_bound (length data) 16). lia.
Qed.

Section WithLibraries.
Context `{!PyText, !NumPy, !Pillow, !FloatFormat, !Crypto}.

Lemma encrypted_with_iv_length (mb pb iv : bytes) :
  Forall is_byte mb -> is_block iv ->
  length (encrypted_with_iv mb pb iv) = (32 + 16 * (length mb / 16))%nat.
Proof.
  intros Hmb Hiv. unfold encrypted_with_iv.
  rewrite length_app, pad_length_exact.
  replace (16 * (length mb / 16 + 1) / 16)%nat with (length mb / 16 + 1)%nat
    by (symmetry; rewrite Nat.mul_comm; apply Nat.div_mul; lia).
  destruct (cbc_blocks_round_trip (length mb / 16 + 1) (sha256 pb) iv (pad mb))
    as (Hl & _);
    [apply sha256_digest|done|apply pad_length_exact|by apply pad_bytes|].
  rewrite Hl. destruct Hiv as [-> _]. lia.
Qed.


Lemma encrypt_message_length (P pw : str) (iv mb : bytes) :
  valid_str P -> valid_str pw -> is_block iv ->
  str_encode_utf8 P = Ok mb ->
  exists out,
    encrypt_message P pw iv = Ok out /\
    str_encode_utf8 out = Ok out /\
    length out = encrypted_chars (length mb) /\
    Forall is_ascii out.
Proof.
  intros HP Hpw Hiv Hmb.
  destruct (utf8_roundtrip P Strict HP) as (mb' & Hm & Hbytes & _).
  assert (mb' = mb) as -> by congruence.
  destruct (utf8_roundtrip pw Strict Hpw) as (pb & Hp & _ & _).
  exists (b64encode (encrypted_with_iv mb pb iv)).
  destruct (encrypted_with_iv_bytes mb pb iv Hbytes Hiv) as (Hb & _).
  pose proof (b64encode_ascii _ Hb) as Hascii.
  split; [by apply encrypt_message_ok|].
  split; [by apply encode_ascii|]. split; [|done].
  rewrite b64encode_length_exact, encrypted_with_iv_length by done.
  unfold encrypted_chars. do 2 f_equal. lia.
Qed.

(** X7. What a plaintext costs: for a plaintext of [n] UTF-8 octets, any
    password and any IV, [encrypt_message] returns a text of ASCII
    characters whose length is [4 * ((34 + 16 * (n // 16)) // 3)]; it
    depends on the plaintext only through [n // 16], and not on the
    password or the IV.  Hence the hide chain of the application on an
    image (encrypt, then hide, the output path being writable) returns
    [True] exactly when eight times that length plus sixteen is at most the
    capacity of the carrier, and [False] otherwise.  So does the chain on a
    wave file whose header can be written back, under a NumPy that promotes
    a Python integer by its value (NumPy 1.x); under the promotion of
    NumPy 2 the chain on a wave file returns [False] always. *)
Theorem plaintext_cost :
  (forall (P pw : str) (iv mb : bytes),
     valid_str P -> valid_str pw -> is_block iv ->
     str_encode_utf8 P = Ok mb ->
     exists out,
       encrypt_message P pw iv = Ok out /\
       length out = encrypted_chars (length mb) /\
       Forall is_ascii out) /\
  (forall w cover_path im (P pw : str) (iv mb : bytes) output_path,
     valid_str P -> valid_str pw -> is_block iv ->
     str_encode_utf8 P = Ok mb ->
     image_carrier w cover_path im ->
     read_only w output_path = false ->
     (hide_in_image cover_path P pw iv output_path w).1
     = Ok (bool_decide
             (8 * Z.of_nat (encrypted_chars (length mb)) + 16
              <= Z.of_nat (length (im_px im))))) /\
  (forall w cover_path params samples (P pw : str) (iv mb : bytes) output_path,
     valid_str P -> valid_str pw -> is_block iv ->
     str_encode_utf8 P = Ok mb ->
     audio_carrier w cover_path params samples ->
     read_only w output_path = false ->
     (numpy_promotion = ValueBased -> header_fits params samples ->
      (hide_in_audio cover_path P pw iv output_path w).1
      = Ok (bool_decide
              (8 * Z.of_nat (encrypted_chars (length mb)) + 16
               <= Z.of_nat (length samples)))) /\
     (numpy_promotion = Weak ->
      (hide_in_audio cover_path P pw iv output_path w).1 = Ok false)).
Proof.
  split; [|split].
  - intros P pw iv mb HP Hpw Hiv Hmb.
    destruct (encrypt_message_length P pw iv mb HP Hpw Hiv Hmb)
      as (out & Henc & _ & Hlen & Hascii).
    by exists out.
  - intros w cover_path im P pw iv mb output_path HP Hpw Hiv Hmb Hc Hro.
    destruct (encrypt_message_length P pw iv mb HP Hpw Hiv Hmb)
      as (out & Henc & Hself & Hlen & _).
    unfold hide_in_image. rewrite io_bind_lift, Henc.
    rewrite (hide_image_iff _ _ _ _ _ _ Hc Hself Hro).
    unfold framed_length. by rewrite Hlen.
  - intros w cover_path params samples P pw iv mb output_path
      HP Hpw Hiv Hmb Hc Hro.
    destruct (encrypt_message_length P pw iv mb HP Hpw Hiv Hmb)
      as (out & Henc & Hself & Hlen & _).
    unfold hide_in_audio. rewrite io_bind_lift, Henc. split.
    + intros Hvb Hheader.
      rewrite (hide_audio_iff _ _ _ _ _ _ _ Hvb Hc Hheader Hself Hro).
      unfold framed_length. by rewrite Hlen.
    + intros Hweak. by eapply hide_audio_never.
Qed.

(** ** What [decrypt_message] accepts *)

Lemma decrypt_message_decoded (c pw : str) (pb utf8 data : bytes) :
  str_encode_utf8 pw = Ok pb ->
  str_encode_utf8 c = Ok utf8 -> b64decode utf8 = Ok data ->
  decrypt_message c pw
  = try_except
      (cipher ← AES_new_CBC (sha256 pb) (take 16 data);
       decrypted_padded ← cbc_decrypt cipher (drop 16 data);
       decrypted_message ← unpad decrypted_padded;
       bytes_decode_utf8 Strict decrypted_message)
      is_Exception
      (fun e => Raise (MkExn Exception
                         (lit "Decryption failed: " ++ exn_msg e))).
Proof.
  intros Hp Hc Hd. unfold decrypt_message, derive_key.
  rewrite Hp. cbn [mbind result_bind mret result_ret].
  rewrite Hc. cbn [mbind result_bind]. rewrite Hd. reflexivity.
Qed.

Lemma AES_new_CBC_short (key iv : bytes) :
  is_key key -> length iv <> 16%nat ->
  AES_new_CBC key iv
  = Raise (MkExn ValueError
             (lit "Incorrect IV length (it must be 16 bytes long)")).
Proof.
  intros [Hk _] Hiv. unfold AES_new_CBC. rewrite Hk.
  rewrite bool_decide_true by set_solver. cbn [negb].
  by destruct (Nat.eqb_spec (length iv) 16).
Qed.

(** X8. What [decrypt_message] accepts, and how the two functions fail:
    every exception of [encrypt_message] and of [decrypt_message] is an
    [Exception] whose message starts with "Encryption failed: " or
    "Decryption failed: ".  [decrypt_message] returns only on a text whose
    base64 decoding has a multiple of sixteen octets and at least
    thirty-two; on fewer than sixteen octets the reason is the length of
    the IV, on exactly sixteen the zero-length input of [unpad], and on a
    longer decoding that is not a multiple of sixteen the block boundary of
    the CBC mode. *)
Theorem decrypt_message_rejects :
  (forall (P pw : str) (iv : bytes) e,
     encrypt_message P pw iv = Raise e ->
     exn_cls e = Exception /\
     exists reason, exn_msg e = lit "Encryption failed: " ++ reason) /\
  (forall (c pw : str) e,
     decrypt_message c pw = Raise e ->
     exn_cls e = Exception /\
     exists reason, exn_msg e = lit "Decryption failed: " ++ reason) /\
  (forall (c pw P : str),
     decrypt_message c pw = Ok P ->
     exists utf8 data n,
       str_encode_utf8 c = Ok utf8 /\ b64decode utf8 = Ok data /\
       length data = (16 * (n + 2))%nat) /\
  (forall (c pw : str) (utf8 data : bytes),
     valid_str pw ->
     str_encode_utf8 c = Ok utf8 -> b64decode utf8 = Ok data ->
     ((length data < 16)%nat ->
      decrypt_message c pw
      = Raise (MkExn Exception (lit
          "Decryption failed: Incorrect IV length (it must be 16 bytes long)")))
     /\
     (length data = 16%nat ->
      decrypt_message c pw
      = Raise (MkExn Exception (lit
          "Decryption failed: Zero-length input cannot be unpadded"))) /\
     ((16 < length data)%nat -> (length data mod 16 <> 0)%nat ->
      decrypt_message c pw
      = Raise (MkExn Exception (lit
          "Decryption failed: Data must be padded to 16 byte boundary in CBC mode")))).
Proof.
  split; [|split; [|split]].
  - intros P pw iv e. unfold encrypt_message, try_except.
    match goal with |- context [match ?m with _ => _ end] =>
      destruct m as [out|e0] end; [done|].
    cbn [is_Exception]. intros [= <-]. split; [done|]. by eexists.
  - intros c pw e. unfold decrypt_message, try_except.
    match goal with |- context [match ?m with _ => _ end] =>
      destruct m as [out|e0] end; [done|].
    cbn [is_Exception]. intros [= <-]. split; [done|]. by eexists.
  - intros c pw P. unfold decrypt_message, derive_key.
    destruct (str_encode_utf8 pw) as [pb|e0]; [|done].
    cbn [mbind result_bind mret result_ret].
    destruct (str_encode_utf8 c) as [utf8|e0] eqn:Hc; [|done].
    cbn [mbind result_bind].
    destruct (b64decode utf8) as [data|e0] eqn:Hd; [|done].
    cbn [mbind result_bind]. intros Hrun.
    exists utf8, data.
    destruct (decide (length (take 16 data) = 16%nat)) as [Hiv|Hiv].
    2: { rewrite AES_new_CBC_short in Hrun by (apply sha256_digest || done).
         done. }
    rewrite AES_new_CBC_ok in Hrun by (apply sha256_digest || done).
    cbn [mbind result_bind] in Hrun. unfold cbc_decrypt in Hrun.
    destruct (Nat.eqb_spec (length (drop 16 data) `mod` 16) 0) as [Hmod|Hmod];
      [|done].
    cbn [negb mbind result_bind fst snd] in Hrun.
    rewrite length_take in Hiv. rewrite length_drop in Hmod.
    destruct (decide (length data = 16%nat)) as [H16|H16].
    { rewrite length_drop, H16 in Hrun. by cbn in Hrun. }
    exists ((length data - 16) / 16 - 1)%nat.
    split; [done|]. split; [done|].
    pose proof (Nat.div_mod_eq (length data - 16) 16). lia.
  - intros c pw utf8 data Hpw Hc Hd.
    destruct (utf8_roundtrip pw Strict Hpw) as (pb & Hp & _ & _).
    rewrite (decrypt_message_decoded c pw pb utf8 data Hp Hc Hd).
    split; [|split].
    + intros Hshort.
      rewrite AES_new_CBC_short; [done|apply sha256_digest|].
      rewrite length_take. lia.
    + intros H16.
      rewrite AES_new_CBC_ok; [|apply sha256_digest|rewrite length_take; lia].
      cbn [mbind result_bind]. unfold cbc_decrypt.
      rewrite length_drop, H16. reflexivity.
    + intros Hlong Hmod.
      rewrite AES_new_CBC_ok; [|apply sha256_digest|rewrite length_take; lia].
      cbn [mbind result_bind]. unfold cbc_decrypt. rewrite length_drop.
      replace ((length data - 16) `mod` 16)%nat with (length data `mod` 16)%nat.
      * destruct (Nat.eqb_spec (length data `mod` 16) 0); [done|]. reflexivity.
      * replace (length data) with ((length data - 16) + 1 * 16)%nat at 1 by lia.
        by rewrite Nat.Div0.mod_add.
Qed.

End WithLibraries.

Lemma plaintext_cost_witness :
  exists out,
    @encrypt_message toy_crypto (lit "HI") (lit "pw") (replicate 16 0) = Ok out /\
    length out = encrypted_chars (length [72; 73]) /\
    Forall is_ascii out.
Proof.
  apply (proj1 (@plaintext_cost plain_text numpy_1 pillow_grey exact_format toy_crypto)
           (lit "HI") (lit "pw") (replicate 16 0) [72; 73]
           valid_lit_HI valid_lit_pw zeros_block).
  reflexivity.
Defined.

(** Up to fifteen octets of plaintext cost 44 characters, sixteen to
    thirty-one cost 64. *)
Example encrypted_chars_values :
  encrypted_chars 0 = 44%nat /\ encrypted_chars 15 = 44%nat /\
  encrypted_chars 16 = 64%nat /\ encrypted_chars 31 = 64%nat /\
  encrypted_chars 32 = 88%nat.
Proof. repeat split. Qed.


Lemma decrypt_message_rejects_witness :
  @decrypt_message toy_crypto (lit "QUJD") (lit "pw")
  = Raise (MkExn Exception (lit
      "Decryption failed: Incorrect IV length (it must be 16 bytes long)")).
Proof.
  apply (proj1 (proj2 (proj2 (proj2 (@decrypt_message_rejects toy_crypto)))
                 (lit "QUJD") (lit "pw") (lit "QUJD") (lit "ABC")
                 valid_lit_pw eq_refl eq_refl)).
  simpl. lia.
Defined.

(** Sixteen octets of zeros (an IV and nothing else), and twenty. *)
Example decrypt_message_iv_only :
  @decrypt_message toy_crypto (lit "AAAAAAAAAAAAAAAAAAAAAA==") (lit "pw")
  = Raise (MkExn Exception (lit
      "Decryption failed: Zero-length input cannot be unpadded")) /\
  @decrypt_message toy_crypto (lit "AAAAAAAAAAAAAAAAAAAAAAAAAAA=") (lit "pw")
  = Raise (MkExn Exception (lit
      "Decryption failed: Data must be padded to 16 byte boundary in CBC mode")).
Proof. split; vm_compute; reflexivity. Qed.

End CryptoLengthProofs.

(* ================================================================== *)
(** * Further properties, 4.  Keys, file names and hashes               *)
(* ================================================================== *)

Module HelperProofs.
Import CodecProofs CryptoProofs.

(** ** Hexadecimal text *)

Lemma hex_digit_char (d : Z) : 0 <= d < 16 -> is_hex_char (hex_digit d).
Proof.
  intros Hd. unfold is_hex_char, hex_digit.
  destruct (Z.ltb_spec d 10); lia.
Qed.

Lemma hex_digit_inj (d d' : Z) :
  0 <= d < 16 -> 0 <= d' < 16 -> hex_digit d = hex_digit d' -> d = d'.
Proof.
  unfold hex_digit. intros Hd Hd'.
  destruct (Z.ltb_spec d 10), (Z.ltb_spec d' 10); lia.
Qed.

Lemma bytes_hex_app (a b : bytes) :
  bytes_hex (a ++ b) = bytes_hex a ++ bytes_hex b.
Proof. unfold bytes_hex. by rewrite flat_map_app. Qed.

Lemma bytes_hex_length (b : bytes) : length (bytes_hex b) = (2 * length b)%nat.
Proof.
  induction b as [|x b IH]; [done|].
  unfold bytes_hex in *. cbn [flat_map app length]. rewrite IH. lia.
Qed.

Lemma bytes_hex_chars (b : bytes) :
  Forall is_byte b -> Forall is_hex_char (bytes_hex b).
Proof.
  induction 1 as [|x b Hx _ IH]; [constructor|].
  unfold bytes_hex in *. cbn [flat_map app]. unfold is_byte in Hx.
  constructor; [apply hex_digit_char; dlia|].
  constructor; [apply hex_digit_char; dlia|]. exact IH.
Qed.

Lemma bytes_hex_inj (a b : bytes) :
  Forall is_byte a -> Forall is_byte b -> bytes_hex a = bytes_hex b -> a = b.
Proof.
  intros Ha. revert b. induction Ha as [|x a Hx _ IH]; intros b Hb Heq.
  - destruct b; [done|discriminate].
  - destruct Hb as [|y b Hy Hb]; [discriminate|].
    unfold bytes_hex in Heq. cbn [flat_map app] in Heq.
    injection Heq as Hhi Hlo Hrest. unfold is_byte in Hx, Hy.
    apply hex_digit_inj in Hhi; [|dlia..].
    apply hex_digit_inj in Hlo; [|dlia..].
    f_equal; [dlia|]. by apply IH.
Qed.

Lemma bytes_hex_take (b : bytes) (n : nat) :
  take (2 * n) (bytes_hex b) = bytes_hex (take n b).
Proof.
  revert b. induction n as [|n IH]; intros b; [by rewrite !take_0|].
  destruct b as [|x b]; [done|].
  replace (2 * S n)%nat with (S (S (2 * n))) by lia.
  unfold bytes_hex in *. cbn [flat_map app take]. by rewrite IH.
Qed.

(** X9. The generated key is the hexadecimal text of half of the random
    octets: for the sixteen octets that [os.urandom(16)] returns,
    [generate_random_key] is the sixteen lower-case hexadecimal digits of
    the first eight; so two draws give the same key exactly when their
    first eight octets are equal, whatever the other eight are. *)
Theorem generate_random_key_half :
  (forall urandom : bytes,
     length urandom = 16%nat -> Forall is_byte urandom ->
     generate_random_key urandom = bytes_hex (take 8 urandom) /\
     length (generate_random_key urandom) = 16%nat /\
     Forall is_hex_char (generate_random_key urandom)) /\
  (forall urandom urandom' : bytes,
     length urandom = 16%nat -> Forall is_byte urandom ->
     length urandom' = 16%nat -> Forall is_byte urandom' ->
     (generate_random_key urandom = generate_random_key urandom'
      <-> take 8 urandom = take 8 urandom')).
Proof.
  assert (forall u : bytes,
    generate_random_key u = bytes_hex (take 8 u)) as Hkey.
  { intros u. unfold generate_random_key, slice_to. cbn [Z.ltb Z.compare].
    change (Z.to_nat 16) with (2 * 8)%nat. apply bytes_hex_take. }
  split.
  - intros u Hlen Hbytes. rewrite Hkey. split; [done|]. split.
    + rewrite bytes_hex_length, length_take. lia.
    + by apply bytes_hex_chars, Forall_take.
  - intros u u' Hlen Hbytes Hlen' Hbytes'. rewrite !Hkey. split.
    + apply bytes_hex_inj; by apply Forall_take.
    + by intros ->.
Qed.

Lemma generate_random_key_half_witness :
  generate_random_key (replicate 16 171) = bytes_hex (take 8 (replicate 16 171)) /\
  length (generate_random_key (replicate 16 171)) = 16%nat /\
  Forall is_hex_char (generate_random_key (replicate 16 171)).
Proof.
  apply (proj1 generate_random_key_half (replicate 16 171)).
  - reflexivity.
  - apply Forall_replicate. unfold is_byte. lia.
Defined.

Example generate_random_key_example :
  generate_random_key ([0; 1; 35; 69; 103; 137; 171; 205] ++ replicate 8 255)
  = lit "000123456789abcd".
Proof. reflexivity. Qed.


Section WithLibraries.
Context `{!Unicode, !Crypto}.

Lemma hexdigest_length (data : bytes) : length (sha256_hexdigest data) = 64%nat.
Proof.
  unfold sha256_hexdigest. rewrite bytes_hex_length.
  destruct (sha256_digest data) as [-> _]. done.
Qed.

Lemma hexdigest_chars (data : bytes) : Forall is_hex_char (sha256_hexdigest data).
Proof. apply bytes_hex_chars. apply sha256_digest. Qed.

Lemma extensions_lookup (key : str) :
  default (lit ".png") (extensions !! key)
  = if decide (key = lit "audio") then lit ".wav"
    else if decide (key = lit "video") then lit ".mp4"
    else lit ".png".
Proof.
  unfold extensions.
  destruct (decide (key = lit "audio")) as [->|Ha]; [reflexivity|].
  destruct (decide (key = lit "video")) as [->|Hv]; [reflexivity|].
  destruct (decide (key = lit "image")) as [->|Hi]; [reflexivity|].
  rewrite !lookup_insert_ne by done. by rewrite lookup_singleton_ne.
Qed.

(** X10. The shape of a semantic file name: for every message that UTF-8
    can encode and every media type, [semantic_filename] returns "stego_",
    the first ten hexadecimal digits of the SHA-256 of the message and an
    extension, twenty characters in all.  The extension is ".wav" when the
    media type in lower case is "audio", ".mp4" when it is "video", and
    ".png" for every other media type, known or not.  A message that UTF-8
    cannot encode makes it raise the error of the encoding. *)
Theorem semantic_filename_shape :
  (forall (message media_type : str) (utf8_bytes : bytes),
     str_encode_utf8 message = Ok utf8_bytes ->
     let digits := take 10 (sha256_hexdigest utf8_bytes) in
     let ext := if decide (str_lower media_type = lit "audio") then lit ".wav"
                else if decide (str_lower media_type = lit "video")
                then lit ".mp4" else lit ".png" in
     semantic_filename message media_type = Ok (lit "stego_" ++ digits ++ ext) /\
     length (lit "stego_" ++ digits ++ ext) = 20%nat /\
     Forall is_hex_char digits) /\
  (forall (message media_type : str) e,
     str_encode_utf8 message = Raise e ->
     semantic_filename message media_type = Raise e).
Proof.
  split.
  - intros message media_type utf8 Henc digits ext.
    unfold semantic_filename. rewrite Henc.
    cbn [mbind result_bind mret result_ret]. rewrite extensions_lookup.
    fold ext. unfold slice_to. cbn [Z.ltb Z.compare].
    change (Z.to_nat 10) with 10%nat. fold digits.
    split; [done|]. split.
    + rewrite !length_app. subst digits. rewrite length_take, hexdigest_length.
      subst ext. repeat destruct (decide _); reflexivity.
    + apply Forall_take, hexdigest_chars.
  - intros message media_type e Henc. unfold semantic_filename.
    by rewrite Henc.
Qed.

(** X11. What the integrity check compares: for two texts that UTF-8 can
    encode, [verify_message_integrity] returns a dictionary whose
    ['is_valid'] and ['hash_match'] are true exactly when the SHA-256
    digests of the two encodings are equal (comparing the hexadecimal texts
    loses nothing), whose score is 100 then and 0 otherwise, and whose two
    hashes have sixty-four hexadecimal digits; equal texts are always
    valid.  A text that UTF-8 cannot encode makes it raise. *)
Theorem integrity_compares_digests :
  (forall (original extracted : str) (ob eb : bytes),
     str_encode_utf8 original = Ok ob ->
     str_encode_utf8 extracted = Ok eb ->
     exists r,
       verify_message_integrity original extracted = Ok r /\
       (in_is_valid r = true <-> sha256 ob = sha256 eb) /\
       in_hash_match r = in_is_valid r /\
       in_integrity_score r = (if in_is_valid r then 100 else 0) /\
       in_status r = (if in_is_valid r then [0x2705] ++ lit " VERIFIED"
                      else [0x274C] ++ lit " CORRUPTED") /\
       length (in_original_hash r) = 64%nat /\
       length (in_extracted_hash r) = 64%nat /\
       (original = extracted -> in_is_valid r = true)) /\
  (forall (original extracted : str) e,
     str_encode_utf8 original = Raise e ->
     verify_message_integrity original extracted = Raise e).
Proof.
  split.
  - intros original extracted ob eb Ho He.
    unfold verify_message_integrity, calculate_message_hash.
    rewrite Ho, He. cbn [mbind result_bind mret result_ret].
    eexists. split; [reflexivity|].
    cbn [in_is_valid in_hash_match in_integrity_score in_status
         in_original_hash in_extracted_hash].
    split.
    { rewrite bool_decide_eq_true. unfold sha256_hexdigest. split.
      - apply bytes_hex_inj; apply sha256_digest.
      - by intros ->. }
    do 3 (split; [done|]). rewrite !hexdigest_length.
    do 2 (split; [done|]). intros <-.
    apply bool_decide_eq_true. congruence.
  - intros original extracted e Ho.
    unfold verify_message_integrity, calculate_message_hash. by rewrite Ho.
Qed.

End WithLibraries.

Lemma semantic_filename_shape_witness :
  let digits := take 10 (@sha256_hexdigest toy_crypto [72; 73]) in
  let ext := if decide (@str_lower ascii_unicode (lit "Audio") = lit "audio")
             then lit ".wav"
             else if decide (@str_lower ascii_unicode (lit "Audio") = lit "video")
             then lit ".mp4" else lit ".png" in
  @semantic_filename ascii_unicode toy_crypto (lit "HI") (lit "Audio")
    = Ok (lit "stego_" ++ digits ++ ext) /\
  length (lit "stego_" ++ digits ++ ext) = 20%nat /\
  Forall is_hex_char digits.
Proof.
  exact (proj1 (@semantic_filename_shape ascii_unicode toy_crypto)
           (lit "HI") (lit "Audio") [72; 73] eq_refl).
Defined.

Example semantic_filename_examples :
  @semantic_filename ascii_unicode toy_crypto (lit "HI") (lit "Audio")
    = Ok (lit "stego_587796b5d4.wav") /\
  @semantic_filename ascii_unicode toy_crypto (lit "HI") (lit "hologram")
    = Ok (lit "stego_587796b5d4.png").
Proof. split; vm_compute; reflexivity. Qed.

Lemma integrity_compares_digests_witness :
  exists r,
    @verify_message_integrity toy_crypto (lit "HI") (lit "HI") = Ok r /\
    (in_is_valid r = true <->
     @sha256 toy_crypto [72; 73] = @sha256 toy_crypto [72; 73]) /\
    in_hash_match r = in_is_valid r /\
    in_integrity_score r = (if in_is_valid r then 100 else 0) /\
    in_status r = (if in_is_valid r then [0x2705] ++ lit " VERIFIED"
                   else [0x274C] ++ lit " CORRUPTED") /\
    length (in_original_hash r) = 64%nat /\
    length (in_extracted_hash r) = 64%nat /\
    (lit "HI" = lit "HI" -> in_is_valid r = true).
Proof.
  exact (proj1 (@integrity_compares_digests toy_crypto)
           (lit "HI") (lit "HI") [72; 73] [72; 73] eq_refl eq_refl).
Defined.

End HelperProofs.

(* ================================================================== *)
(** * Further properties, 5.  The laws of the conversion of CMYK images *)
(* ================================================================== *)

Module MoreInstanceLaws.

(** The conversion that drops the fourth band keeps images well formed. *)
Lemma drop_fourth_length (n : nat) : forall px : list Z,
  length px = (4 * n)%nat -> length (drop_fourth px) = (3 * n)%nat.
Proof.
  induction n as [|n IH]; intros px Hlen.
  - by destruct px.
  - destruct px as [|c [|m [|y [|k rest]]]]; try (simpl in Hlen; lia).
    cbn [drop_fourth length]. rewrite (IH rest) by (simpl in Hlen; lia). lia.
Qed.

Lemma drop_fourth_bytes (n : nat) : forall px : list Z,
  (length px <= n)%nat -> Forall is_byte px -> Forall is_byte (drop_fourth px).
Proof.
  induction n as [|n IH]; intros px Hlen Hpx.
  - destruct px; [constructor|simpl in Hlen; lia].
  - destruct px as [|c [|m [|y [|k rest]]]]; try constructor.
    + by inversion Hpx.
    + inversion Hpx as [|? ? _ H1]; subst. inversion H1 as [|? ? Hm H2]; subst.
      constructor; [done|]. inversion H2 as [|? ? Hy H3]; subst.
      constructor; [done|]. inversion H3 as [|? ? _ H4]; subst.
      apply IH; [simpl in Hlen; lia|done].
Qed.

Lemma convert_CMYK_to_RGB_ok im mode im' :
  wf_image im -> convert_CMYK_to_RGB im mode = Ok im' ->
  wf_image im' /\ im_mode im' = mode /\
  im_width im' = im_width im /\ im_height im' = im_height im.
Proof.
  intros (Hw & Hh & Hlen & Hpx). unfold convert_CMYK_to_RGB.
  destruct (decide _) as [[HC ->]|]; [|discriminate].
  intros [= <-]. unfold wf_image.
  cbn [im_mode im_width im_height im_px]. repeat split; try done.
  - rewrite HC in Hlen. change (getbands (lit "CMYK")) with 4 in Hlen.
    change (getbands (lit "RGB")) with 3.
    rewrite (drop_fourth_length (Z.to_nat (im_height im * im_width im)));
      [nia|nia].
  - by eapply drop_fourth_bytes.
Qed.

Definition pillow_cmyk : Pillow :=
  {| Image_convert := convert_CMYK_to_RGB;
     Image_convert_ok := convert_CMYK_to_RGB_ok |}.

End MoreInstanceLaws.
Import MoreInstanceLaws.

(* ================================================================== *)
(** * Further properties, 6.  The estimates and metrics of [utils.py]   *)
(* ================================================================== *)

Module UtilsProofs.
Import CodecProofs EmbedProofs UnframeProofs HideProofs CapacityProofs
  CryptoProofs PipelineProofs StegoProofs.

(** ** Security metrics *)

Lemma size_list_to_set_le (l : list Z) :
  (size (list_to_set l : gset Z) <= length l)%nat.
Proof.
  induction l as [|x l IH]; [by rewrite list_to_set_nil, size_empty|].
  rewrite list_to_set_cons, size_union_alt, size_singleton. cbn [length].
  assert (list_to_set l ∖ {[x]} ⊆ (list_to_set l : gset Z)) as Hsub
    by (intros y Hy; by apply elem_of_difference in Hy as [? _]).
  apply subseteq_size in Hsub. lia.
Qed.

Section WithLibraries.
Context `{!Unicode, !UnicodeCase, !FloatText, !FloatRound}.

Lemma entropy_bounds (message : str) :
  (0 <= message_entropy_of message)%Q /\
  ((length (str_lower message) <= length message)%nat ->
   (message_entropy_of message <= 1)%Q).
Proof.
  unfold message_entropy_of. destruct message as [|c message]; [done|].
  set (n := size _). set (len := length _). split.
  - apply Qle_shift_div_l.
    + change 0%Q with (inject_Z 0). rewrite <- Zlt_Qlt. subst len. simpl. lia.
    + rewrite Qmult_0_l. change 0%Q with (inject_Z 0). rewrite <- Zle_Qle. lia.
  - intros Hlen. apply Qle_shift_div_r.
    + change 0%Q with (inject_Z 0). rewrite <- Zlt_Qlt. subst len. simpl. lia.
    + rewrite Qmult_1_l, <- Zle_Qle.
      pose proof (size_list_to_set_le (str_lower (c :: message))).
      subst n len. lia.
Qed.

(** X12. The ranges of the security metrics: the password strength is 25
    for each of four tests passed (at least eight characters, an upper-case
    letter, a lower-case letter, a digit), hence one of 0, 25, 50, 75, 100,
    and 0 for the empty password; the message entropy is at least 0, and at
    most 1 when lower-casing does not lengthen the message; the list of
    recommendations is never empty, and it is the single word of praise
    exactly when the strength is at least 75 and the entropy at least
    0.3. *)
Theorem security_metrics_ranges :
  (forall password : str,
     password_strength_of password
     = 25 * (Z.b2z (8 <=? Z.of_nat (length password))
             + Z.b2z (existsb isupper password)
             + Z.b2z (existsb islower password)
             + Z.b2z (existsb isdigit password)) /\
     0 <= password_strength_of password <= 100) /\
  password_strength_of [] = 0 /\
  (forall message : str,
     (0 <= message_entropy_of message)%Q /\
     ((length (str_lower message) <= length message)%nat ->
      (message_entropy_of message <= 1)%Q)) /\
  (forall (password_strength : Z) (message_entropy : Q),
     get_security_recommendations password_strength message_entropy <> [] /\
     (get_security_recommendations password_strength message_entropy
      = [[0x2705] ++ lit " Excellent security configuration!"]
      <-> 75 <= password_strength /\ (3 # 10 <= message_entropy)%Q)).
Proof.
  split; [|split; [|split]].
  - intros password. unfold password_strength_of.
    destruct (8 <=? _), (existsb isupper _), (existsb islower _),
      (existsb isdigit _); cbn [Z.b2z]; lia.
  - reflexivity.
  - apply entropy_bounds.
  - intros strength entropy. unfold get_security_recommendations.
    rewrite <- Qle_bool_iff.
    destruct (Z.ltb_spec strength 75), (Qle_bool (3 # 10) entropy);
      cbn [negb app]; (split; [done|]); split.
    + intros Heq. vm_compute in Heq. discriminate Heq.
    + intros [? _]. lia.
    + intros Heq. vm_compute in Heq. discriminate Heq.
    + intros [? _]. lia.
    + intros _. split; [lia|done].
    + done.
    + intros Heq. vm_compute in Heq. discriminate Heq.
    + intros [_ ?]. done.
Qed.

End WithLibraries.

(** ** [estimate_capacity_image] *)

(** The key of a usage example. *)
Ltac usage_keys :=
  rewrite ?lookup_insert_eq, ?lookup_empty;
  repeat (rewrite lookup_insert_ne
            by (let H := fresh in intros H; vm_compute in H; discriminate H));
  rewrite ?lookup_insert_eq, ?lookup_empty.

Section WithFormat.
Context `{!FloatFormat}.

Lemma estimate_capacity_image_returns (image : pil_image) :
  exists e,
    estimate_capacity_image image = Ok e /\
    ie_total_bits e
    = im_width image * im_height image * getbands (im_mode image) /\
    ie_usable_chars e = (ie_total_bits e - 50) / 8 /\
    ie_usable_bytes e = ie_usable_chars e /\
    forall length, length ∈ [100; 500; 1000; 5000] ->
      (is_Some (ie_usage_examples e !! (str_of_int length ++ lit "_chars"))
       <-> length <= ie_usable_chars e).
Proof.
  unfold estimate_capacity_image.
  set (total_bits := im_width image * im_height image * getbands (im_mode image)).
  set (usable := (total_bits - 50) / 8).
  cbn [foldl]. unfold usage_example.
  assert (total_bits = 0 -> usable < 100) as Hzero by (subst usable; dlia).
  destruct (Z.eqb_spec total_bits 0) as [Hz|_];
    destruct (Z.leb_spec 100 usable) as [H1|H1]; try lia;
    destruct (Z.leb_spec 500 usable) as [H2|H2]; try lia;
    destruct (Z.leb_spec 1000 usable) as [H3|H3]; try lia;
    destruct (Z.leb_spec 5000 usable) as [H4|H4]; try lia;
    cbn [mbind result_bind mret result_ret];
    (eexists; split; [reflexivity|]);
    cbn [ie_total_bits ie_usable_chars ie_usable_bytes ie_usage_examples];
    (split; [done|]); (split; [done|]); (split; [done|]);
    intros length Hin;
    apply list_elem_of_In in Hin;
    destruct Hin as [<-|[<-|[<-|[<-|[]]]]];
    usage_keys;
    (split; [intros Hs; first [lia | by destruct Hs as [? [=]]]
            |intros Hle; first [by eexists | lia]]).
Qed.

End WithFormat.

Section WithPillow.
Context `{!PyText, !Pillow, !FloatFormat}.

(** The capacity of a carrier, from the image in the file. *)
Lemma carrier_capacity w path im0 im :
  fs w !! path = Some (ImageFile im0) -> image_carrier w path im ->
  0 <= im_width im0 /\ 0 <= im_height im0 /\
  Z.of_nat (length (im_px im))
  = im_height im0 * im_width im0
    * (if decide (im_mode im0 ∈ [lit "RGB"; lit "RGBA"])
       then getbands (im_mode im0) else 3).
Proof.
  intros Hfile (im0' & Hfile' & Hwf & Hmode).
  assert (im0' = im0) as -> by congruence.
  destruct Hwf as (Hw & Hh & Hlen & Hpx). split; [done|]. split; [done|].
  destruct (decide _) as [_|_]; [by subst|].
  destruct (Image_convert_ok im0 (lit "RGB") im ltac:(by repeat split) Hmode)
    as ((_ & _ & Hlen' & _) & Hm & Hw' & Hh').
  by rewrite Hlen', Hm, Hw', Hh'.
Qed.

(** X13. The image estimate always returns: [estimate_capacity_image] has
    no [try] block and divides by the number of bits of the image, yet it
    returns for every image, the empty one included, because the division
    is reached only for a length that fits; its usable capacity is the
    bits less fifty, divided by eight and rounded down (negative below
    fifty bits); and it has a usage example for exactly those of the
    lengths 100, 500, 1000 and 5000 that are at most the usable
    capacity. *)
Theorem estimate_image_total (image : pil_image) :
  exists e,
    estimate_capacity_image image = Ok e /\
    ie_total_bits e
    = im_width image * im_height image * getbands (im_mode image) /\
    ie_usable_chars e = (ie_total_bits e - 50) / 8 /\
    ie_usable_bytes e = ie_usable_chars e /\
    forall length, length ∈ [100; 500; 1000; 5000] ->
      (is_Some (ie_usage_examples e !! (str_of_int length ++ lit "_chars"))
       <-> length <= ie_usable_chars e).
Proof. apply estimate_capacity_image_returns. Qed.

(** X14. The image estimate against what really fits.  For an image file
    in the mode RGB or RGBA, or in a mode of at most three bands, every
    message of at most [usable_chars] UTF-8 octets is hidden by
    [hide_message_in_image].  For a file in a mode of four bands other than
    RGBA (CMYK, say) of at least 42 pixels, which is hidden in after a
    conversion to three bands, the estimate is too high: a message of
    exactly [usable_chars] octets is refused. *)
Theorem estimate_image_against_hide :
  (forall w image_path im0 im encrypted_message utf8_bytes output_path,
     fs w !! image_path = Some (ImageFile im0) ->
     image_carrier w image_path im ->
     im_mode im0 ∈ [lit "RGB"; lit "RGBA"] \/ getbands (im_mode im0) <= 3 ->
     str_encode_utf8 encrypted_message = Ok utf8_bytes ->
     read_only w output_path = false ->
     exists e, estimate_capacity_image im0 = Ok e /\
       (Z.of_nat (length utf8_bytes) <= ie_usable_chars e ->
        (hide_message_in_image image_path encrypted_message output_path w).1
        = Ok true)) /\
  (forall w image_path im0 im encrypted_message utf8_bytes output_path,
     fs w !! image_path = Some (ImageFile im0) ->
     image_carrier w image_path im ->
     im_mode im0 ∉ [lit "RGB"; lit "RGBA"] -> getbands (im_mode im0) = 4 ->
     42 <= im_width im0 * im_height im0 ->
     str_encode_utf8 encrypted_message = Ok utf8_bytes ->
     read_only w output_path = false ->
     exists e, estimate_capacity_image im0 = Ok e /\
       0 <= ie_usable_chars e /\
       (Z.of_nat (length utf8_bytes) = ie_usable_chars e ->
        (hide_message_in_image image_path encrypted_message output_path w).1
        = Ok false)).
Proof.
  split.
  - intros w path im0 im msg ub out Hfile Hc Hmode Henc Hro.
    destruct (estimate_capacity_image_returns im0)
      as (e & He & Htotal & Husable & _).
    exists e. split; [done|]. intros Hn.
    rewrite (hide_image_iff _ _ _ _ _ _ Hc Henc Hro).
    rewrite bool_decide_true; [done|].
    destruct (carrier_capacity _ _ _ _ Hfile Hc) as (Hw & Hh & ->).
    unfold framed_length. rewrite Husable, Htotal in Hn.
    assert (0 <= im_height im0 * im_width im0) by nia.
    destruct (decide _) as [_|Hnot].
    + dlia.
    + destruct Hmode as [Hin|Hbands]; [done|].
      assert (im_height im0 * im_width im0 * getbands (im_mode im0)
              <= im_height im0 * im_width im0 * 3) by nia.
      dlia.
  - intros w path im0 im msg ub out Hfile Hc Hmode Hbands Hsize Henc Hro.
    destruct (estimate_capacity_image_returns im0)
      as (e & He & Htotal & Husable & _).
    exists e. split; [done|]. rewrite Husable, Htotal, Hbands.
    split; [dlia|]. intros Hn.
    rewrite (hide_image_iff _ _ _ _ _ _ Hc Henc Hro).
    rewrite bool_decide_false; [done|].
    destruct (carrier_capacity _ _ _ _ Hfile Hc) as (Hw & Hh & ->).
    unfold framed_length. rewrite Hn.
    destruct (decide _) as [Hin|_]; [done|]. dlia.
Qed.

End WithPillow.

Lemma image_carrier_cmyk :
  @image_carrier pillow_cmyk world_cmyk (lit "cmyk.tif")
    (MkImage (lit "RGB") 10 10 (drop_fourth (im_px cmyk_100))).
Proof.
  exists cmyk_100. split; [reflexivity|]. split; [|reflexivity].
  split; [done|]. split; [done|]. split; [vm_compute; reflexivity|].
  apply Forall_replicate. unfold is_byte. lia.
Qed.

Lemma estimate_image_total_witness :
  exists e,
    @estimate_capacity_image exact_format cover_100 = Ok e /\
    ie_total_bits e = 30000 /\ ie_usable_chars e = 3743 /\
    ie_usage_examples e
    = {[ lit "100_chars" := lit "2.67%"; lit "500_chars" := lit "13.33%";
         lit "1000_chars" := lit "26.67%" ]}.
Proof.
  destruct (@estimate_image_total exact_format cover_100)
    as (e & He & Htotal & Husable & _).
  exists e. split; [exact He|].
  vm_compute in He. injection He as <-. repeat split.
Defined.

Lemma estimate_image_against_hide_witness :
  exists e,
    @estimate_capacity_image exact_format cmyk_100 = Ok e /\
    0 <= ie_usable_chars e /\
    (Z.of_nat (length (replicate 43 65)) = ie_usable_chars e ->
     (@hide_message_in_image plain_text pillow_cmyk exact_format (lit "cmyk.tif")
        (replicate 43 65) (lit "out.png") world_cmyk).1 = Ok false).
Proof.
  apply (proj2 (@estimate_image_against_hide plain_text pillow_cmyk exact_format)
           world_cmyk (lit "cmyk.tif") cmyk_100 _ (replicate 43 65)
           (replicate 43 65) (lit "out.png") eq_refl image_carrier_cmyk).
  - vm_compute. intros Hin. apply list_elem_of_In in Hin.
    destruct Hin as [H|[H|[]]]; discriminate H.
  - reflexivity.
  - vm_compute. discriminate.
  - reflexivity.
  - reflexivity.
Defined.

(** The CMYK image of 400 values: the estimate says 43 characters, and a
    message of 43 characters is refused while one of 35 is hidden. *)
Example estimate_cmyk_too_high :
  (exists e, @estimate_capacity_image exact_format cmyk_100 = Ok e /\
             ie_usable_chars e = 43) /\
  (@hide_message_in_image plain_text pillow_cmyk exact_format (lit "cmyk.tif")
     (replicate 43 65) (lit "out.png") world_cmyk).1 = Ok false /\
  (@hide_message_in_image plain_text pillow_cmyk exact_format (lit "cmyk.tif")
     (replicate 35 65) (lit "out.png") world_cmyk).1 = Ok true.
Proof.
  split; [eexists; split; [vm_compute; reflexivity|reflexivity]|].
  split; vm_compute; reflexivity.
Qed.

Section WithSizes.
Context `{!PyText, !NumPy, !FloatFormat, !FileSizes}.

Lemma estimate_audio_wav w audio_path wv :
  endswith audio_path (lit ".wav") = true ->
  fs w !! audio_path = Some (WaveFile wv) ->
  framerate (wv_params wv) <> 0 -> nframes (wv_params wv) <> 0 ->
  exists e, estimate_capacity_audio audio_path w = (Ok (WavEstimate e), w) /\
    we_usable_chars e
    = (nframes (wv_params wv) * nchannels (wv_params wv) - 50) / 8.
Proof.
  intros Hext Hfile Hrate Hframes.
  unfold estimate_capacity_audio, io_try, estimate_capacity_audio_body.
  rewrite Hext.
  erewrite io_bind_ok by (unfold wave_open_read; by rewrite Hfile).
  destruct (Z.eqb_spec (framerate (wv_params wv)) 0); [done|].
  destruct (Z.eqb_spec (nframes (wv_params wv)) 0); [done|].
  eexists. split; reflexivity.
Qed.

Lemma estimate_audio_returns w audio_path :
  exists r, estimate_capacity_audio audio_path w = (Ok r, w).
Proof.
  unfold estimate_capacity_audio, io_try, estimate_capacity_audio_body.
  destruct (endswith _ _).
  - unfold mbind, io_bind, wave_open_read.
    destruct (fs w !! audio_path) as [[im|wv|c]|]; try by eexists.
    destruct (_ || _); by eexists.
  - unfold mbind, io_bind, getsize.
    destruct (fs w !! audio_path); by eexists.
Qed.

(** X15. The estimates for audio and video never raise and leave the files
    and the output as they are.  [estimate_capacity_audio] chooses by the
    name alone: a file whose name does not end in the lower-case [.wav] is
    given the estimate for MP3 of as many bytes as the file has, a wave
    file named [COVER.WAV] included, and is never given the estimate for
    WAV; a path with no file gives the error entry, as it does for
    [estimate_capacity_video], which otherwise counts one frame for every
    10000 bytes and 1000 bytes of capacity for every frame. *)
Theorem estimates_choose_by_name (w : world) (path : str) :
  (exists r, estimate_capacity_audio path w = (Ok r, w)) /\
  (exists r, estimate_capacity_video path w = (Ok r, w)) /\
  (fs w !! path = None ->
     (exists msg, (estimate_capacity_audio path w).1
                  = Ok (EstimateError (lit "Cannot analyze audio: " ++ msg))) /\
     (exists msg, (estimate_capacity_video path w).1
                  = Ok (ErrorReport (lit "Cannot analyze video: " ++ msg)))) /\
  (forall f, fs w !! path = Some f ->
     (endswith path (lit ".wav") = false ->
      exists e, (estimate_capacity_audio path w).1 = Ok (Mp3Estimate e) /\
        me_estimated_capacity e
        = thousands (file_size f * 8 / 8) ++ lit " bytes") /\
     (exists e, (estimate_capacity_video path w).1 = Ok (Report e) /\
        ve_estimated_frames e = file_size f / 10000 /\
        ve_estimated_capacity e
        = thousands (file_size f / 10000 * 1000) ++ lit " bytes")).
Proof.
  split; [apply estimate_audio_returns|]. split; [|split].
  - unfold estimate_capacity_video, io_try, mbind, io_bind, getsize.
    destruct (fs w !! path); by eexists.
  - intros Hnone. split.
    + unfold estimate_capacity_audio, io_try, estimate_capacity_audio_body.
      destruct (endswith _ _);
        unfold mbind, io_bind, wave_open_read, getsize; rewrite Hnone;
        by eexists.
    + unfold estimate_capacity_video, io_try, mbind, io_bind, getsize.
      rewrite Hnone. by eexists.
  - intros f Hf. split.
    + intros Hext.
      unfold estimate_capacity_audio, io_try, estimate_capacity_audio_body.
      rewrite Hext. unfold mbind, io_bind, getsize. rewrite Hf.
      eexists. split; reflexivity.
    + unfold estimate_capacity_video, io_try, mbind, io_bind, getsize.
      rewrite Hf. eexists. split; [reflexivity|]. split; reflexivity.
Qed.

(** X16. The audio estimate against what really fits.  For a wave file of
    sixteen-bit samples whose name ends in [.wav], whose header counts the
    frames of its data and which is not empty, [estimate_capacity_audio]
    gives the estimate for WAV, and its usable capacity is the samples less
    fifty, divided by eight and rounded down.  Under a NumPy that promotes
    a Python integer by its value (NumPy 1.x), and when the header of the
    cover can be written back, every message of at most that many UTF-8
    octets is hidden by [hide_message_in_audio]; under the promotion of
    NumPy 2 none is. *)
Theorem estimate_audio_against_hide w audio_path params samples
    encrypted_message utf8_bytes output_path :
  audio_carrier w audio_path params samples ->
  endswith audio_path (lit ".wav") = true ->
  nframes params * nchannels params = Z.of_nat (length samples) ->
  0 < nframes params ->
  str_encode_utf8 encrypted_message = Ok utf8_bytes ->
  read_only w output_path = false ->
  exists e,
    estimate_capacity_audio audio_path w = (Ok (WavEstimate e), w) /\
    we_usable_chars e = (Z.of_nat (length samples) - 50) / 8 /\
    (numpy_promotion = ValueBased -> header_fits params samples ->
     Z.of_nat (length utf8_bytes) <= we_usable_chars e ->
     (hide_message_in_audio audio_path encrypted_message output_path w).1
     = Ok true) /\
    (numpy_promotion = Weak ->
     (hide_message_in_audio audio_path encrypted_message output_path w).1
     = Ok false).
Proof.
  intros Hc Hext Hheader Hframes Henc Hro.
  pose proof Hc as (wv & Hfile & Hp & (Hch & Hsw & Hrate) & Hs).
  destruct (estimate_audio_wav w audio_path wv Hext Hfile) as (e & He & Hu).
  { rewrite Hp. lia. }
  { rewrite Hp. lia. }
  exists e. split; [done|]. rewrite Hu, Hp, Hheader. split; [done|]. split.
  - intros Hvb Hfits Hn.
    rewrite (hide_audio_iff _ _ _ _ _ _ _ Hvb Hc Hfits Henc Hro).
    rewrite bool_decide_true; [done|]. unfold framed_length. dlia.
  - intros Hweak. by eapply hide_audio_never.
Qed.

End WithSizes.

Lemma estimates_choose_by_name_witness :
  exists e,
    (@estimate_capacity_audio plain_text exact_format raw_sizes (lit "COVER.WAV")
       world_wave).1 = Ok (Mp3Estimate e) /\
    me_estimated_capacity e
    = thousands (@file_size raw_sizes (WaveFile wave_2000) * 8 / 8)
      ++ lit " bytes".
Proof.
  exact (proj1 (proj2 (proj2 (proj2
           (@estimates_choose_by_name plain_text exact_format raw_sizes world_wave
              (lit "COVER.WAV")))) (WaveFile wave_2000) eq_refl) eq_refl).
Defined.

Lemma estimate_audio_against_hide_witness :
  exists e,
    @estimate_capacity_audio plain_text exact_format raw_sizes (lit "cover.wav") world_wave
    = (Ok (WavEstimate e), world_wave) /\
    we_usable_chars e = (Z.of_nat (length (replicate 2000 0)) - 50) / 8 /\
    (@numpy_promotion numpy_1 = ValueBased ->
     header_fits (wv_params wave_2000) (replicate 2000 0) ->
     Z.of_nat (length (replicate 243 65)) <= we_usable_chars e ->
     (@hide_message_in_audio plain_text numpy_1 exact_format (lit "cover.wav")
        (replicate 243 65) (lit "out.wav") world_wave).1 = Ok true) /\
    (@numpy_promotion numpy_1 = Weak ->
     (@hide_message_in_audio plain_text numpy_1 exact_format (lit "cover.wav")
        (replicate 243 65) (lit "out.wav") world_wave).1 = Ok false).
Proof.
  apply (@estimate_audio_against_hide plain_text numpy_1 exact_format raw_sizes world_wave
           (lit "cover.wav") (wv_params wave_2000) (replicate 2000 0)
           (replicate 243 65) (replicate 243 65) (lit "out.wav")
           audio_carrier_wave).
  - reflexivity.
  - reflexivity.
  - reflexivity.
  - reflexivity.
  - reflexivity.
Defined.

(** The files of [world_wave]: what the estimates say of them. *)
Example estimates_of_world_wave :
  (exists e, (@estimate_capacity_audio plain_text exact_format raw_sizes
                (lit "cover.wav") world_wave).1 = Ok (WavEstimate e) /\
     we_usable_chars e = 243 /\ we_duration e = lit "0.25 seconds") /\
  (exists e, (@estimate_capacity_video plain_text exact_format raw_sizes
                (lit "clip.mp4") world_wave).1 = Ok (Report e) /\
     ve_estimated_frames e = 2 /\
     ve_estimated_capacity e = lit "2,000 bytes") /\
  (@estimate_capacity_audio plain_text exact_format raw_sizes (lit "none.wav")
     world_wave).1
  = Ok (EstimateError
          (lit "Cannot analyze audio: [Errno 2] No such file or directory: 'none.wav'")).
Proof.
  split; [eexists; split; [vm_compute; reflexivity|by split]|].
  split; [eexists; split; [vm_compute; reflexivity|by split]|].
  vm_compute. reflexivity.
Qed.

Example security_metrics_example :
  @get_security_metrics ascii_unicode ascii_case float_text_exact
    float_round_exact (lit "Hello World!") (lit "TestPass123!")
  = {| sm_message_entropy := lit "0.75";
       sm_password_strength := lit "100%";
       sm_security_score := lit "88%";
       sm_security_rating := [0x1F6E1; 0xFE0F] ++ lit " EXCELLENT";
       sm_recommendations :=
         [[0x2705] ++ lit " Excellent security configuration!"] |}.
Proof. vm_compute. reflexivity. Qed.

End UtilsProofs.

(* ================================================================== *)
(** * Further properties, 7.  Normalized texts, scores and clean-up     *)
(* ================================================================== *)

Module VoiceMoreProofs.
Import CodecProofs UnframeProofs HideProofs VoiceProofs.

Section WithUnicode.
Context `{!Unicode}.

(** ** Stripping *)

Lemma lstrip_app_one (s : str) (c : Z) :
  lstrip (s ++ [c])
  = match lstrip s with
    | [] => if isspace c then [] else [c]
    | l => l ++ [c]
    end.
Proof.
  induction s as [|x s IH]; [done|]. cbn [app lstrip].
  destruct (isspace x); [exact IH|done].
Qed.

Lemma rstrip_cons (c : Z) (s : str) :
  rstrip (c :: s)
  = match rstrip s with
    | [] => if isspace c then [] else [c]
    | l => c :: l
    end.
Proof.
  unfold rstrip. cbn [rev]. rewrite lstrip_app_one.
  destruct (lstrip (rev s)) as [|y l]; [by destruct (isspace c)|].
  rewrite rev_app_distr. cbn [rev app].
  by destruct (rev l ++ [y]) eqn:E; [destruct (rev l)|].
Qed.

(** ** The words of a text *)

Lemma split_from_words (P : Z -> Prop) (s : str) : forall word,
  Forall P s -> Forall (fun c => isspace c = false /\ P c) word ->
  Forall (word_of P) (split_from s word).
Proof.
  induction s as [|c s IH]; intros word Hs Hword; cbn [split_from].
  - destruct word as [|x word]; [constructor|].
    constructor; [|constructor]. split; [|by apply Forall_rev].
    intros Hrev. apply (f_equal (@length Z)) in Hrev.
    rewrite length_rev in Hrev. discriminate Hrev.
  - inversion Hs as [|? ? Hc Hs']; subst.
    destruct (isspace c) eqn:Hsp.
    + destruct word as [|x word]; [by apply IH|].
      constructor; [|by apply IH]. split; [|by apply Forall_rev].
      intros Hrev. apply (f_equal (@length Z)) in Hrev.
      rewrite length_rev in Hrev. discriminate Hrev.
    + apply IH; [done|]. by constructor.
Qed.

(** One white space for every run, and none at the end: the words joined
    by spaces. *)
Lemma sub_spaces_words (s : str) :
  (forall word, word <> [] ->
     join_words (split_from s word)
     = rev word ++ rstrip (sub_spaces_from false s)) /\
  join_words (split_from s []) = rstrip (sub_spaces_from true s).
Proof.
  induction s as [|c s [IHA IHB]].
  - split; [|done]. intros word Hw. cbn [split_from sub_spaces_from].
    destruct word; [done|]. unfold join_words. by cbn [flat_map].
  - assert (isspace c = false ->
            rstrip (c :: sub_spaces_from false s)
            = c :: rstrip (sub_spaces_from false s)) as Hkeep.
    { intros Hsp. rewrite rstrip_cons, Hsp.
      by destruct (rstrip (sub_spaces_from false s)). }
    split.
    + intros word Hw. cbn [split_from sub_spaces_from].
      destruct (isspace c) eqn:Hsp.
      * rewrite rstrip_cons, isspace_space, <- IHB.
        pose proof (split_from_words (fun _ => True) s []
                      ltac:(by apply Forall_true) ltac:(constructor)) as Hws.
        destruct word as [|x word]; [done|].
        destruct (split_from s []) as [|w1 ws]; [done|].
        inversion Hws as [|? ? [Hne _] _]; subst.
        unfold join_words. cbn [flat_map].
        by destruct w1.
      * rewrite (IHA (c :: word)) by done. rewrite Hkeep by done.
        cbn [rev]. by rewrite <- app_assoc.
    + cbn [split_from sub_spaces_from]. destruct (isspace c) eqn:Hsp.
      * exact IHB.
      * rewrite (IHA [c]) by done. by rewrite Hkeep.
Qed.

Lemma join_words_head (P : Z -> Prop) (words : list str) :
  Forall (word_of P) words -> lstrip (join_words words) = join_words words.
Proof.
  intros Hws. destruct words as [|w1 ws]; [done|].
  inversion Hws as [|? ? [Hne Hw] _]; subst.
  destruct w1 as [|c w1]; [done|].
  inversion Hw as [|? ? [Hsp _] _]; subst.
  unfold join_words. cbn [app lstrip]. by rewrite Hsp.
Qed.

Lemma strip_sub_spaces (s : str) :
  strip (sub_spaces s) = join_words (split s).
Proof.
  unfold strip, sub_spaces, split.
  destruct (sub_spaces_words s) as [_ HB]. rewrite HB.
  pose proof (split_from_words (fun _ => True) s []
                ltac:(by apply Forall_true) ltac:(constructor)) as Hws.
  apply join_words_head in Hws. rewrite HB in Hws.
  destruct s as [|c s]; [done|]. cbn [sub_spaces_from] in *.
  destruct (isspace c) eqn:Hsp; [|done].
  rewrite rstrip_cons, isspace_space.
  destruct (rstrip (sub_spaces_from true s)) as [|y l] eqn:E; [done|].
  cbn [lstrip]. by rewrite isspace_space.
Qed.

Lemma split_from_app_word (word rest acc : str) :
  Forall (fun c => isspace c = false) word ->
  split_from (word ++ rest) acc = split_from rest (rev word ++ acc).
Proof.
  revert acc. induction word as [|c word IH]; intros acc Hw; [done|].
  inversion Hw as [|? ? Hc Hw']; subst. cbn [app split_from]. rewrite Hc.
  rewrite IH by done. cbn [rev]. by rewrite <- app_assoc.
Qed.

Lemma split_from_joined (P : Z -> Prop) (words : list str) : forall acc,
  Forall (word_of P) words -> acc <> [] ->
  split_from (flat_map (fun x => 32 :: x) words) acc = rev acc :: words.
Proof.
  induction words as [|w1 ws IH]; intros acc Hws Hacc.
  - cbn [flat_map split_from]. by destruct acc.
  - inversion Hws as [|? ? [Hne Hw] Hws']; subst.
    cbn [flat_map app split_from]. rewrite isspace_space.
    destruct acc as [|x acc]; [done|]. f_equal.
    rewrite split_from_app_word
      by (eapply Forall_impl; [exact Hw|]; by intros c [? _]).
    rewrite app_nil_r, (IH (rev w1)); [by rewrite rev_involutive|done|].
    intros Hrev. apply (f_equal (@length Z)) in Hrev.
    rewrite length_rev in Hrev. by destruct w1.
Qed.

Lemma split_join_words (P : Z -> Prop) (words : list str) :
  Forall (word_of P) words -> split (join_words words) = words.
Proof.
  intros Hws. destruct words as [|w1 ws]; [done|].
  inversion Hws as [|? ? [Hne Hw] Hws']; subst.
  unfold split, join_words.
  rewrite split_from_app_word
    by (eapply Forall_impl; [exact Hw|]; by intros c [? _]).
  rewrite app_nil_r, (split_from_joined P); [by rewrite rev_involutive|done|].
  intros Hrev. apply (f_equal (@length Z)) in Hrev.
  rewrite length_rev in Hrev. by destruct w1.
Qed.

(** X17. The shape of a normalized text: what [normalize_text] returns is
    its own white-space delimited words joined by single spaces, so it has
    no white space at either end and none but single spaces between the
    words; every word is non-empty and consists of word characters (those
    of the pattern [\w]) only.  Normalizing what is left of the text after
    the first three steps changes nothing any more in the last two. *)
Theorem normalize_text_shape (text : str) :
  normalize_text text = join_words (split (normalize_text text)) /\
  Forall (word_of (fun c => isword c = true)) (split (normalize_text text)) /\
  strip (sub_spaces (normalize_text text)) = normalize_text text.
Proof.
  unfold normalize_text. rewrite strip_sub_spaces.
  set (s1 := sub_not_word_not_space _).
  assert (Forall (word_of (fun c => isword c = true)) (split s1)) as Hws.
  { unfold split.
    eapply Forall_impl;
      [apply (split_from_words (fun c => isword c || isspace c = true));
       [|constructor]|].
    - subst s1. unfold sub_not_word_not_space. apply Forall_forall.
      intros c Hc. apply list_elem_of_In in Hc. by apply filter_In in Hc as [_ Hc].
    - intros word [Hne Hw]. split; [done|].
      eapply Forall_impl; [exact Hw|]. intros c [Hsp Hc]. split; [done|].
      rewrite Hsp, orb_false_r in Hc. done. }
  rewrite (split_join_words _ _ Hws). split; [done|]. split; [done|].
  by rewrite strip_sub_spaces, (split_join_words _ _ Hws).
Qed.

(** ** The score *)

Lemma quotient_bounds (i u : nat) :
  (i <= u)%nat -> (0 < u)%nat ->
  (0 <= inject_Z (Z.of_nat i) / inject_Z (Z.of_nat u) <= 1)%Q.
Proof.
  intros Hiu Hu.
  assert (0 < inject_Z (Z.of_nat u))%Q as Hpos
    by (change 0%Q with (inject_Z 0); rewrite <- Zlt_Qlt; lia).
  split.
  - apply Qle_shift_div_l; [done|]. rewrite Qmult_0_l.
    change 0%Q with (inject_Z 0). rewrite <- Zle_Qle. lia.
  - apply Qle_shift_div_r; [done|]. rewrite Qmult_1_l.
    rewrite <- Zle_Qle. lia.
Qed.

(** X18. The score is symmetric and a proportion: for any two texts,
    normalized or not, [_calculate_similarity] gives the same score in
    either order, the score lies between 0 and 1, and a text that is not
    empty scores 1 against itself. *)
Theorem similarity_symmetric_bounded (text1 text2 : str) :
  _calculate_similarity text1 text2 = _calculate_similarity text2 text1 /\
  (0 <= _calculate_similarity text1 text2 <= 1)%Q /\
  (text1 <> [] -> _calculate_similarity text1 text1 = 1%Q).
Proof.
  split; [|split].
  - unfold _calculate_similarity.
    rewrite (orb_comm (bool_decide (text1 = []))).
    destruct (_ || _); [done|].
    rewrite (bool_decide_ext (text1 = text2) (text2 = text1)) by done.
    destruct (bool_decide (text2 = text1)); [done|].
    rewrite (orb_comm (bool_decide (_ = ∅))).
    destruct (_ || _); [done|].
    set (A := list_to_set (split text1) : gset str).
    set (B := list_to_set (split text2) : gset str).
    assert (A ∩ B = B ∩ A) as -> by apply intersection_comm_L.
    assert (A ∪ B = B ∪ A) as -> by apply union_comm_L.
    done.
  - unfold _calculate_similarity.
    destruct (_ || _); [done|]. destruct (bool_decide (text1 = text2)); [done|].
    destruct (_ || _); [done|].
    destruct (Nat.ltb_spec 0
                (size (list_to_set (split text1) ∪ list_to_set (split text2)
                       : gset str))) as [Hu|_]; [|done].
    apply quotient_bounds; [|done]. apply subseteq_size.
    intros x Hx. apply elem_of_intersection in Hx as [Hx _].
    apply elem_of_union. by left.
  - intros Hne. unfold _calculate_similarity.
    rewrite (bool_decide_false (text1 = [])) by done. cbn [orb].
    by rewrite bool_decide_true.
Qed.

End WithUnicode.

Section WithLibraries.
Context `{!PyText, !Unicode, !Whisper, !Pydub, !FloatText}.

(** ** The verdict on any recording *)

(** X19. [verify_passphrase] on an authenticator with a model never
    raises.  When the transcription failed, the attempt is not verified,
    and the result has the reason and no score.  Under a positive
    threshold, an attempt is verified only if something was transcribed
    and both normalized texts are non-empty: an empty recording or a
    passphrase of punctuation alone is never accepted. *)
Theorem verify_passphrase_total (self : VoiceAuthenticator)
    (m : whisper_model) (audio_path expected_passphrase : str)
    (similarity_threshold : Q) (w : world) :
  model self = Some m ->
  exists v w',
    verify_passphrase self audio_path expected_passphrase
      similarity_threshold w = (Ok v, w') /\
    (v_error v <> None ->
     v_verified v = false /\ v_similarity v = None /\
     v_transcribed_text v = []) /\
    (v_verified v = true -> (0 < similarity_threshold)%Q ->
     v_error v = None /\
     exists heard, v_transcribed_normalized v = Some heard /\ heard <> [] /\
       normalize_text expected_passphrase <> []).
Proof.
  intros Hm.
  destruct (transcribe_audio_outcome self m audio_path w Hm)
    as (tr & w1 & Htr & _).
  unfold verify_passphrase. rewrite (io_bind_ok _ _ _ _ _ Htr).
  destruct (tr_success tr); cbn [negb].
  - set (similarity := _calculate_similarity _ _).
    destruct (Qle_bool similarity_threshold similarity) eqn:Hle;
      rewrite io_bind_print; do 2 eexists; (split; [reflexivity|]);
      cbn [v_error v_verified v_similarity v_transcribed_text
           v_transcribed_normalized]; (split; [done|]); [|done].
    intros _ Hpos. split; [done|]. eexists. split; [reflexivity|].
    apply Qle_bool_iff in Hle.
    assert (~ similarity = 0%Q) as Hnz.
    { intros Hzero. rewrite Hzero in Hle.
      apply (Qlt_irrefl 0). by eapply Qlt_le_trans. }
    split; intros Hempty; apply Hnz, calculate_similarity_empty;
      [by left|by right].
  - do 2 eexists. split; [reflexivity|].
    cbn [v_error v_verified v_similarity v_transcribed_text]. by split.
Qed.

(** ** The temporary file *)

(** The [finally] clause: the temporary file is gone afterwards unless it
    cannot be removed, and nothing else is touched. *)
Lemma finally_removes (temp : str) (w2 : world) r (w3 : world) :
  (present ← os_path_exists temp;
   if negb (bool_decide (temp = [])) && present
   then io_try (os_unlink temp) (fun _ => mret tt)
   else mret tt) w2 = (r, w3) ->
  (temp = [] \/ fs w3 !! temp = None \/ read_only w3 temp = true) /\
  (forall path, path <> temp -> fs w3 !! path = fs w2 !! path) /\
  stdout w3 = stdout w2.
Proof.
  unfold mbind, io_bind, os_path_exists, io_try, os_unlink, mret, io_ret.
  cbv beta iota.
  destruct (decide (temp = [])) as [->|Hne].
  { rewrite bool_decide_true by done. cbn [negb andb].
    intros Heq; inversion Heq; subst. split; [by left|by split]. }
  rewrite (bool_decide_false _ Hne). cbn [negb andb].
  destruct (fs w2 !! temp) as [f|] eqn:Hf.
  - rewrite bool_decide_true by done. cbv beta iota. rewrite Hf.
    destruct (read_only w2 temp) eqn:Hro.
    + intros Heq; inversion Heq; subst. split; [right; by right|by split].
    + intros Heq; inversion Heq; subst. cbn [fs read_only stdout].
      split; [right; left; apply lookup_delete_eq|]. split; [|done].
      intros path Hp. by apply lookup_delete_ne.
  - rewrite bool_decide_false by (by intros [? ?]).
    intros Heq; inversion Heq; subst. split; [right; by left|by split].
Qed.

(** X20. The temporary file of [transcribe_audio].  When the recording was
    converted, the file that the conversion returned is gone after the
    call, whether the transcription succeeded or not, unless it cannot be
    removed (or its name is empty).  When the conversion itself raised,
    nothing is removed: the files are those that the failed conversion
    left, a temporary file that it had created already included.  A path
    that ends in [.wav], in any case of the letters, is handed to the model
    as it is and is still there afterwards if the model left it there. *)
Theorem temporary_file_removed (self : VoiceAuthenticator)
    (m : whisper_model) (audio_path : str) (w : world) :
  model self = Some m ->
  exists tr w',
    transcribe_audio self audio_path w = (Ok tr, w') /\
    (forall temp w_c,
       endswith (str_lower audio_path) (lit ".wav") = false ->
       convert_audio_to_wav audio_path w = (Ok temp, w_c) ->
       temp = [] \/ fs w' !! temp = None \/ read_only w' temp = true) /\
    (forall e w_e,
       endswith (str_lower audio_path) (lit ".wav") = false ->
       convert_audio_to_wav audio_path w = (Raise e, w_e) ->
       fs w' = fs w_e /\ tr_success tr = false) /\
    (endswith (str_lower audio_path) (lit ".wav") = true ->
     fs w'
     = fs (model_transcribe m audio_path (lit "en")
             (printed w ([0x1F3A4] ++ lit " Transcribing audio..."))).2).
Proof.
  intros Hm. unfold transcribe_audio. rewrite Hm.
  destruct (endswith (str_lower audio_path) (lit ".wav")) eqn:Hwav;
    cbn [negb].
  - pose proof (transcribe_path_cases m audio_path w) as Hcases.
    cbv zeta in Hcases.
    destruct (model_transcribe m audio_path (lit "en") _)
      as [[res|e] w_r] eqn:Hmodel.
    + destruct (wr_text res) as [text|] eqn:Htext.
      * destruct Hcases as [line ->]. do 2 eexists.
        split; [reflexivity|]. by repeat split.
      * rewrite Hcases. rewrite io_bind_print. unfold mret, io_ret.
        do 2 eexists. split; [reflexivity|]. by repeat split.
    + rewrite Hcases. rewrite io_bind_print. unfold mret, io_ret.
      do 2 eexists. split; [reflexivity|]. by repeat split.
  - destruct (convert_audio_to_wav audio_path w) as [[temp|e] w_c] eqn:Hconv.
    + assert (forall (outcome : result transcript) w1, exists tr w',
        (let '(returned, w2) :=
           match outcome with
           | Ok t => (Ok t, w1)
           | Raise e =>
               (_ ← print ([0x274C] ++ lit " Transcription failed: "
                            ++ exn_msg e);
                mret (MkTranscript [] [] (lit "unknown") 0%Q false
                        (Some (exn_msg e)))) w1
           end in
         let '(_, w3) :=
           (present ← os_path_exists temp;
            if negb (bool_decide (temp = [])) && present
            then io_try (os_unlink temp) (fun _ => mret tt)
            else mret tt) w2 in
         (returned, w3)) = (Ok tr, w') /\
        (temp = [] \/ fs w' !! temp = None \/ read_only w' temp = true))
        as Hrest.
      { intros outcome w1.
        destruct outcome as [t|e];
          [|rewrite io_bind_print; unfold mret at 1, io_ret at 1];
          match goal with
          | |- context [(os_path_exists temp ≫= ?k) ?w2] =>
              destruct ((os_path_exists temp ≫= k) w2) as [r w3] eqn:Hfin
          end;
          apply finally_removes in Hfin as [Hgone _];
          by do 2 eexists. }
      destruct (transcribe_path m temp w_c) as [outcome w1].
      destruct (Hrest outcome w1) as (tr & w' & -> & Hgone).
      exists tr, w'. split; [done|]. split; [|split; [|done]].
      * by intros temp' w_c' _ [= <- <-].
      * intros e w_e _ [=].
    + rewrite io_bind_print. unfold mret, io_ret.
      do 2 eexists. split; [reflexivity|]. split; [|split; [|done]].
      * intros temp w_c' _ [=].
      * by intros e' w_e _ [= <- <-].
Qed.

End WithLibraries.

Lemma verify_passphrase_total_witness :
  exists v w',
    @verify_passphrase plain_text ascii_unicode whisper_script pydub_script
      float_text_exact self_base (lit "voice.wav") (lit "?!")
      default_similarity_threshold world_voice = (Ok v, w') /\
    (v_error v <> None ->
     v_verified v = false /\ v_similarity v = None /\
     v_transcribed_text v = []) /\
    (v_verified v = true -> (0 < default_similarity_threshold)%Q ->
     v_error v = None /\
     exists heard, v_transcribed_normalized v = Some heard /\ heard <> [] /\
       @normalize_text ascii_unicode (lit "?!") <> []).
Proof.
  exact (@verify_passphrase_total plain_text ascii_unicode whisper_script pydub_script
           float_text_exact self_base tt (lit "voice.wav") (lit "?!")
           default_similarity_threshold world_voice eq_refl).
Defined.

Lemma temporary_file_removed_witness :
  exists tr w',
    @transcribe_audio plain_text ascii_unicode whisper_script pydub_script self_base
      (lit "memo.m4a") world_memo = (Ok tr, w') /\
    (forall temp w_c,
       endswith (@str_lower ascii_unicode (lit "memo.m4a")) (lit ".wav")
       = false ->
       @convert_audio_to_wav pydub_script (lit "memo.m4a") world_memo
       = (Ok temp, w_c) ->
       temp = [] \/ fs w' !! temp = None \/ read_only w' temp = true) /\
    (forall e w_e,
       endswith (@str_lower ascii_unicode (lit "memo.m4a")) (lit ".wav")
       = false ->
       @convert_audio_to_wav pydub_script (lit "memo.m4a") world_memo
       = (Raise e, w_e) ->
       fs w' = fs w_e /\ tr_success tr = false) /\
    (endswith (@str_lower ascii_unicode (lit "memo.m4a")) (lit ".wav") = true ->
     fs w'
     = fs (@model_transcribe whisper_script tt (lit "memo.m4a") (lit "en")
             (printed world_memo
                ([0x1F3A4] ++ lit " Transcribing audio..."))).2).
Proof.
  exact (@temporary_file_removed plain_text ascii_unicode whisper_script pydub_script
           self_base tt (lit "memo.m4a") world_memo eq_refl).
Defined.

(** The recording [memo.m4a] is converted, transcribed from the temporary
    file, and the temporary file is removed: the files are as before. *)
Example transcribe_audio_memo :
  exists tr w',
    @transcribe_audio plain_text ascii_unicode whisper_script pydub_script self_base
      (lit "memo.m4a") world_memo = (Ok tr, w') /\
    tr_normalized_text tr = lit "open sesame let me in" /\
    (@convert_audio_to_wav pydub_script (lit "memo.m4a") world_memo).1
    = Ok (lit "/tmp/tmp0.wav") /\
    fs w' !! lit "/tmp/tmp0.wav" = None /\
    fs w' = fs world_memo.
Proof.
  do 2 eexists. split; [vm_compute; reflexivity|].
  split; [reflexivity|]. split; [vm_compute; reflexivity|].
  split; [by vm_compute|]. by vm_compute.
Qed.

(** Texts and their normal forms. *)
Example normalize_text_examples :
  @normalize_text ascii_unicode (lit "  Hello,   World!  ")
  = lit "hello world" /\
  @normalize_text ascii_unicode (lit "a , b") = lit "a b" /\
  @normalize_text ascii_unicode (lit " ?! ") = [] /\
  @split ascii_unicode (lit "hello world") = [lit "hello"; lit "world"].
Proof. repeat split; vm_compute; reflexivity. Qed.

End VoiceMoreProofs.
